(** * go-rest-scaffold: a shallow embedding of the delivery layer

    The development follows the package layout of the repository:
    [entity] and [model] hold the data, [converter] the entity-to-response
    functions, [config] the validation-message helpers, [http] the three
    controllers, [usecase] and [middleware] the layers the controllers
    talk to. *)

From Stdlib Require Import ZArith List String Ascii Bool Lia.
From Stdlib Require Import QArith Qpower Lqa.
From Stdlib Require Import Floats.SpecFloat.
Import ListNotations.

Local Open Scope Z_scope.

(** ** Package [entity] *)

Module entity.

(** The [entity] package is not part of the sources at hand.  Go strings
    are [string], the [int64] millisecond stamps are [Z]. *)
Module User.
(** Modelled from the spec: the user of section 3; [ID], [Name], [Token],
    [RefreshToken], [CreatedAt] and [UpdatedAt] are the fields the user
    converters read, [Password] is the hashed password. *)
Record t := mk {
  ID : string;
  Password : string;
  Name : string;
  Token : string;
  RefreshToken : string;
  CreatedAt : Z;
  UpdatedAt : Z
}.
End User.

Module Contact.
(** Modelled from the spec: the contact of section 3; the converter reads
    all fields but the owner key [UserId] and the nullable deletion
    stamp [DeletedAt]. *)
Record t := mk {
  ID : string;
  FirstName : string;
  LastName : string;
  Email : string;
  Phone : string;
  UserId : string;
  CreatedAt : Z;
  UpdatedAt : Z;
  DeletedAt : option Z
}.
End Contact.

Module Address.
(** Modelled from the spec: the address of section 3; the converter reads
    all fields but the contact key [ContactId] and the nullable deletion
    stamp [DeletedAt]. *)
Record t := mk {
  ID : string;
  ContactId : string;
  Street : string;
  City : string;
  Province : string;
  PostalCode : string;
  Country : string;
  CreatedAt : Z;
  UpdatedAt : Z;
  DeletedAt : option Z
}.
End Address.

End entity.

(** ** Package [model] : request and response objects *)

Module model.

(** The [model] package is not part of the sources at hand. *)
Module Auth.
(** Modelled from the spec: the authenticated user the middleware attaches
    to the context; the controllers read its [ID]. *)
Record t := mk { ID : string }.
End Auth.

Module CreateContactRequest.
(** Modelled from the spec: the body of a contact creation; [UserId] is
    the field the controller assigns, the rest the contact fields of
    section 3. *)
Record t := mk {
  UserId : string;
  FirstName : string;
  LastName : string;
  Email : string;
  Phone : string
}.
End CreateContactRequest.

Module UpdateContactRequest.
(** Modelled from the spec: the body of a contact update; [UserId] and
    [ID] are the fields the controller assigns, the rest the contact
    fields of section 3. *)
Record t := mk {
  UserId : string;
  ID : string;
  FirstName : string;
  LastName : string;
  Email : string;
  Phone : string
}.
End UpdateContactRequest.

Module SearchContactRequest.
(** Modelled from the spec: the search request; every field is assigned
    by the controller, [Page] and [Size] are Go [int]s. *)
Record t := mk {
  UserId : string;
  Name : string;
  Email : string;
  Phone : string;
  Page : Z;
  Size : Z
}.
End SearchContactRequest.

Module GetContactRequest.
(** Modelled from the spec: the fields the controller assigns. *)
Record t := mk { UserId : string; ID : string }.
End GetContactRequest.

Module DeleteContactRequest.
(** Modelled from the spec: the fields the controller assigns. *)
Record t := mk { UserId : string; ID : string }.
End DeleteContactRequest.

Module CreateAddressRequest.
(** Modelled from the spec: the body of an address creation; [UserId] and
    [ContactId] are the fields the controller assigns, the rest the
    address fields of section 3. *)
Record t := mk {
  UserId : string;
  ContactId : string;
  Street : string;
  City : string;
  Province : string;
  PostalCode : string;
  Country : string
}.
End CreateAddressRequest.

Module UpdateAddressRequest.
(** Modelled from the spec: the body of an address update; [UserId],
    [ContactId] and [ID] are the fields the controller assigns, the rest
    the address fields of section 3. *)
Record t := mk {
  UserId : string;
  ContactId : string;
  ID : string;
  Street : string;
  City : string;
  Province : string;
  PostalCode : string;
  Country : string
}.
End UpdateAddressRequest.

Module ListAddressRequest.
(** Modelled from the spec: the fields the controller assigns. *)
Record t := mk { UserId : string; ContactId : string }.
End ListAddressRequest.

Module GetAddressRequest.
(** Modelled from the spec: the fields the controller assigns. *)
Record t := mk { UserId : string; ContactId : string; ID : string }.
End GetAddressRequest.

Module DeleteAddressRequest.
(** Modelled from the spec: the fields the controller assigns. *)
Record t := mk { UserId : string; ContactId : string; ID : string }.
End DeleteAddressRequest.

Module RegisterUserRequest.
(** Modelled from the spec: the body of a registration: identifier,
    password and name (section 4.4). *)
Record t := mk { ID : string; Password : string; Name : string }.
End RegisterUserRequest.

Module LoginUserRequest.
(** Modelled from the spec: the body of a login: identifier and password
    (section 4.4). *)
Record t := mk { ID : string; Password : string }.
End LoginUserRequest.

Module GetUserRequest.
(** Modelled from the spec: the field the controller assigns. *)
Record t := mk { ID : string }.
End GetUserRequest.

Module LogoutUserRequest.
(** Modelled from the spec: the field the controller assigns. *)
Record t := mk { ID : string }.
End LogoutUserRequest.

Module UpdateUserRequest.
(** Modelled from the spec: the body of a user update; [ID] is the field
    the controller assigns, name and password may change (section 4.4). *)
Record t := mk { ID : string; Password : string; Name : string }.
End UpdateUserRequest.

Module RefreshTokenRequest.
(** Modelled from the spec: the body of a token refresh (section 4.1). *)
Record t := mk { RefreshToken : string }.
End RefreshTokenRequest.

Module VerifyUserRequest.
(** Modelled from the spec: the token handed to the authenticator
    (section 4.1). *)
Record t := mk { Token : string }.
End VerifyUserRequest.

Module PageMetadata.
(** Modelled from the spec: the paging metadata of section 6; the four
    fields are the ones the controller assigns, [Page] and [Size] from
    Go [int]s, the totals [int64]. *)
Record t := mk {
  Page : Z;
  Size : Z;
  TotalItem : Z;
  TotalPage : Z
}.
End PageMetadata.

Module WebResponse.
(** Modelled from the spec: the response envelope of section 6,
    [WebResponse[T]]; [Paging] is a pointer, [None] when the handler
    leaves it out. *)
Record t (T : Type) := mk {
  Data : T;
  Paging : option PageMetadata.t;
  Errors : string
}.
Arguments mk {T}.
Arguments Data {T}.
Arguments Paging {T}.
Arguments Errors {T}.
End WebResponse.

Module UserResponse.
(** Modelled from the spec: the user response; the fields are the ones
    the two user converters assign. *)
Record t := mk {
  ID : string;
  Name : string;
  Token : string;
  RefreshToken : string;
  CreatedAt : Z;
  UpdatedAt : Z
}.
End UserResponse.

Module ContactResponse.
(** Modelled from the spec: the contact response; the fields are the ones
    the converter assigns. *)
Record t := mk {
  ID : string;
  FirstName : string;
  LastName : string;
  Email : string;
  Phone : string;
  CreatedAt : Z;
  UpdatedAt : Z
}.
End ContactResponse.

Module AddressResponse.
(** Modelled from the spec: the address response; the fields are the ones
    the converter assigns. *)
Record t := mk {
  ID : string;
  Street : string;
  City : string;
  Province : string;
  PostalCode : string;
  Country : string;
  CreatedAt : Z;
  UpdatedAt : Z
}.
End AddressResponse.

End model.

(** ** Package [converter] *)

Module converter.

(** Fields a Go composite literal leaves out take the zero value of
    their type: the empty string, the integer zero. *)
Definition UserToResponse (user : entity.User.t) : model.UserResponse.t :=
  {| model.UserResponse.ID := entity.User.ID user;
     model.UserResponse.Name := entity.User.Name user;
     model.UserResponse.Token := EmptyString;
     model.UserResponse.RefreshToken := EmptyString;
     model.UserResponse.CreatedAt := entity.User.CreatedAt user;
     model.UserResponse.UpdatedAt := entity.User.UpdatedAt user |}.

Definition UserToTokenResponse (user : entity.User.t) : model.UserResponse.t :=
  {| model.UserResponse.ID := EmptyString;
     model.UserResponse.Name := EmptyString;
     model.UserResponse.Token := entity.User.Token user;
     model.UserResponse.RefreshToken := entity.User.RefreshToken user;
     model.UserResponse.CreatedAt := 0;
     model.UserResponse.UpdatedAt := 0 |}.

Definition ContactToResponse (contact : entity.Contact.t) : model.ContactResponse.t :=
  {| model.ContactResponse.ID := entity.Contact.ID contact;
     model.ContactResponse.FirstName := entity.Contact.FirstName contact;
     model.ContactResponse.LastName := entity.Contact.LastName contact;
     model.ContactResponse.Email := entity.Contact.Email contact;
     model.ContactResponse.Phone := entity.Contact.Phone contact;
     model.ContactResponse.CreatedAt := entity.Contact.CreatedAt contact;
     model.ContactResponse.UpdatedAt := entity.Contact.UpdatedAt contact |}.

Definition AddressToResponse (address : entity.Address.t) : model.AddressResponse.t :=
  {| model.AddressResponse.ID := entity.Address.ID address;
     model.AddressResponse.Street := entity.Address.Street address;
     model.AddressResponse.City := entity.Address.City address;
     model.AddressResponse.Province := entity.Address.Province address;
     model.AddressResponse.PostalCode := entity.Address.PostalCode address;
     model.AddressResponse.Country := entity.Address.Country address;
     model.AddressResponse.CreatedAt := entity.Address.CreatedAt address;
     model.AddressResponse.UpdatedAt := entity.Address.UpdatedAt address |}.

End converter.

(** ** Package [config] : [toSnakeCase] *)

Module config.

(** A Go [rune] is an [int32] code point.  [for i, v := range s]
    decodes the bytes of [s] into runes (an invalid byte comes out as
    U+FFFD) and [result += string(v)] encodes each one back, so the
    function is followed on the decoded sequence: its input is the
    rune sequence of [s], its output the rune sequence of the returned
    string. *)
Definition rune := Z.

Definition underscore : rune := 95.

(** [v >= 'A' && v <= 'Z'] *)
Definition isUpperASCII (v : rune) : bool := (65 <=? v) && (v <=? 90).

Section SnakeCase.

(** [unicode.ToLower] beyond ASCII is a table of the Go library. *)
Variable unicode_To_LowerCase : rune -> rune.

(** [unicode.ToLower]: the ASCII branch is written out in the
    library, the rest goes through the case tables. *)
Definition unicode_ToLower (r : rune) : rune :=
  if r <=? 127
  then (if isUpperASCII r then r + (97 - 65) else r)
  else unicode_To_LowerCase r.

(** [strings.ToLower] maps [unicode.ToLower] over the runes. *)
Definition strings_ToLower (s : list rune) : list rune :=
  map unicode_ToLower s.

(** The body of the [range] loop, [i] counting the iterations done:
    the byte offset of the source is positive exactly from the
    second rune on. *)
Fixpoint snake_loop (i : nat) (s : list rune) (result : list rune)
  : list rune :=
  match s with
  | [] => result
  | v :: rest =>
      let result :=
        if (0 <? i)%nat && isUpperASCII v
        then result ++ [underscore] else result in
      let result := result ++ [v] in
      snake_loop (S i) rest result
  end.

Definition toSnakeCase (s : list rune) : list rune :=
  strings_ToLower (snake_loop 0 s []).

End SnakeCase.

End config.

(** ** Package [config] : the messages of validation errors *)

Module messages.

Import config.

(** A Go string is followed on its rune sequence, as in [toSnakeCase];
    the literals of the source are ASCII, one rune to the byte, so
    cutting and joining at a literal agrees with cutting and joining the
    bytes. *)
Definition gostring := list rune.

(** A string literal of the source. *)
Definition lit (s : string) : gostring :=
  map (fun c => Z.of_nat (nat_of_ascii c)) (list_ascii_of_string s).

(** [validator.FieldError], an interface of the validation library:
    the three methods the formatting calls. *)
Module FieldError.
Record t := mk {
  Field : gostring;
  Tag : gostring;
  Param : gostring
}.
End FieldError.

(** A non-nil [error] as [FormatValidationErrors] tells them apart: a
    [validator.ValidationErrors], which is a slice of field errors, or
    anything else, of which only the [Error()] text is used. *)
Inductive error :=
| ValidationErrors (validationErrors : list FieldError.t)
| OtherError (text : gostring).

(** [a == b] on strings. *)
Definition eqs (a b : gostring) : bool :=
  if list_eq_dec Z.eq_dec a b then true else false.

(** [strings.Join(elems, sep)] *)
Fixpoint Join (elems : list gostring) (sep : gostring) : gostring :=
  match elems with
  | [] => []
  | [a] => a
  | a :: rest => a ++ sep ++ Join rest sep
  end.

Section Messages.

Variable unicode_To_LowerCase : rune -> rune.

(** [fmt.Sprintf] with [%s] verbs splices its string arguments into
    the format. *)
Definition formatValidationError (e : FieldError.t) : gostring :=
  let field := toSnakeCase unicode_To_LowerCase (FieldError.Field e) in
  if eqs (FieldError.Tag e) (lit "required") then
    field ++ lit " is required"
  else if eqs (FieldError.Tag e) (lit "min") then
    field ++ lit " must be at least " ++ FieldError.Param e ++ lit " characters"
  else if eqs (FieldError.Tag e) (lit "max") then
    field ++ lit " must be at most " ++ FieldError.Param e ++ lit " characters"
  else if eqs (FieldError.Tag e) (lit "oneof") then
    field ++ lit " must be one of: " ++ FieldError.Param e
  else if eqs (FieldError.Tag e) (lit "url") then
    field ++ lit " must be a valid URL"
  else if eqs (FieldError.Tag e) (lit "email") then
    field ++ lit " must be a valid email"
  else
    field ++ lit " is invalid".

(** [err == nil] is [None]. *)
Definition FormatValidationErrors (err : option error) : gostring :=
  match err with
  | None => []
  | Some (ValidationErrors validationErrors) =>
      let errorMessages := map formatValidationError validationErrors in
      Join errorMessages (lit "; ")
  | Some (OtherError text) => text
  end.

End Messages.

End messages.

(** ** Go's [float64], as far as [ContactController.List] uses it *)

Module float64.

(** IEEE 754 binary64 in the Standard Library's specification:
    53 bits of precision, exponent bound 1024, rounding to nearest
    even. *)
Definition t := spec_float.
Definition prec : Z := 53.
Definition emax : Z := 1024.

(** The conversion [float64(n)] of an integer. *)
Definition of_int (n : Z) : t := binary_normalize prec emax n 0 false.

(** The operator [/] on two [float64] values. *)
Definition div (x y : t) : t := SFdiv prec emax x y.

(** [math.Ceil]: the least integral value not below [x]; zeros,
    infinities and NaN are returned as they are. *)
Definition Ceil (x : t) : t :=
  match x with
  | S754_finite s m e =>
      if 0 <=? e then x
      else
        let d := 2 ^ (- e) in
        let c := if s then - (Zpos m / d) else - ((- Zpos m) / d) in
        binary_normalize prec emax c 0 s
  | _ => x
  end.

(** The integral part of a finite value (truncation toward zero). *)
Definition int_part (x : t) : option Z :=
  match x with
  | S754_zero _ => Some 0
  | S754_finite s m e =>
      let a := if 0 <=? e then Zpos m * 2 ^ e else Zpos m / 2 ^ (- e) in
      Some (if s then - a else a)
  | _ => None
  end.

Definition min_int64 : Z := - 2 ^ 63.
Definition max_int64 : Z := 2 ^ 63 - 1.

Section Conversion.

(** The conversion [int64(x)] truncates; where the value does not
    fit (NaN, an infinity, a magnitude of 2^63 or more) the language
    leaves the result to the implementation. *)
Variable unrepresentable : t -> Z.

Definition to_int64 (x : t) : Z :=
  match int_part x with
  | Some v =>
      if (min_int64 <=? v) && (v <=? max_int64) then v
      else unrepresentable x
  | None => unrepresentable x
  end.

End Conversion.

End float64.

(** ** The part of [fiber] the controllers use *)

Module fiber.

(** [*fiber.Error]: an error that carries its HTTP status. *)
Module Error.
Record t := mk { Code : Z; Message : string }.
End Error.

Definition ErrBadRequest := Error.mk 400 "Bad Request".
Definition ErrUnauthorized := Error.mk 401 "Unauthorized".
Definition ErrNotFound := Error.mk 404 "Not Found".
Definition ErrConflict := Error.mk 409 "Conflict".
Definition ErrInternalServerError := Error.mk 500 "Internal Server Error".

(** [strconv.Atoi] on the decimal syntax: an optional sign, at least
    one digit, a value in the range of [int]. *)
Fixpoint digits (s : string) (acc : Z) : option Z :=
  match s with
  | EmptyString => Some acc
  | String c rest =>
      let n := Z.of_nat (nat_of_ascii c) in
      if (48 <=? n) && (n <=? 57)
      then digits rest (10 * acc + (n - 48))
      else None
  end.

Definition unsigned (s : string) : option Z :=
  match s with
  | EmptyString => None
  | _ => digits s 0
  end.

Definition Atoi (s : string) : option Z :=
  let v :=
    match s with
    | String "-" rest => option_map Z.opp (unsigned rest)
    | String "+" rest => unsigned rest
    | _ => unsigned s
    end in
  match v with
  | Some n =>
      if (float64.min_int64 <=? n) && (n <=? float64.max_int64)
      then Some n else None
  | None => None
  end.

(** [*fiber.Ctx], seen from a handler whose body type is [B]:
    the value the middleware stored under the key [auth], the outcome
    of [BodyParser] into a fresh [B] ([None]: it returned an error),
    the route parameters, the query arguments (empty when absent) and
    the header fields. *)
Module Ctx.
Record t (B : Type) := mk {
  Locals_auth : option model.Auth.t;
  Body : option B;
  RouteParams : string -> string;
  QueryArgs : string -> string;
  Headers : string -> string
}.
Arguments mk {B}.
Arguments Locals_auth {B}.
Arguments Body {B}.
Arguments RouteParams {B}.
Arguments QueryArgs {B}.
Arguments Headers {B}.
End Ctx.

Definition BodyParser {B} (ctx : Ctx.t B) : option B := Ctx.Body ctx.

Definition Params {B} (ctx : Ctx.t B) (key : string) : string :=
  Ctx.RouteParams ctx key.

(** [ctx.Query(key, def)]: the default stands in for an empty value. *)
Definition Query {B} (ctx : Ctx.t B) (key def : string) : string :=
  match Ctx.QueryArgs ctx key with
  | EmptyString => def
  | v => v
  end.

(** [ctx.QueryInt(key, def)]: the default stands in for a value
    [Atoi] rejects, and for nothing else. *)
Definition QueryInt {B} (ctx : Ctx.t B) (key : string) (def : Z) : Z :=
  match Atoi (Ctx.QueryArgs ctx key) with
  | Some n => n
  | None => def
  end.

End fiber.

(** ** Results and effects *)

Module effect.

(** A Go pair [(value, error)]: the value counts when the error is
    nil.  Every error that travels through the controllers is a
    [*fiber.Error]. *)
Inductive result (T : Type) :=
| Ok (v : T)
| Err (e : fiber.Error.t).
Arguments Ok {T}.
Arguments Err {T}.

(** The use-case methods the controllers reach, with their input. *)
Inductive Call :=
| ContactCreate (r : model.CreateContactRequest.t)
| ContactSearch (r : model.SearchContactRequest.t)
| ContactGet (r : model.GetContactRequest.t)
| ContactUpdate (r : model.UpdateContactRequest.t)
| ContactDelete (r : model.DeleteContactRequest.t)
| AddressCreate (r : model.CreateAddressRequest.t)
| AddressList (r : model.ListAddressRequest.t)
| AddressGet (r : model.GetAddressRequest.t)
| AddressUpdate (r : model.UpdateAddressRequest.t)
| AddressDelete (r : model.DeleteAddressRequest.t)
| UserCreate (r : model.RegisterUserRequest.t)
| UserLogin (r : model.LoginUserRequest.t)
| UserCurrent (r : model.GetUserRequest.t)
| UserLogout (r : model.LogoutUserRequest.t)
| UserUpdate (r : model.UpdateUserRequest.t)
| UserRefreshToken (r : model.RefreshTokenRequest.t)
| UserVerify (r : model.VerifyUserRequest.t).

Inductive Level := ErrorLevel | WarnLevel.

(** What a request leaves behind besides its answer: log lines and
    use-case calls, oldest first. *)
Inductive Event :=
| Logged (level : Level) (msg : string)
| Called (c : Call).

Section World.

Variable DB : Type.

Record World := mkWorld { db : DB; trace : list Event }.

Definition M (A : Type) := World -> A * World.

Definition ret {A} (a : A) : M A := fun w => (a, w).

Definition bind {A B} (m : M A) (k : A -> M B) : M B :=
  fun w => let (a, w') := m w in k a w'.

Definition emit (e : Event) : M unit :=
  fun w => (tt, mkWorld (db w) (trace w ++ [e])).

(** A call into the use-case layer: noted, then run on the store. *)
Definition call {A} (c : Call) (f : DB -> A * DB) : M A :=
  fun w =>
    let (a, d) := f (db w) in
    (a, mkWorld d (trace w ++ [Called c])).

Definition Log_Error (msg : string) : M unit := emit (Logged ErrorLevel msg).
Definition Log_Warnf (msg : string) : M unit := emit (Logged WarnLevel msg).

(** The use-case calls of a trace. *)
Fixpoint calls (tr : list Event) : list Call :=
  match tr with
  | [] => []
  | Called c :: rest => c :: calls rest
  | Logged _ _ :: rest => calls rest
  end.

End World.

Arguments mkWorld {DB}.
Arguments db {DB}.
Arguments trace {DB}.
Arguments ret {DB A}.
Arguments bind {DB A B}.
Arguments emit {DB}.
Arguments call {DB A}.
Arguments Log_Error {DB}.
Arguments Log_Warnf {DB}.

End effect.

Declare Scope handler_scope.
Delimit Scope handler_scope with handler.
Notation "x <- m ;; k" := (effect.bind m (fun x => k))
  (at level 61, m at next level, right associativity) : handler_scope.
Notation "m ;; k" := (effect.bind m (fun _ => k))
  (at level 61, right associativity) : handler_scope.

(** ** Package [usecase] : what the controllers call *)

Module usecase.

Import effect.

(** The signatures are read off the call sites.  [Search] is handed
    the request by pointer and the controller reads [Page] and [Size]
    again after the call, so the method also returns the request as it
    stands when it comes back. *)
Module ContactUseCase.
Record t (DB : Type) := mk {
  Create : model.CreateContactRequest.t -> DB ->
           result model.ContactResponse.t * DB;
  Search : model.SearchContactRequest.t -> DB ->
           (model.SearchContactRequest.t *
            result (list model.ContactResponse.t * Z)) * DB;
  Get : model.GetContactRequest.t -> DB ->
        result model.ContactResponse.t * DB;
  Update : model.UpdateContactRequest.t -> DB ->
           result model.ContactResponse.t * DB;
  Delete : model.DeleteContactRequest.t -> DB ->
           option fiber.Error.t * DB
}.
Arguments Create {DB}.
Arguments Search {DB}.
Arguments Get {DB}.
Arguments Update {DB}.
Arguments Delete {DB}.
End ContactUseCase.

Module AddressUseCase.
Record t (DB : Type) := mk {
  Create : model.CreateAddressRequest.t -> DB ->
           result model.AddressResponse.t * DB;
  List : model.ListAddressRequest.t -> DB ->
         result (list model.AddressResponse.t) * DB;
  Get : model.GetAddressRequest.t -> DB ->
        result model.AddressResponse.t * DB;
  Update : model.UpdateAddressRequest.t -> DB ->
           result model.AddressResponse.t * DB;
  Delete : model.DeleteAddressRequest.t -> DB ->
           option fiber.Error.t * DB
}.
Arguments Create {DB}.
Arguments List {DB}.
Arguments Get {DB}.
Arguments Update {DB}.
Arguments Delete {DB}.
End AddressUseCase.

Module UserUseCase.
Record t (DB : Type) := mk {
  Create : model.RegisterUserRequest.t -> DB ->
           result model.UserResponse.t * DB;
  Login : model.LoginUserRequest.t -> DB ->
          result model.UserResponse.t * DB;
  Current : model.GetUserRequest.t -> DB ->
            result model.UserResponse.t * DB;
  Logout : model.LogoutUserRequest.t -> DB -> result bool * DB;
  Update : model.UpdateUserRequest.t -> DB ->
           result model.UserResponse.t * DB;
  RefreshToken : model.RefreshTokenRequest.t -> DB ->
                 result model.UserResponse.t * DB;
  Verify : model.VerifyUserRequest.t -> DB ->
           result model.Auth.t * DB
}.
Arguments Create {DB}.
Arguments Login {DB}.
Arguments Current {DB}.
Arguments Logout {DB}.
Arguments Update {DB}.
Arguments RefreshToken {DB}.
Arguments Verify {DB}.
End UserUseCase.

End usecase.

(** ** Package [http] : the controllers *)

Module http.

Import effect.
Local Open Scope handler_scope.

(** How a handler ends: with [ctx.JSON(body)] (status 200), with an
    error handed back to the framework, whose error handler answers
    with the error's code, or in a panic. *)
Inductive Response (T : Type) :=
| JSON (body : model.WebResponse.t T)
| Fail (err : fiber.Error.t)
| Panic.
Arguments JSON {T}.
Arguments Fail {T}.
Arguments Panic {T}.

Definition status {T} (r : Response T) : option Z :=
  match r with
  | JSON _ => Some 200
  | Fail err => Some (fiber.Error.Code err)
  | Panic => None
  end.

(** [model.WebResponse[T]{Data: d}] *)
Definition data {T} (d : T) : model.WebResponse.t T :=
  model.WebResponse.mk d None EmptyString.

(** Modelled from the spec: [middleware.GetUser] is not part of the
    sources at hand; by sections 4.2 and 9 it reads the authenticated
    user the auth gate attached to the context.  Nothing is attached on a
    route without the auth gate, where the Go type assertion would panic. *)
Definition GetUser {B} (ctx : fiber.Ctx.t B) : option model.Auth.t :=
  fiber.Ctx.Locals_auth ctx.

Section Controllers.

Variable DB : Type.
Variable contactUseCase : usecase.ContactUseCase.t DB.
Variable addressUseCase : usecase.AddressUseCase.t DB.
Variable userUseCase : usecase.UserUseCase.t DB.
Variable unrepresentable : float64.t -> Z.

(** [int64(math.Ceil(float64(total) / float64(size)))] *)
Definition TotalPage (total size : Z) : Z :=
  float64.to_int64 unrepresentable
    (float64.Ceil (float64.div (float64.of_int total) (float64.of_int size))).

(** *** [ContactController] *)

Definition ContactController_Create
    (ctx : fiber.Ctx.t model.CreateContactRequest.t)
  : M DB (Response model.ContactResponse.t) :=
  match GetUser ctx with
  | None => ret Panic
  | Some auth =>
      match fiber.BodyParser ctx with
      | None =>
          Log_Error "error parsing request body" ;;
          ret (Fail fiber.ErrBadRequest)
      | Some request =>
          let request :=
            {| model.CreateContactRequest.UserId := model.Auth.ID auth;
               model.CreateContactRequest.FirstName :=
                 model.CreateContactRequest.FirstName request;
               model.CreateContactRequest.LastName :=
                 model.CreateContactRequest.LastName request;
               model.CreateContactRequest.Email :=
                 model.CreateContactRequest.Email request;
               model.CreateContactRequest.Phone :=
                 model.CreateContactRequest.Phone request |} in
          r <- call (ContactCreate request)
                    (usecase.ContactUseCase.Create contactUseCase request) ;;
          match r with
          | Err err => Log_Error "error creating contact" ;; ret (Fail err)
          | Ok response => ret (JSON (data response))
          end
      end
  end.

Definition ContactController_List {B} (ctx : fiber.Ctx.t B)
  : M DB (Response (list model.ContactResponse.t)) :=
  match GetUser ctx with
  | None => ret Panic
  | Some auth =>
      let request :=
        {| model.SearchContactRequest.UserId := model.Auth.ID auth;
           model.SearchContactRequest.Name := fiber.Query ctx "name" EmptyString;
           model.SearchContactRequest.Email := fiber.Query ctx "email" EmptyString;
           model.SearchContactRequest.Phone := fiber.Query ctx "phone" EmptyString;
           model.SearchContactRequest.Page := fiber.QueryInt ctx "page" 1;
           model.SearchContactRequest.Size := fiber.QueryInt ctx "size" 10 |} in
      out <- call (ContactSearch request)
                  (usecase.ContactUseCase.Search contactUseCase request) ;;
      let (request, r) := out in
      match r with
      | Err err => Log_Error "error searching contact" ;; ret (Fail err)
      | Ok (responses, total) =>
          let paging :=
            {| model.PageMetadata.Page := model.SearchContactRequest.Page request;
               model.PageMetadata.Size := model.SearchContactRequest.Size request;
               model.PageMetadata.TotalItem := total;
               model.PageMetadata.TotalPage :=
                 TotalPage total (model.SearchContactRequest.Size request) |} in
          ret (JSON (model.WebResponse.mk responses (Some paging) EmptyString))
      end
  end.

Definition ContactController_Get {B} (ctx : fiber.Ctx.t B)
  : M DB (Response model.ContactResponse.t) :=
  match GetUser ctx with
  | None => ret Panic
  | Some auth =>
      let request :=
        {| model.GetContactRequest.UserId := model.Auth.ID auth;
           model.GetContactRequest.ID := fiber.Params ctx "contactId" |} in
      r <- call (ContactGet request)
                (usecase.ContactUseCase.Get contactUseCase request) ;;
      match r with
      | Err err => Log_Error "error getting contact" ;; ret (Fail err)
      | Ok response => ret (JSON (data response))
      end
  end.

Definition ContactController_Update
    (ctx : fiber.Ctx.t model.UpdateContactRequest.t)
  : M DB (Response model.ContactResponse.t) :=
  match GetUser ctx with
  | None => ret Panic
  | Some auth =>
      match fiber.BodyParser ctx with
      | None =>
          Log_Error "error parsing request body" ;;
          ret (Fail fiber.ErrBadRequest)
      | Some request =>
          let request :=
            {| model.UpdateContactRequest.UserId := model.Auth.ID auth;
               model.UpdateContactRequest.ID := fiber.Params ctx "contactId";
               model.UpdateContactRequest.FirstName :=
                 model.UpdateContactRequest.FirstName request;
               model.UpdateContactRequest.LastName :=
                 model.UpdateContactRequest.LastName request;
               model.UpdateContactRequest.Email :=
                 model.UpdateContactRequest.Email request;
               model.UpdateContactRequest.Phone :=
                 model.UpdateContactRequest.Phone request |} in
          r <- call (ContactUpdate request)
                    (usecase.ContactUseCase.Update contactUseCase request) ;;
          match r with
          | Err err => Log_Error "error updating contact" ;; ret (Fail err)
          | Ok response => ret (JSON (data response))
          end
      end
  end.

Definition ContactController_Delete {B} (ctx : fiber.Ctx.t B)
  : M DB (Response bool) :=
  match GetUser ctx with
  | None => ret Panic
  | Some auth =>
      let contactId := fiber.Params ctx "contactId" in
      let request :=
        {| model.DeleteContactRequest.UserId := model.Auth.ID auth;
           model.DeleteContactRequest.ID := contactId |} in
      e <- call (ContactDelete request)
                (usecase.ContactUseCase.Delete contactUseCase request) ;;
      match e with
      | Some err => Log_Error "error deleting contact" ;; ret (Fail err)
      | None => ret (JSON (data true))
      end
  end.

(** *** [AddressController] *)

Definition AddressController_Create
    (ctx : fiber.Ctx.t model.CreateAddressRequest.t)
  : M DB (Response model.AddressResponse.t) :=
  match GetUser ctx with
  | None => ret Panic
  | Some auth =>
      match fiber.BodyParser ctx with
      | None =>
          Log_Error "failed to parse request body" ;;
          ret (Fail fiber.ErrBadRequest)
      | Some request =>
          let request :=
            {| model.CreateAddressRequest.UserId := model.Auth.ID auth;
               model.CreateAddressRequest.ContactId := fiber.Params ctx "contactId";
               model.CreateAddressRequest.Street :=
                 model.CreateAddressRequest.Street request;
               model.CreateAddressRequest.City :=
                 model.CreateAddressRequest.City request;
               model.CreateAddressRequest.Province :=
                 model.CreateAddressRequest.Province request;
               model.CreateAddressRequest.PostalCode :=
                 model.CreateAddressRequest.PostalCode request;
               model.CreateAddressRequest.Country :=
                 model.CreateAddressRequest.Country request |} in
          r <- call (AddressCreate request)
                    (usecase.AddressUseCase.Create addressUseCase request) ;;
          match r with
          | Err err => Log_Error "failed to create address" ;; ret (Fail err)
          | Ok response => ret (JSON (data response))
          end
      end
  end.

Definition AddressController_List {B} (ctx : fiber.Ctx.t B)
  : M DB (Response (list model.AddressResponse.t)) :=
  match GetUser ctx with
  | None => ret Panic
  | Some auth =>
      let contactId := fiber.Params ctx "contactId" in
      let request :=
        {| model.ListAddressRequest.UserId := model.Auth.ID auth;
           model.ListAddressRequest.ContactId := contactId |} in
      r <- call (AddressList request)
                (usecase.AddressUseCase.List addressUseCase request) ;;
      match r with
      | Err err => Log_Error "failed to list addresses" ;; ret (Fail err)
      | Ok responses => ret (JSON (data responses))
      end
  end.

Definition AddressController_Get {B} (ctx : fiber.Ctx.t B)
  : M DB (Response model.AddressResponse.t) :=
  match GetUser ctx with
  | None => ret Panic
  | Some auth =>
      let contactId := fiber.Params ctx "contactId" in
      let addressId := fiber.Params ctx "addressId" in
      let request :=
        {| model.GetAddressRequest.UserId := model.Auth.ID auth;
           model.GetAddressRequest.ContactId := contactId;
           model.GetAddressRequest.ID := addressId |} in
      r <- call (AddressGet request)
                (usecase.AddressUseCase.Get addressUseCase request) ;;
      match r with
      | Err err => Log_Error "failed to get address" ;; ret (Fail err)
      | Ok response => ret (JSON (data response))
      end
  end.

Definition AddressController_Update
    (ctx : fiber.Ctx.t model.UpdateAddressRequest.t)
  : M DB (Response model.AddressResponse.t) :=
  match GetUser ctx with
  | None => ret Panic
  | Some auth =>
      match fiber.BodyParser ctx with
      | None =>
          Log_Error "failed to parse request body" ;;
          ret (Fail fiber.ErrBadRequest)
      | Some request =>
          let request :=
            {| model.UpdateAddressRequest.UserId := model.Auth.ID auth;
               model.UpdateAddressRequest.ContactId := fiber.Params ctx "contactId";
               model.UpdateAddressRequest.ID := fiber.Params ctx "addressId";
               model.UpdateAddressRequest.Street :=
                 model.UpdateAddressRequest.Street request;
               model.UpdateAddressRequest.City :=
                 model.UpdateAddressRequest.City request;
               model.UpdateAddressRequest.Province :=
                 model.UpdateAddressRequest.Province request;
               model.UpdateAddressRequest.PostalCode :=
                 model.UpdateAddressRequest.PostalCode request;
               model.UpdateAddressRequest.Country :=
                 model.UpdateAddressRequest.Country request |} in
          r <- call (AddressUpdate request)
                    (usecase.AddressUseCase.Update addressUseCase request) ;;
          match r with
          | Err err => Log_Error "failed to update address" ;; ret (Fail err)
          | Ok response => ret (JSON (data response))
          end
      end
  end.

Definition AddressController_Delete {B} (ctx : fiber.Ctx.t B)
  : M DB (Response bool) :=
  match GetUser ctx with
  | None => ret Panic
  | Some auth =>
      let contactId := fiber.Params ctx "contactId" in
      let addressId := fiber.Params ctx "addressId" in
      let request :=
        {| model.DeleteAddressRequest.UserId := model.Auth.ID auth;
           model.DeleteAddressRequest.ContactId := contactId;
           model.DeleteAddressRequest.ID := addressId |} in
      e <- call (AddressDelete request)
                (usecase.AddressUseCase.Delete addressUseCase request) ;;
      match e with
      | Some err => Log_Error "failed to delete address" ;; ret (Fail err)
      | None => ret (JSON (data true))
      end
  end.

(** *** [UserController] *)

Definition UserController_Register
    (ctx : fiber.Ctx.t model.RegisterUserRequest.t)
  : M DB (Response model.UserResponse.t) :=
  match fiber.BodyParser ctx with
  | None =>
      Log_Warnf "Failed to parse request body : %+v" ;;
      ret (Fail fiber.ErrBadRequest)
  | Some request =>
      r <- call (UserCreate request)
                (usecase.UserUseCase.Create userUseCase request) ;;
      match r with
      | Err err => Log_Warnf "Failed to register user : %+v" ;; ret (Fail err)
      | Ok response => ret (JSON (data response))
      end
  end.

Definition UserController_Login
    (ctx : fiber.Ctx.t model.LoginUserRequest.t)
  : M DB (Response model.UserResponse.t) :=
  match fiber.BodyParser ctx with
  | None =>
      Log_Warnf "Failed to parse request body : %+v" ;;
      ret (Fail fiber.ErrBadRequest)
  | Some request =>
      r <- call (UserLogin request)
                (usecase.UserUseCase.Login userUseCase request) ;;
      match r with
      | Err err => Log_Warnf "Failed to login user : %+v" ;; ret (Fail err)
      | Ok response => ret (JSON (data response))
      end
  end.

Definition UserController_Current {B} (ctx : fiber.Ctx.t B)
  : M DB (Response model.UserResponse.t) :=
  match GetUser ctx with
  | None => ret Panic
  | Some auth =>
      let request := {| model.GetUserRequest.ID := model.Auth.ID auth |} in
      r <- call (UserCurrent request)
                (usecase.UserUseCase.Current userUseCase request) ;;
      match r with
      | Err err => Log_Warnf "Failed to get current user" ;; ret (Fail err)
      | Ok response => ret (JSON (data response))
      end
  end.

Definition UserController_Logout {B} (ctx : fiber.Ctx.t B)
  : M DB (Response bool) :=
  match GetUser ctx with
  | None => ret Panic
  | Some auth =>
      let request := {| model.LogoutUserRequest.ID := model.Auth.ID auth |} in
      r <- call (UserLogout request)
                (usecase.UserUseCase.Logout userUseCase request) ;;
      match r with
      | Err err => Log_Warnf "Failed to logout user" ;; ret (Fail err)
      | Ok response => ret (JSON (data response))
      end
  end.

Definition UserController_Update
    (ctx : fiber.Ctx.t model.UpdateUserRequest.t)
  : M DB (Response model.UserResponse.t) :=
  match GetUser ctx with
  | None => ret Panic
  | Some auth =>
      match fiber.BodyParser ctx with
      | None =>
          Log_Warnf "Failed to parse request body : %+v" ;;
          ret (Fail fiber.ErrBadRequest)
      | Some request =>
          let request :=
            {| model.UpdateUserRequest.ID := model.Auth.ID auth;
               model.UpdateUserRequest.Password :=
                 model.UpdateUserRequest.Password request;
               model.UpdateUserRequest.Name :=
                 model.UpdateUserRequest.Name request |} in
          r <- call (UserUpdate request)
                    (usecase.UserUseCase.Update userUseCase request) ;;
          match r with
          | Err err => Log_Warnf "Failed to update user" ;; ret (Fail err)
          | Ok response => ret (JSON (data response))
          end
      end
  end.

Definition UserController_RefreshToken
    (ctx : fiber.Ctx.t model.RefreshTokenRequest.t)
  : M DB (Response model.UserResponse.t) :=
  match fiber.BodyParser ctx with
  | None =>
      Log_Warnf "Failed to parse request body : %+v" ;;
      ret (Fail fiber.ErrBadRequest)
  | Some request =>
      r <- call (UserRefreshToken request)
                (usecase.UserUseCase.RefreshToken userUseCase request) ;;
      match r with
      | Err err => Log_Warnf "Failed to refresh token : %+v" ;; ret (Fail err)
      | Ok response => ret (JSON (data response))
      end
  end.

End Controllers.

End http.

(** ** Identifiers *)

Module uuid.

(** Modelled from the spec: section 3, the identifier of a contact and
    of an address is "system-generated, e.g. UUID".  A UUID is 128
    bits; its text is the 32 hexadecimal digits, most significant
    first, in groups of 8, 4, 4, 4 and 12 with a hyphen between
    them. *)
Definition UUID := Z.

(** Modelled from the spec: a hexadecimal digit of the text of a
    UUID. *)
Definition hexdigit (d : Z) : ascii :=
  nth (Z.to_nat d)
      ["0"; "1"; "2"; "3"; "4"; "5"; "6"; "7";
       "8"; "9"; "a"; "b"; "c"; "d"; "e"; "f"]%char
      "0"%char.

(** Modelled from the spec: the [n] lowest hexadecimal digits of [v],
    most significant first. *)
Fixpoint hex (n : nat) (v : Z) : list ascii :=
  match n with
  | O => []
  | S k => hex k (v / 16) ++ [hexdigit (v mod 16)]
  end.

(** Modelled from the spec: the text of a UUID, which is the
    identifier of the entity. *)
Definition String (u : UUID) : string :=
  string_of_list_ascii
    (hex 8 (u / 2 ^ 96) ++ "-"%char
     :: hex 4 (u / 2 ^ 80) ++ "-"%char
     :: hex 4 (u / 2 ^ 64) ++ "-"%char
     :: hex 4 (u / 2 ^ 48) ++ "-"%char
     :: hex 12 u).

End uuid.

(** ** The use cases over an entity store *)

Module service.

Import effect.

(** Modelled from the spec: the [usecase] and [repository] packages
    are not part of the sources at hand.  The store holds the three
    tables of section 2 of the specification in creation order, with
    the clock the time stamps are read from; the operations follow
    sections 4.1, 4.3 and 4.4. *)
Record Store := mkStore {
  users : list entity.User.t;
  contacts : list entity.Contact.t;
  addresses : list entity.Address.t;
  now : Z
}.

(** Modelled from the spec: section 3, the nullable deleted time stamp;
    an entity counts while it has none. *)
Definition live (deleted : option Z) : bool :=
  match deleted with
  | None => true
  | Some _ => false
  end.

(** Modelled from the spec: the default page size of section 4.3. *)
Definition default_size : Z := 10.

(** Modelled from the spec: "size <= 0 is treated as the default". *)
Definition effective_size (size : Z) : Z :=
  if size <=? 0 then default_size else size.

(** Modelled from the spec: a contact is reached through its
    identifier, by its owner, while it is not deleted. *)
Definition owned_contact (userId id : string) (c : entity.Contact.t) : bool :=
  String.eqb (entity.Contact.ID c) id
  && String.eqb (entity.Contact.UserId c) userId
  && live (entity.Contact.DeletedAt c).

(** Modelled from the spec: section 4.4, the lookup behind Get, Update and
    Delete of a contact (the repository is not in the sources). *)
Definition find_contact (st : Store) (userId id : string)
  : option entity.Contact.t :=
  find (owned_contact userId id) (contacts st).

(** Modelled from the spec: an address is reached through its
    identifier and its contact, while it is not deleted. *)
Definition contact_address (contactId id : string) (a : entity.Address.t) : bool :=
  String.eqb (entity.Address.ID a) id
  && String.eqb (entity.Address.ContactId a) contactId
  && live (entity.Address.DeletedAt a).

(** Modelled from the spec: section 4.4, the lookup behind Get, Update and
    Delete of an address (the repository is not in the sources). *)
Definition find_address (st : Store) (contactId id : string)
  : option entity.Address.t :=
  find (contact_address contactId id) (addresses st).

(** Modelled from the spec: section 3, the user identifier is unique;
    the lookup by identifier of the missing repository. *)
Definition find_user (st : Store) (id : string) : option entity.User.t :=
  find (fun u => String.eqb (entity.User.ID u) id) (users st).

(** Modelled from the spec: "applies only the fields supplied". *)
Definition supplied (new old : string) : string :=
  match new with
  | EmptyString => old
  | _ => new
  end.

(** Modelled from the spec: section 4.4, the removal of a contact, done
    by stamping the deletion time (the repository is not in the sources). *)
Definition delete_contact (at_ : Z) (userId id : string) (c : entity.Contact.t)
  : entity.Contact.t :=
  if owned_contact userId id c
  then entity.Contact.mk
         (entity.Contact.ID c) (entity.Contact.FirstName c)
         (entity.Contact.LastName c) (entity.Contact.Email c)
         (entity.Contact.Phone c) (entity.Contact.UserId c)
         (entity.Contact.CreatedAt c) (entity.Contact.UpdatedAt c) (Some at_)
  else c.

(** Modelled from the spec: section 4.4, the removal of the addresses
    that satisfy [p], done by stamping the deletion time. *)
Definition delete_address_if (p : entity.Address.t -> bool) (at_ : Z)
    (a : entity.Address.t) : entity.Address.t :=
  if p a && live (entity.Address.DeletedAt a)
  then entity.Address.mk
         (entity.Address.ID a) (entity.Address.ContactId a)
         (entity.Address.Street a) (entity.Address.City a)
         (entity.Address.Province a) (entity.Address.PostalCode a)
         (entity.Address.Country a) (entity.Address.CreatedAt a)
         (entity.Address.UpdatedAt a) (Some at_)
  else a.

(** Modelled from the spec: section 3, the session token and the refresh
    token of a user, written together with the modification stamp. *)
Definition set_tokens (token refresh : string) (stamp : Z) (u : entity.User.t)
  : entity.User.t :=
  entity.User.mk (entity.User.ID u) (entity.User.Password u)
    (entity.User.Name u) token refresh
    (entity.User.CreatedAt u) stamp.

Section UseCases.

(** Modelled from the spec: identifiers and tokens are generated by
    the system; the generator is told the values already in use. *)
Variable new_id : list string -> string.

(** Modelled from the spec: the draw of the UUID of a new contact or
    address; it may depend on the identifiers in use, and nothing is
    asked of it. *)
Variable uuid_New : list string -> uuid.UUID.

(** Modelled from the spec: the field rules of the validation
    library, the password hash and the search filters (name, email
    and phone substrings) are taken as given. *)
Variable valid_contact : model.CreateContactRequest.t -> bool.
Variable valid_address : model.CreateAddressRequest.t -> bool.
Variable valid_user : model.RegisterUserRequest.t -> bool.
Variable hash : string -> string.
Variable matches_filters :
  model.SearchContactRequest.t -> entity.Contact.t -> bool.

(** *** Contacts *)

(** Modelled from the spec: sections 4.4 and 5, the store refuses a
    row whose identifier is taken ("the database enforces uniqueness
    ... constraints, and the application surfaces resulting constraint
    violations as user-facing errors"). *)
Definition taken (id : string) (ids : list string) : bool :=
  existsb (String.eqb id) ids.

(** Modelled from the spec: section 4.4, Create of the missing contact
    use case: validate, persist under a new UUID, answer with the
    created resource; [Conflict] when the store refuses the row. *)
Definition Contact_Create (request : model.CreateContactRequest.t)
    (st : Store) : result model.ContactResponse.t * Store :=
  if valid_contact request then
    let ids := map entity.Contact.ID (contacts st) in
    let contact :=
      {| entity.Contact.ID := uuid.String (uuid_New ids);
         entity.Contact.FirstName := model.CreateContactRequest.FirstName request;
         entity.Contact.LastName := model.CreateContactRequest.LastName request;
         entity.Contact.Email := model.CreateContactRequest.Email request;
         entity.Contact.Phone := model.CreateContactRequest.Phone request;
         entity.Contact.UserId := model.CreateContactRequest.UserId request;
         entity.Contact.CreatedAt := now st;
         entity.Contact.UpdatedAt := now st;
         entity.Contact.DeletedAt := None |} in
    if taken (entity.Contact.ID contact) ids
    then (Err fiber.ErrConflict, st)
    else
      (Ok (converter.ContactToResponse contact),
       mkStore (users st) (contacts st ++ [contact]) (addresses st) (now st))
  else (Err fiber.ErrBadRequest, st).

(** Modelled from the spec: section 4.4, Get of the missing contact use
    case: NotFound unless the contact is there for the user. *)
Definition Contact_Get (request : model.GetContactRequest.t) (st : Store)
  : result model.ContactResponse.t * Store :=
  match find_contact st (model.GetContactRequest.UserId request)
                        (model.GetContactRequest.ID request) with
  | Some contact => (Ok (converter.ContactToResponse contact), st)
  | None => (Err fiber.ErrNotFound, st)
  end.

(** Modelled from the spec: section 4.4, Update replaces the supplied
    fields and the modification stamp. *)
Definition update_contact (request : model.UpdateContactRequest.t) (stamp : Z)
    (c : entity.Contact.t) : entity.Contact.t :=
  if owned_contact (model.UpdateContactRequest.UserId request)
                   (model.UpdateContactRequest.ID request) c
  then {| entity.Contact.ID := entity.Contact.ID c;
          entity.Contact.FirstName :=
            supplied (model.UpdateContactRequest.FirstName request)
                     (entity.Contact.FirstName c);
          entity.Contact.LastName :=
            supplied (model.UpdateContactRequest.LastName request)
                     (entity.Contact.LastName c);
          entity.Contact.Email :=
            supplied (model.UpdateContactRequest.Email request)
                     (entity.Contact.Email c);
          entity.Contact.Phone :=
            supplied (model.UpdateContactRequest.Phone request)
                     (entity.Contact.Phone c);
          entity.Contact.UserId := entity.Contact.UserId c;
          entity.Contact.CreatedAt := entity.Contact.CreatedAt c;
          entity.Contact.UpdatedAt := stamp;
          entity.Contact.DeletedAt := entity.Contact.DeletedAt c |}
  else c.

(** Modelled from the spec: section 4.4, Update of the missing contact
    use case: ownership first, then the supplied fields. *)
Definition Contact_Update (request : model.UpdateContactRequest.t)
    (st : Store) : result model.ContactResponse.t * Store :=
  match find_contact st (model.UpdateContactRequest.UserId request)
                        (model.UpdateContactRequest.ID request) with
  | Some contact =>
      (Ok (converter.ContactToResponse
             (update_contact request (now st) contact)),
       mkStore (users st)
               (map (update_contact request (now st)) (contacts st))
               (addresses st) (now st))
  | None => (Err fiber.ErrNotFound, st)
  end.

(** Modelled from the spec: section 4.4, Delete of the missing contact
    use case: ownership check, then removal, which cascades to the
    addresses of the contact. *)
Definition Contact_Delete (request : model.DeleteContactRequest.t)
    (st : Store) : option fiber.Error.t * Store :=
  let userId := model.DeleteContactRequest.UserId request in
  let id := model.DeleteContactRequest.ID request in
  match find_contact st userId id with
  | Some _ =>
      (None,
       mkStore (users st)
               (map (delete_contact (now st) userId id) (contacts st))
               (map (delete_address_if
                       (fun a => String.eqb (entity.Address.ContactId a) id)
                       (now st))
                    (addresses st))
               (now st))
  | None => (Some fiber.ErrNotFound, st)
  end.

(** Modelled from the spec: section 4.3, the contacts of the user that
    pass the filters, in creation order. *)
Definition matching (request : model.SearchContactRequest.t) (st : Store)
  : list entity.Contact.t :=
  filter (fun c =>
            String.eqb (entity.Contact.UserId c)
                       (model.SearchContactRequest.UserId request)
            && live (entity.Contact.DeletedAt c)
            && matches_filters request c)
         (contacts st).

(** Modelled from the spec: section 4.3, the items of a page: [size] of
    them after the [(page - 1) * size] first. *)
Definition page_of {A} (page size : Z) (l : list A) : list A :=
  firstn (Z.to_nat size) (skipn (Z.to_nat ((page - 1) * size)) l).

(** Modelled from the spec: section 4.3, "size <= 0 is treated as the
    default" and "total page count is computed as ceil(total / size)":
    the search goes on with the default in the place of such a size, so
    the request it was handed carries the size that was used, and the
    caller, which reads the size from that request, counts the pages
    with it. *)
Definition treated (request : model.SearchContactRequest.t)
  : model.SearchContactRequest.t :=
  {| model.SearchContactRequest.UserId :=
       model.SearchContactRequest.UserId request;
     model.SearchContactRequest.Name := model.SearchContactRequest.Name request;
     model.SearchContactRequest.Email :=
       model.SearchContactRequest.Email request;
     model.SearchContactRequest.Phone :=
       model.SearchContactRequest.Phone request;
     model.SearchContactRequest.Page := model.SearchContactRequest.Page request;
     model.SearchContactRequest.Size :=
       effective_size (model.SearchContactRequest.Size request) |}.

(** Modelled from the spec: section 4.3, Search of the missing contact
    use case: the page and the count of all matches. *)
Definition Contact_Search (request : model.SearchContactRequest.t)
    (st : Store)
  : (model.SearchContactRequest.t *
     result (list model.ContactResponse.t * Z)) * Store :=
  let found := matching request st in
  let size := effective_size (model.SearchContactRequest.Size request) in
  let items := page_of (model.SearchContactRequest.Page request) size found in
  ((treated request,
    Ok (map converter.ContactToResponse items, Z.of_nat (List.length found))),
   st).

(** Modelled from the spec: the contact use case, assembled. *)
Definition ContactUseCase : usecase.ContactUseCase.t Store :=
  usecase.ContactUseCase.mk Store
    Contact_Create Contact_Search Contact_Get Contact_Update Contact_Delete.

(** *** Addresses *)

(** Modelled from the spec: section 4.4, Create of the missing address
    use case, under a contact of the user and a new UUID; [Conflict]
    when the store refuses the row. *)
Definition Address_Create (request : model.CreateAddressRequest.t)
    (st : Store) : result model.AddressResponse.t * Store :=
  match find_contact st (model.CreateAddressRequest.UserId request)
                        (model.CreateAddressRequest.ContactId request) with
  | None => (Err fiber.ErrNotFound, st)
  | Some contact =>
      if valid_address request then
        let ids := map entity.Address.ID (addresses st) in
        let address :=
          {| entity.Address.ID := uuid.String (uuid_New ids);
             entity.Address.ContactId := entity.Contact.ID contact;
             entity.Address.Street := model.CreateAddressRequest.Street request;
             entity.Address.City := model.CreateAddressRequest.City request;
             entity.Address.Province := model.CreateAddressRequest.Province request;
             entity.Address.PostalCode := model.CreateAddressRequest.PostalCode request;
             entity.Address.Country := model.CreateAddressRequest.Country request;
             entity.Address.CreatedAt := now st;
             entity.Address.UpdatedAt := now st;
             entity.Address.DeletedAt := None |} in
        if taken (entity.Address.ID address) ids
        then (Err fiber.ErrConflict, st)
        else
          (Ok (converter.AddressToResponse address),
           mkStore (users st) (contacts st) (addresses st ++ [address])
                   (now st))
      else (Err fiber.ErrBadRequest, st)
  end.

(** Modelled from the spec: section 4.4, List of the missing address use
    case: the addresses of a contact of the user. *)
Definition Address_List (request : model.ListAddressRequest.t) (st : Store)
  : result (list model.AddressResponse.t) * Store :=
  match find_contact st (model.ListAddressRequest.UserId request)
                        (model.ListAddressRequest.ContactId request) with
  | None => (Err fiber.ErrNotFound, st)
  | Some contact =>
      (Ok (map converter.AddressToResponse
             (filter (fun a =>
                        String.eqb (entity.Address.ContactId a)
                                   (entity.Contact.ID contact)
                        && live (entity.Address.DeletedAt a))
                     (addresses st))),
       st)
  end.

(** Modelled from the spec: section 4.4, Get of the missing address use
    case: NotFound unless contact and address are there for the user. *)
Definition Address_Get (request : model.GetAddressRequest.t) (st : Store)
  : result model.AddressResponse.t * Store :=
  match find_contact st (model.GetAddressRequest.UserId request)
                        (model.GetAddressRequest.ContactId request) with
  | None => (Err fiber.ErrNotFound, st)
  | Some contact =>
      match find_address st (entity.Contact.ID contact)
                            (model.GetAddressRequest.ID request) with
      | Some address => (Ok (converter.AddressToResponse address), st)
      | None => (Err fiber.ErrNotFound, st)
      end
  end.

(** Modelled from the spec: section 4.4, Update replaces the supplied
    fields and the modification stamp. *)
Definition update_address (request : model.UpdateAddressRequest.t) (stamp : Z)
    (a : entity.Address.t) : entity.Address.t :=
  if contact_address (model.UpdateAddressRequest.ContactId request)
                     (model.UpdateAddressRequest.ID request) a
  then {| entity.Address.ID := entity.Address.ID a;
          entity.Address.ContactId := entity.Address.ContactId a;
          entity.Address.Street :=
            supplied (model.UpdateAddressRequest.Street request)
                     (entity.Address.Street a);
          entity.Address.City :=
            supplied (model.UpdateAddressRequest.City request)
                     (entity.Address.City a);
          entity.Address.Province :=
            supplied (model.UpdateAddressRequest.Province request)
                     (entity.Address.Province a);
          entity.Address.PostalCode :=
            supplied (model.UpdateAddressRequest.PostalCode request)
                     (entity.Address.PostalCode a);
          entity.Address.Country :=
            supplied (model.UpdateAddressRequest.Country request)
                     (entity.Address.Country a);
          entity.Address.CreatedAt := entity.Address.CreatedAt a;
          entity.Address.UpdatedAt := stamp;
          entity.Address.DeletedAt := entity.Address.DeletedAt a |}
  else a.

(** Modelled from the spec: section 4.4, Update of the missing address
    use case: ownership first, then the supplied fields. *)
Definition Address_Update (request : model.UpdateAddressRequest.t)
    (st : Store) : result model.AddressResponse.t * Store :=
  match find_contact st (model.UpdateAddressRequest.UserId request)
                        (model.UpdateAddressRequest.ContactId request) with
  | None => (Err fiber.ErrNotFound, st)
  | Some _ =>
      match find_address st (model.UpdateAddressRequest.ContactId request)
                            (model.UpdateAddressRequest.ID request) with
      | Some address =>
          (Ok (converter.AddressToResponse
                 (update_address request (now st) address)),
           mkStore (users st) (contacts st)
                   (map (update_address request (now st)) (addresses st))
                   (now st))
      | None => (Err fiber.ErrNotFound, st)
      end
  end.

(** Modelled from the spec: section 4.4, Delete of the missing address
    use case: ownership check, then removal. *)
Definition Address_Delete (request : model.DeleteAddressRequest.t)
    (st : Store) : option fiber.Error.t * Store :=
  let contactId := model.DeleteAddressRequest.ContactId request in
  let id := model.DeleteAddressRequest.ID request in
  match find_contact st (model.DeleteAddressRequest.UserId request) contactId with
  | None => (Some fiber.ErrNotFound, st)
  | Some _ =>
      match find_address st contactId id with
      | Some _ =>
          (None,
           mkStore (users st) (contacts st)
                   (map (delete_address_if (contact_address contactId id)
                                           (now st))
                        (addresses st))
                   (now st))
      | None => (Some fiber.ErrNotFound, st)
      end
  end.

(** Modelled from the spec: the address use case, assembled. *)
Definition AddressUseCase : usecase.AddressUseCase.t Store :=
  usecase.AddressUseCase.mk Store
    Address_Create Address_List Address_Get Address_Update Address_Delete.

(** *** Users and the token authenticator *)

(** Modelled from the spec: section 3, the write of one user record of
    the missing repository. *)
Definition replace_user (id : string) (f : entity.User.t -> entity.User.t)
    (st : Store) : Store :=
  mkStore
    (map (fun u => if String.eqb (entity.User.ID u) id then f u else u)
         (users st))
    (contacts st) (addresses st) (now st).

(** Modelled from the spec: section 3, the tokens the store holds. *)
Definition tokens_in_use (st : Store) : list string :=
  map entity.User.Token (users st) ++ map entity.User.RefreshToken (users st).

(** Modelled from the spec: section 4.4, Register of the missing user use
    case: Conflict when the identifier is taken, the password hashed. *)
Definition User_Create (request : model.RegisterUserRequest.t) (st : Store)
  : result model.UserResponse.t * Store :=
  if valid_user request then
    match find_user st (model.RegisterUserRequest.ID request) with
    | Some _ => (Err fiber.ErrConflict, st)
    | None =>
        let user :=
          {| entity.User.ID := model.RegisterUserRequest.ID request;
             entity.User.Password := hash (model.RegisterUserRequest.Password request);
             entity.User.Name := model.RegisterUserRequest.Name request;
             entity.User.Token := EmptyString;
             entity.User.RefreshToken := EmptyString;
             entity.User.CreatedAt := now st;
             entity.User.UpdatedAt := now st |} in
        (Ok (converter.UserToResponse user),
         mkStore (users st ++ [user]) (contacts st) (addresses st) (now st))
    end
  else (Err fiber.ErrBadRequest, st).

(** Modelled from the spec: section 4.4, Login of the missing user use
    case: verify the password, issue the token pair. *)
Definition User_Login (request : model.LoginUserRequest.t) (st : Store)
  : result model.UserResponse.t * Store :=
  match find_user st (model.LoginUserRequest.ID request) with
  | None => (Err fiber.ErrUnauthorized, st)
  | Some user =>
      if String.eqb (entity.User.Password user)
                    (hash (model.LoginUserRequest.Password request))
      then
        let token := new_id (tokens_in_use st) in
        let refresh := new_id (token :: tokens_in_use st) in
        let user := set_tokens token refresh (now st) user in
        (Ok (converter.UserToTokenResponse user),
         replace_user (entity.User.ID user)
                      (set_tokens token refresh (now st)) st)
      else (Err fiber.ErrUnauthorized, st)
  end.

(** Modelled from the spec: section 4.4, Current of the missing user use
    case: the profile of the user. *)
Definition User_Current (request : model.GetUserRequest.t) (st : Store)
  : result model.UserResponse.t * Store :=
  match find_user st (model.GetUserRequest.ID request) with
  | Some user => (Ok (converter.UserToResponse user), st)
  | None => (Err fiber.ErrNotFound, st)
  end.

(** Modelled from the spec: section 4.4, "Logout (clear token)". *)
Definition clear_token (stamp : Z) (u : entity.User.t) : entity.User.t :=
  set_tokens EmptyString (entity.User.RefreshToken u) stamp u.

(** Modelled from the spec: section 4.4, Logout of the missing user use
    case. *)
Definition User_Logout (request : model.LogoutUserRequest.t) (st : Store)
  : result bool * Store :=
  match find_user st (model.LogoutUserRequest.ID request) with
  | Some _ =>
      (Ok true,
       replace_user (model.LogoutUserRequest.ID request)
                    (clear_token (now st)) st)
  | None => (Err fiber.ErrNotFound, st)
  end.

(** Modelled from the spec: section 4.4, "Update (change name/password)". *)
Definition update_user (request : model.UpdateUserRequest.t) (stamp : Z)
    (u : entity.User.t) : entity.User.t :=
  {| entity.User.ID := entity.User.ID u;
     entity.User.Password :=
       match model.UpdateUserRequest.Password request with
       | EmptyString => entity.User.Password u
       | p => hash p
       end;
     entity.User.Name :=
       supplied (model.UpdateUserRequest.Name request) (entity.User.Name u);
     entity.User.Token := entity.User.Token u;
     entity.User.RefreshToken := entity.User.RefreshToken u;
     entity.User.CreatedAt := entity.User.CreatedAt u;
     entity.User.UpdatedAt := stamp |}.

(** Modelled from the spec: section 4.4, Update of the missing user use
    case. *)
Definition User_Update (request : model.UpdateUserRequest.t) (st : Store)
  : result model.UserResponse.t * Store :=
  match find_user st (model.UpdateUserRequest.ID request) with
  | Some user =>
      (Ok (converter.UserToResponse (update_user request (now st) user)),
       replace_user (model.UpdateUserRequest.ID request)
                    (update_user request (now st)) st)
  | None => (Err fiber.ErrNotFound, st)
  end.

(** Modelled from the spec: section 4.1, refresh of the missing user use
    case: a matching refresh token buys a new session token, which
    replaces the old one. *)
Definition User_RefreshToken (request : model.RefreshTokenRequest.t)
    (st : Store) : result model.UserResponse.t * Store :=
  let refresh := model.RefreshTokenRequest.RefreshToken request in
  match refresh with
  | EmptyString => (Err fiber.ErrUnauthorized, st)
  | _ =>
      match find (fun u => String.eqb (entity.User.RefreshToken u) refresh)
                 (users st) with
      | None => (Err fiber.ErrUnauthorized, st)
      | Some user =>
          let token := new_id (tokens_in_use st) in
          let user' := set_tokens token refresh (now st) user in
          (Ok (converter.UserToTokenResponse user'),
           replace_user (entity.User.ID user)
                        (set_tokens token refresh (now st)) st)
      end
  end.

(** Modelled from the spec: section 4.1, the token authenticator of the
    missing user use case: the user whose stored token is exactly the
    one presented; an empty token matches nobody; the store is only
    read. *)
Definition User_Verify (request : model.VerifyUserRequest.t) (st : Store)
  : result model.Auth.t * Store :=
  let token := model.VerifyUserRequest.Token request in
  match token with
  | EmptyString => (Err fiber.ErrUnauthorized, st)
  | _ =>
      match find (fun u => String.eqb (entity.User.Token u) token)
                 (users st) with
      | Some user => (Ok (model.Auth.mk (entity.User.ID user)), st)
      | None => (Err fiber.ErrUnauthorized, st)
      end
  end.

(** Modelled from the spec: the user use case, assembled. *)
Definition UserUseCase : usecase.UserUseCase.t Store :=
  usecase.UserUseCase.mk Store
    User_Create User_Login User_Current User_Logout User_Update
    User_RefreshToken User_Verify.

End UseCases.

End service.

(** ** Package [middleware] : the auth gate before the protected routes *)

Module middleware.

Import effect.
Local Open Scope handler_scope.

Section AuthGate.

Variable DB : Type.
Variable userUseCase : usecase.UserUseCase.t DB.

(** Modelled from the spec: the middleware file is not part of the
    sources at hand.  Section 4.2: the token is read from the
    [Authorization] header, the authenticator is asked, and either
    the user is attached to the context and the controller runs, or
    the request is answered with 401 at once. *)
Definition NewAuth {B T} (next : fiber.Ctx.t B -> M DB (http.Response T))
    (ctx : fiber.Ctx.t B) : M DB (http.Response T) :=
  let request :=
    {| model.VerifyUserRequest.Token := fiber.Ctx.Headers ctx "Authorization" |} in
  r <- call (UserVerify request)
            (usecase.UserUseCase.Verify userUseCase request) ;;
  match r with
  | Err _ => ret (http.Fail fiber.ErrUnauthorized)
  | Ok auth =>
      next (fiber.Ctx.mk (Some auth) (fiber.Ctx.Body ctx)
              (fiber.Ctx.RouteParams ctx) (fiber.Ctx.QueryArgs ctx)
              (fiber.Ctx.Headers ctx))
  end.

End AuthGate.

End middleware.

(** ** The vocabulary of the statements *)

Module prop.

Import effect http service.

(** The exact integer ceiling of [total / size], for [size > 0]. *)
Definition ceil_div (total size : Z) : Z := (total + size - 1) / size.

(** A request turned away at the boundary: the answer is the error
    400, the store is as it was and no use case was called. *)
Definition rejected {DB T} (w : World DB) (out : Response T * World DB)
  : Prop :=
  fst out = Fail fiber.ErrBadRequest
  /\ status (fst out) = Some 400
  /\ db (snd out) = db w
  /\ calls (trace (snd out)) = calls (trace w).

(** The use-case call a handler adds to the trace. *)
Definition reaches {DB T} (w : World DB) (out : Response T * World DB)
    (c : Call) : Prop :=
  calls (trace (snd out)) = calls (trace w) ++ [c].

(** The answer of the auth gate when it turns a request away: 401, the
    store untouched, the authenticator the only thing called; the
    controller [next] has no part in it. *)
Definition turned_away {B T} (userUseCase : usecase.UserUseCase.t Store)
    (next : fiber.Ctx.t B -> M Store (Response T))
    (ctx : fiber.Ctx.t B) (st : Store) (tr : list Event) : Prop :=
  let token := fiber.Ctx.Headers ctx "Authorization"%string in
  middleware.NewAuth Store userUseCase next ctx (mkWorld st tr)
  = (Fail fiber.ErrUnauthorized,
     mkWorld st (tr ++ [Called (UserVerify (model.VerifyUserRequest.mk token))]))
  /\ status (fst (middleware.NewAuth Store userUseCase next ctx (mkWorld st tr)))
     = Some 401.

(** No contact with this identifier is there for this user: each one
    that carries the identifier belongs to someone else or is
    deleted. *)
Definition no_contact_for (st : Store) (userId id : string) : Prop :=
  forall c, In c (contacts st) -> entity.Contact.ID c = id ->
            entity.Contact.UserId c <> userId
            \/ entity.Contact.DeletedAt c <> None.

Definition no_address_for (st : Store) (contactId id : string) : Prop :=
  forall a, In a (addresses st) -> entity.Address.ID a = id ->
            entity.Address.ContactId a <> contactId
            \/ entity.Address.DeletedAt a <> None.

(** The request [ContactController.List] builds from the context. *)
Definition search_request {B} (auth : model.Auth.t) (ctx : fiber.Ctx.t B)
  : model.SearchContactRequest.t :=
  {| model.SearchContactRequest.UserId := model.Auth.ID auth;
     model.SearchContactRequest.Name := fiber.Query ctx "name" EmptyString;
     model.SearchContactRequest.Email := fiber.Query ctx "email" EmptyString;
     model.SearchContactRequest.Phone := fiber.Query ctx "phone" EmptyString;
     model.SearchContactRequest.Page := fiber.QueryInt ctx "page" 1;
     model.SearchContactRequest.Size := fiber.QueryInt ctx "size" 10 |}.

(** [rec] describes the rational [A / B]: its integral part, and
    where the rest lies with respect to one half. *)
Definition locates (A B : Z) (rec : shr_record) : Prop :=
  0 < B /\ 0 <= A
  /\ shr_m rec = A / B
  /\ shr_r rec = (B <=? 2 * (A mod B))
  /\ shr_s rec = (0 <? A mod B) && negb (2 * (A mod B) =? B).

Definition pow2 (e : Z) : Q := (2 ^ e)%Q.

(** The rational a mantissa and an exponent stand for. *)
Definition F2Q (m : positive) (e : Z) : Q := (inject_Z (Zpos m) * pow2 e)%Q.

(** A response that shows a contact: each of its fields is the field
    of the entity. *)
Definition shows_contact (r : model.ContactResponse.t) (c : entity.Contact.t)
  : Prop :=
  model.ContactResponse.ID r = entity.Contact.ID c
  /\ model.ContactResponse.FirstName r = entity.Contact.FirstName c
  /\ model.ContactResponse.LastName r = entity.Contact.LastName c
  /\ model.ContactResponse.Email r = entity.Contact.Email c
  /\ model.ContactResponse.Phone r = entity.Contact.Phone c
  /\ model.ContactResponse.CreatedAt r = entity.Contact.CreatedAt c
  /\ model.ContactResponse.UpdatedAt r = entity.Contact.UpdatedAt c.

(** The same for an address. *)
Definition shows_address (r : model.AddressResponse.t) (a : entity.Address.t)
  : Prop :=
  model.AddressResponse.ID r = entity.Address.ID a
  /\ model.AddressResponse.Street r = entity.Address.Street a
  /\ model.AddressResponse.City r = entity.Address.City a
  /\ model.AddressResponse.Province r = entity.Address.Province a
  /\ model.AddressResponse.PostalCode r = entity.Address.PostalCode a
  /\ model.AddressResponse.Country r = entity.Address.Country a
  /\ model.AddressResponse.CreatedAt r = entity.Address.CreatedAt a
  /\ model.AddressResponse.UpdatedAt r = entity.Address.UpdatedAt a.

(** The contact a Create request asks for, as it stands in the store:
    owned by the user, not deleted, with the fields of the body. *)
Definition stores_contact (userId : string)
    (body : model.CreateContactRequest.t) (c : entity.Contact.t) : Prop :=
  entity.Contact.UserId c = userId
  /\ entity.Contact.DeletedAt c = None
  /\ entity.Contact.FirstName c = model.CreateContactRequest.FirstName body
  /\ entity.Contact.LastName c = model.CreateContactRequest.LastName body
  /\ entity.Contact.Email c = model.CreateContactRequest.Email body
  /\ entity.Contact.Phone c = model.CreateContactRequest.Phone body.

(** The same for an address under the contact [contactId]. *)
Definition stores_address (contactId : string)
    (body : model.CreateAddressRequest.t) (a : entity.Address.t) : Prop :=
  entity.Address.ContactId a = contactId
  /\ entity.Address.DeletedAt a = None
  /\ entity.Address.Street a = model.CreateAddressRequest.Street body
  /\ entity.Address.City a = model.CreateAddressRequest.City body
  /\ entity.Address.Province a = model.CreateAddressRequest.Province body
  /\ entity.Address.PostalCode a = model.CreateAddressRequest.PostalCode body
  /\ entity.Address.Country a = model.CreateAddressRequest.Country body.

(** What a handler makes of the result of its use case: the value in
    the envelope, or the error as it came. *)
Definition relayed {T} (r : result T) : Response T :=
  match r with
  | Ok v => JSON (data v)
  | Err e => Fail e
  end.

(** The same for [Delete], which returns an error only. *)
Definition relayed_delete (e : option fiber.Error.t) : Response bool :=
  match e with
  | None => JSON (data true)
  | Some err => Fail err
  end.

(** The handler ran the use-case method [f], noted as [c], once: its
    answer is made of the result of [f], the store is the one [f] left
    and [c] is the one call added to the trace. *)
Definition relays {DB A T} (f : DB -> A * DB) (answer : A -> Response T)
    (c : Call) (w : World DB) (out : Response T * World DB) : Prop :=
  fst out = answer (fst (f (db w)))
  /\ db (snd out) = snd (f (db w))
  /\ calls (trace (snd out)) = calls (trace w) ++ [c].

(** The handler called no use case and left the store alone, or called
    exactly one. *)
Definition calls_at_most_once {DB T} (w : World DB)
    (out : Response T * World DB) : Prop :=
  (db (snd out) = db w /\ calls (trace (snd out)) = calls (trace w))
  \/ (exists c, calls (trace (snd out)) = calls (trace w) ++ [c]).

(** The answer of [ContactController.List] to what [Search] returned:
    the request as it stands after the call, and the page with the
    count or an error. *)
Definition listed (unrepresentable : float64.t -> Z)
    (a : model.SearchContactRequest.t
         * result (list model.ContactResponse.t * Z))
  : Response (list model.ContactResponse.t) :=
  match snd a with
  | Err e => Fail e
  | Ok (responses, total) =>
      JSON (model.WebResponse.mk responses
              (Some (model.PageMetadata.mk
                       (model.SearchContactRequest.Page (fst a))
                       (model.SearchContactRequest.Size (fst a))
                       total
                       (TotalPage unrepresentable total
                          (model.SearchContactRequest.Size (fst a)))))
              EmptyString)
  end.

End prop.

(** ** A concrete store *)

Module demo.

Import effect http service.

(** An identifier generator: longer than everything in use. *)
Definition longer_id (used : list string) : string :=
  String "n" (String.concat EmptyString used).

Definition accept_all {A} (_ : A) : bool := true.
Definition no_filter (_ : model.SearchContactRequest.t) (_ : entity.Contact.t)
  : bool := true.
Definition plain (password : string) : string := password.

(** A UUID generator that counts the identifiers in use. *)
Definition counting (used : list string) : uuid.UUID :=
  Z.of_nat (List.length used).

(** The answer of an amd64 machine to an [int64] conversion that does
    not fit. *)
Definition amd64 (_ : float64.t) : Z := float64.min_int64.

Definition alice : entity.User.t :=
  entity.User.mk "alice" "secret" "Alice" "token-alice" "refresh-alice" 1 1.

Definition contact_of (owner : string) (i : nat) : entity.Contact.t :=
  entity.Contact.mk (String (ascii_of_nat (65 + i)) EmptyString)
    "First" "Last" "mail@example.com" "555" owner 1 1 None.

(** Alice and her 25 contacts. *)
Definition store : Store :=
  mkStore [alice] (map (contact_of "alice") (seq 0 25)) [] 2.

Definition no_params (_ : string) : string := EmptyString.

Definition header (token : string) (key : string) : string :=
  if String.eqb key "Authorization" then token else EmptyString.

Definition query (page size : string) (key : string) : string :=
  if String.eqb key "page" then page
  else if String.eqb key "size" then size
  else EmptyString.

Definition param (contactId : string) (key : string) : string :=
  if String.eqb key "contactId" then contactId else EmptyString.

Definition route (contactId addressId : string) (key : string) : string :=
  if String.eqb key "contactId" then contactId
  else if String.eqb key "addressId" then addressId
  else EmptyString.

Definition as_alice : model.Auth.t := model.Auth.mk "alice".

Definition Contacts := ContactUseCase counting accept_all no_filter.
Definition Addresses := AddressUseCase counting accept_all.
Definition Users := UserUseCase longer_id accept_all plain.

(** A search that reports [2 ^ 53 + 1] matches and an empty page. *)
Definition huge_count : usecase.ContactUseCase.t unit :=
  usecase.ContactUseCase.mk unit
    (fun _ d => (effect.Err fiber.ErrInternalServerError, d))
    (fun request d => ((request, effect.Ok ([], 2 ^ 53 + 1)), d))
    (fun _ d => (effect.Err fiber.ErrNotFound, d))
    (fun _ d => (effect.Err fiber.ErrNotFound, d))
    (fun _ d => (Some fiber.ErrNotFound, d)).

End demo.

(** * Properties *)

Import prop.


(** ** Converters *)

(** C9: the profile response of a user is built from [ID], [Name],
    [CreatedAt] and [UpdatedAt] alone, whatever the password, the token
    and the refresh token are, and carries no token; the token response
    is built from [Token] and [RefreshToken] alone, whatever the other
    fields are. *)
Theorem user_converters_noninterference :
  (forall id name created updated password token refresh
          password' token' refresh',
      converter.UserToResponse
        (entity.User.mk id password name token refresh created updated)
      = converter.UserToResponse
          (entity.User.mk id password' name token' refresh' created updated))
  /\ (forall user,
         model.UserResponse.Token (converter.UserToResponse user) = EmptyString
         /\ model.UserResponse.RefreshToken (converter.UserToResponse user)
            = EmptyString)
  /\ (forall token refresh id password name created updated
             id' password' name' created' updated',
         converter.UserToTokenResponse
           (entity.User.mk id password name token refresh created updated)
         = converter.UserToTokenResponse
             (entity.User.mk id' password' name' token refresh created' updated')).
Proof.
  repeat split.
Qed.

(** ** [toSnakeCase] *)

Section SnakeCaseFacts.

Import config.

Variable table : rune -> rune.

(** What the proof needs of the case tables of the Go library: beyond
    ASCII a lower-cased rune is never one of [A]..[Z], and lower-casing
    it again changes nothing. *)
Hypothesis table_not_upper :
  forall r, 127 < r -> isUpperASCII (table r) = false.
Hypothesis table_stable :
  forall r, 127 < r -> 127 < table r -> table (table r) = table r.

Lemma ToLower_not_upper r : isUpperASCII (unicode_ToLower table r) = false.
Proof.
  unfold unicode_ToLower.
  destruct (r <=? 127) eqn:Hr.
  - destruct (isUpperASCII r) eqn:Hu; [|exact Hu].
    unfold isUpperASCII in *. lia.
  - apply table_not_upper. lia.
Qed.

Lemma ToLower_fixed r :
  isUpperASCII r = false ->
  (127 < r -> table r = r) ->
  unicode_ToLower table r = r.
Proof.
  intros Hu Ht. unfold unicode_ToLower.
  rewrite Hu. destruct (r <=? 127) eqn:Hr; [reflexivity|].
  apply Ht. lia.
Qed.

Lemma ToLower_idempotent r :
  unicode_ToLower table (unicode_ToLower table r) = unicode_ToLower table r.
Proof.
  apply ToLower_fixed; [apply ToLower_not_upper|].
  unfold unicode_ToLower.
  destruct (r <=? 127) eqn:Hr.
  - destruct (isUpperASCII r) eqn:Hu; unfold isUpperASCII in *; lia.
  - intros Hl. apply table_stable; lia.
Qed.

Lemma snake_loop_acc i s acc :
  snake_loop i s acc = acc ++ snake_loop i s [].
Proof.
  revert i acc. induction s as [|v rest IH]; intros i acc; simpl.
  - now rewrite app_nil_r.
  - rewrite IH. symmetry. rewrite IH. symmetry.
    destruct ((0 <? i)%nat && isUpperASCII v); simpl;
      now rewrite <- ?app_assoc.
Qed.

Lemma snake_loop_plain i s :
  Forall (fun v => isUpperASCII v = false) s ->
  snake_loop i s [] = s.
Proof.
  intros H. revert i. induction H as [|v rest Hv _ IH]; intros i; simpl.
  - reflexivity.
  - rewrite Hv, andb_false_r. simpl.
    rewrite snake_loop_acc, IH. reflexivity.
Qed.

Lemma strings_ToLower_plain s :
  Forall (fun v => isUpperASCII v = false) (strings_ToLower table s).
Proof.
  unfold strings_ToLower. apply Forall_forall. intros v Hv.
  apply in_map_iff in Hv. destruct Hv as [r [<- _]].
  apply ToLower_not_upper.
Qed.

(** C10: converting to snake case twice is the same as converting
    once, since the first result holds none of the letters [A]..[Z]. *)
Theorem toSnakeCase_idempotent (s : list rune) :
  toSnakeCase table (toSnakeCase table s) = toSnakeCase table s
  /\ Forall (fun v => isUpperASCII v = false) (toSnakeCase table s).
Proof.
  split; [|apply strings_ToLower_plain].
  unfold toSnakeCase at 1.
  rewrite snake_loop_plain by apply strings_ToLower_plain.
  unfold toSnakeCase, strings_ToLower. rewrite map_map.
  apply map_ext. intros r. apply ToLower_idempotent.
Qed.

End SnakeCaseFacts.

(** The runes of [FirstName] with a lower-casing that leaves every rune
    beyond ASCII alone. *)
Lemma toSnakeCase_idempotent_witness :
  let s := [70; 105; 114; 115; 116; 78; 97; 109; 101] in
  config.toSnakeCase (fun r => r) (config.toSnakeCase (fun r => r) s)
  = config.toSnakeCase (fun r => r) s
  /\ Forall (fun v => config.isUpperASCII v = false)
            (config.toSnakeCase (fun r => r) s).
Proof.
  apply (toSnakeCase_idempotent (fun r => r)).
  - intros r Hr. unfold config.isUpperASCII. lia.
  - intros r _ _. reflexivity.
Defined.

Example toSnakeCase_FirstName :
  config.toSnakeCase (fun r => r) [70; 105; 114; 115; 116; 78; 97; 109; 101]
  = [102; 105; 114; 115; 116; 95; 110; 97; 109; 101].
Proof. reflexivity. Qed.

(** ** The controllers, whatever the use cases are *)

Section ControllerFacts.

Import effect http.

Variable DB : Type.
Variable contactUseCase : usecase.ContactUseCase.t DB.
Variable addressUseCase : usecase.AddressUseCase.t DB.
Variable userUseCase : usecase.UserUseCase.t DB.
Variable unrepresentable : float64.t -> Z.

Lemma calls_app (tr1 tr2 : list Event) :
  calls (tr1 ++ tr2) = calls tr1 ++ calls tr2.
Proof.
  induction tr1 as [|[lvl msg|c] tr1 IH]; simpl; [reflexivity|exact IH|].
  now rewrite IH.
Qed.

Lemma calls_logged (tr : list Event) lvl msg :
  calls (tr ++ [Logged lvl msg]) = calls tr.
Proof. rewrite calls_app. simpl. apply app_nil_r. Qed.

Lemma calls_called (tr : list Event) c :
  calls (tr ++ [Called c]) = calls tr ++ [c].
Proof. rewrite calls_app. reflexivity. Qed.

Ltac run_handler :=
  cbv beta iota delta
    [ContactController_Create ContactController_List ContactController_Get
     ContactController_Update ContactController_Delete
     AddressController_Create AddressController_List AddressController_Get
     AddressController_Update AddressController_Delete
     UserController_Register UserController_Login UserController_Current
     UserController_Logout UserController_Update UserController_RefreshToken
     GetUser fiber.BodyParser fiber.Params bind ret call emit
     Log_Error Log_Warnf data];
  cbn [fiber.Ctx.Locals_auth fiber.Ctx.Body fiber.Ctx.RouteParams
       fiber.Ctx.QueryArgs fiber.Ctx.Headers db trace fst snd].

Ltac reject :=
  run_handler; unfold rejected; cbn [fst snd db trace status];
  repeat split; apply calls_logged.

(** C5: a body that does not parse is answered with 400 Bad Request
    before any use case is reached, in the eight handlers that read a
    body.  The handlers of protected routes are taken behind the
    auth gate, that is with the authenticated user in the context. *)
Theorem unparsed_body_is_rejected (w : World DB) :
  (forall auth rp qa hd,
      rejected w (ContactController_Create DB contactUseCase
                    (fiber.Ctx.mk (Some auth) None rp qa hd) w))
  /\ (forall auth rp qa hd,
         rejected w (ContactController_Update DB contactUseCase
                       (fiber.Ctx.mk (Some auth) None rp qa hd) w))
  /\ (forall auth rp qa hd,
         rejected w (AddressController_Create DB addressUseCase
                       (fiber.Ctx.mk (Some auth) None rp qa hd) w))
  /\ (forall auth rp qa hd,
         rejected w (AddressController_Update DB addressUseCase
                       (fiber.Ctx.mk (Some auth) None rp qa hd) w))
  /\ (forall auth rp qa hd,
         rejected w (UserController_Register DB userUseCase
                       (fiber.Ctx.mk auth None rp qa hd) w))
  /\ (forall auth rp qa hd,
         rejected w (UserController_Login DB userUseCase
                       (fiber.Ctx.mk auth None rp qa hd) w))
  /\ (forall auth rp qa hd,
         rejected w (UserController_Update DB userUseCase
                       (fiber.Ctx.mk (Some auth) None rp qa hd) w))
  /\ (forall auth rp qa hd,
         rejected w (UserController_RefreshToken DB userUseCase
                       (fiber.Ctx.mk auth None rp qa hd) w)).
Proof.
  repeat match goal with |- _ /\ _ => split end; intros; reject.
Qed.

Ltac reach :=
  run_handler; unfold reaches;
  repeat match goal with
         | |- context [let (_, _) := ?f ?r (db ?w) in _] =>
             destruct (f r (db w)) as [? ?]
         | |- context [match ?x with Ok _ => _ | Err _ => _ end] => destruct x
         | |- context [match ?x with Some _ => _ | None => _ end] => destruct x
         | |- context [let (_, _) := ?x in _] => destruct x
         end;
  cbn [fst snd db trace];
  rewrite ?calls_logged, ?calls_called; reflexivity.

(** C8: behind the auth gate the owner a contact or address use case is
    told is the authenticated user: the [UserId] a body may carry
    ([uid] below) does not reach the call, in which that field is the
    [ID] of the user in the context; two requests of the same user
    whose bodies differ in [UserId] alone run alike. *)
Theorem use_case_owner_is_authenticated_user
    (w : World DB) (auth : model.Auth.t)
    (rp qa hd : string -> string) :
  (forall uid first last email phone,
      reaches w
        (ContactController_Create DB contactUseCase
           (fiber.Ctx.mk (Some auth)
              (Some (model.CreateContactRequest.mk uid first last email phone))
              rp qa hd) w)
        (ContactCreate
           (model.CreateContactRequest.mk (model.Auth.ID auth)
              first last email phone)))
  /\ (forall uid id first last email phone,
         reaches w
           (ContactController_Update DB contactUseCase
              (fiber.Ctx.mk (Some auth)
                 (Some (model.UpdateContactRequest.mk uid id first last email phone))
                 rp qa hd) w)
           (ContactUpdate
              (model.UpdateContactRequest.mk (model.Auth.ID auth)
                 (rp "contactId"%string) first last email phone)))
  /\ (forall uid cid street city province postal country,
         reaches w
           (AddressController_Create DB addressUseCase
              (fiber.Ctx.mk (Some auth)
                 (Some (model.CreateAddressRequest.mk uid cid street city
                          province postal country))
                 rp qa hd) w)
           (AddressCreate
              (model.CreateAddressRequest.mk (model.Auth.ID auth)
                 (rp "contactId"%string) street city province postal country)))
  /\ (forall uid cid id street city province postal country,
         reaches w
           (AddressController_Update DB addressUseCase
              (fiber.Ctx.mk (Some auth)
                 (Some (model.UpdateAddressRequest.mk uid cid id street city
                          province postal country))
                 rp qa hd) w)
           (AddressUpdate
              (model.UpdateAddressRequest.mk (model.Auth.ID auth)
                 (rp "contactId"%string) (rp "addressId"%string)
                 street city province postal country)))
  /\ (forall uid uid' first last email phone,
         ContactController_Create DB contactUseCase
           (fiber.Ctx.mk (Some auth)
              (Some (model.CreateContactRequest.mk uid first last email phone))
              rp qa hd) w
         = ContactController_Create DB contactUseCase
             (fiber.Ctx.mk (Some auth)
                (Some (model.CreateContactRequest.mk uid' first last email phone))
                rp qa hd) w)
  /\ (forall uid uid' id first last email phone,
         ContactController_Update DB contactUseCase
           (fiber.Ctx.mk (Some auth)
              (Some (model.UpdateContactRequest.mk uid id first last email phone))
              rp qa hd) w
         = ContactController_Update DB contactUseCase
             (fiber.Ctx.mk (Some auth)
                (Some (model.UpdateContactRequest.mk uid' id first last email phone))
                rp qa hd) w)
  /\ (forall uid uid' cid street city province postal country,
         AddressController_Create DB addressUseCase
           (fiber.Ctx.mk (Some auth)
              (Some (model.CreateAddressRequest.mk uid cid street city
                       province postal country))
              rp qa hd) w
         = AddressController_Create DB addressUseCase
             (fiber.Ctx.mk (Some auth)
                (Some (model.CreateAddressRequest.mk uid' cid street city
                         province postal country))
                rp qa hd) w)
  /\ (forall uid uid' cid id street city province postal country,
         AddressController_Update DB addressUseCase
           (fiber.Ctx.mk (Some auth)
              (Some (model.UpdateAddressRequest.mk uid cid id street city
                       province postal country))
              rp qa hd) w
         = AddressController_Update DB addressUseCase
             (fiber.Ctx.mk (Some auth)
                (Some (model.UpdateAddressRequest.mk uid' cid id street city
                         province postal country))
                rp qa hd) w)
  /\ (forall B (body : option B),
         let ctx := fiber.Ctx.mk (Some auth) body rp qa hd in
         reaches w (ContactController_List DB contactUseCase unrepresentable ctx w)
           (ContactSearch
              (model.SearchContactRequest.mk (model.Auth.ID auth)
                 (fiber.Query ctx "name" EmptyString)
                 (fiber.Query ctx "email" EmptyString)
                 (fiber.Query ctx "phone" EmptyString)
                 (fiber.QueryInt ctx "page" 1)
                 (fiber.QueryInt ctx "size" 10)))
         /\ reaches w (ContactController_Get DB contactUseCase ctx w)
              (ContactGet
                 (model.GetContactRequest.mk (model.Auth.ID auth)
                    (rp "contactId"%string)))
         /\ reaches w (ContactController_Delete DB contactUseCase ctx w)
              (ContactDelete
                 (model.DeleteContactRequest.mk (model.Auth.ID auth)
                    (rp "contactId"%string)))
         /\ reaches w (AddressController_List DB addressUseCase ctx w)
              (AddressList
                 (model.ListAddressRequest.mk (model.Auth.ID auth)
                    (rp "contactId"%string)))
         /\ reaches w (AddressController_Get DB addressUseCase ctx w)
              (AddressGet
                 (model.GetAddressRequest.mk (model.Auth.ID auth)
                    (rp "contactId"%string) (rp "addressId"%string)))
         /\ reaches w (AddressController_Delete DB addressUseCase ctx w)
              (AddressDelete
                 (model.DeleteAddressRequest.mk (model.Auth.ID auth)
                    (rp "contactId"%string) (rp "addressId"%string)))).
Proof.
  repeat (intros; match goal with |- _ /\ _ => split end); intros;
    repeat match goal with x := _ |- _ => subst x end;
    first [reach | reflexivity].
Qed.

End ControllerFacts.

(** ** The page count: binary64 arithmetic *)

(** *** The number of binary digits *)

Section Digits.

Lemma digits2_pos_bounds (p : positive) :
  2 ^ (Zpos (digits2_pos p) - 1) <= Zpos p < 2 ^ Zpos (digits2_pos p).
Proof.
  induction p as [p IH|p IH|]; cbn [digits2_pos].
  - rewrite Pos2Z.inj_succ.
    replace (Z.succ (Zpos (digits2_pos p)) - 1) with (Z.succ (Zpos (digits2_pos p) - 1)) by lia.
    rewrite !Z.pow_succ_r by lia. lia.
  - rewrite Pos2Z.inj_succ.
    replace (Z.succ (Zpos (digits2_pos p)) - 1) with (Z.succ (Zpos (digits2_pos p) - 1)) by lia.
    rewrite !Z.pow_succ_r by lia. lia.
  - simpl. lia.
Qed.

Lemma Zdigits2_bounds (z : Z) :
  0 < z -> 2 ^ (Zdigits2 z - 1) <= z < 2 ^ Zdigits2 z.
Proof.
  destruct z as [|p|p]; try lia. intros _. apply digits2_pos_bounds.
Qed.

Lemma Zdigits2_pos (z : Z) : 0 < z -> 0 < Zdigits2 z.
Proof. destruct z; simpl; lia. Qed.

Lemma Zdigits2_unique (z d : Z) :
  2 ^ (d - 1) <= z < 2 ^ d -> 0 < z -> Zdigits2 z = d.
Proof.
  intros Hd Hz.
  pose proof (Zdigits2_bounds z Hz) as Hb.
  pose proof (Zdigits2_pos z Hz) as Hp.
  assert (0 < d).
  { destruct (Z.ltb_spec 0 d); [assumption|].
    destruct (Z.eq_dec d 0) as [->|]; [simpl in Hd; lia|].
    rewrite (Z.pow_neg_r 2 d) in Hd by lia. lia. }
  destruct (Z.lt_trichotomy (Zdigits2 z) d) as [Hlt|[Heq|Hgt]]; [|exact Heq|].
  - assert (2 ^ Zdigits2 z <= 2 ^ (d - 1)) by (apply Z.pow_le_mono_r; lia). lia.
  - assert (2 ^ d <= 2 ^ (Zdigits2 z - 1)) by (apply Z.pow_le_mono_r; lia). lia.
Qed.

End Digits.

(** *** Right shifts keep track of what they drop *)

Section Location.

Lemma shr_1_nonneg (m : Z) (r s : bool) :
  0 <= m ->
  shr_1 (Build_shr_record m r s)
  = Build_shr_record (m / 2) (Z.odd m) (r || s).
Proof.
  intros Hm. destruct m as [|p|p]; [reflexivity| |lia].
  destruct p as [p|p|]; cbn [shr_1].
  - f_equal. rewrite Pos2Z.inj_xI. apply (Z.div_unique _ _ _ 1); lia.
  - f_equal. rewrite Pos2Z.inj_xO. apply (Z.div_unique _ _ _ 0); lia.
  - reflexivity.
Qed.

Lemma locates_shr_1 (A B : Z) (rec : shr_record) :
  locates A B rec -> locates A (2 * B) (shr_1 rec).
Proof.
  intros (HB & HA & Hm & Hr & Hs).
  destruct rec as [m r s]. cbn [shr_m shr_r shr_s] in *.
  assert (Hm0 : 0 <= m) by (subst m; apply Z.div_pos; lia).
  rewrite shr_1_nonneg by exact Hm0.
  pose proof (Z.div_mod A B ltac:(lia)) as HdA.
  pose proof (Z.mod_pos_bound A B HB) as HfA.
  pose proof (Z.div_mod m 2 ltac:(lia)) as Hdm.
  pose proof (Z.mod_pos_bound m 2 ltac:(lia)) as Hfm.
  set (f := A mod B) in *.
  assert (Hq : A / (2 * B) = m / 2).
  { subst m. rewrite (Z.mul_comm 2 B). rewrite <- Z.div_div by lia. reflexivity. }
  assert (Hf' : A mod (2 * B) = (m mod 2) * B + f).
  { symmetry. apply (Z.mod_unique_pos A (2 * B) (m / 2)); [nia|]. subst m. nia. }
  unfold locates. cbn [shr_m shr_r shr_s].
  rewrite Hq, Hf'. repeat split; try lia.
  - pose proof (Zmod_odd m) as Ho.
    destruct (Z.odd m); rewrite Ho; symmetry;
      [apply Z.leb_le|apply Z.leb_gt]; lia.
  - rewrite Hr, Hs.
    destruct (Z.eq_dec (m mod 2) 0) as [E|E].
    + rewrite E.
      destruct (Z.leb_spec B (2 * f)); destruct (Z.ltb_spec 0 f);
        destruct (Z.eqb_spec (2 * f) B);
        destruct (Z.ltb_spec 0 (0 * B + f));
        destruct (Z.eqb_spec (2 * (0 * B + f)) (2 * B)); simpl; try reflexivity; lia.
    + assert (E1 : m mod 2 = 1) by lia. rewrite E1.
      destruct (Z.leb_spec B (2 * f)); destruct (Z.ltb_spec 0 f);
        destruct (Z.eqb_spec (2 * f) B);
        destruct (Z.ltb_spec 0 (1 * B + f));
        destruct (Z.eqb_spec (2 * (1 * B + f)) (2 * B)); simpl; try reflexivity; lia.
Qed.

Lemma locates_iter_pos (p : positive) :
  forall A B rec,
    locates A B rec -> locates A (2 ^ Zpos p * B) (iter_pos shr_1 p rec).
Proof.
  induction p as [p IH|p IH|]; intros A B rec H; cbn [iter_pos].
  - apply locates_shr_1 in H. apply IH in H. apply IH in H.
    replace (2 ^ Zpos p~1 * B) with (2 ^ Zpos p * (2 ^ Zpos p * (2 * B))); [exact H|].
    rewrite (Pos2Z.inj_xI p).
    replace (2 * Zpos p + 1) with (Zpos p + Zpos p + 1) by lia.
    rewrite !Z.pow_add_r by lia. ring.
  - apply IH in H. apply IH in H.
    replace (2 ^ Zpos p~0 * B) with (2 ^ Zpos p * (2 ^ Zpos p * B)); [exact H|].
    rewrite (Pos2Z.inj_xO p).
    replace (2 * Zpos p) with (Zpos p + Zpos p) by lia.
    rewrite !Z.pow_add_r by lia. ring.
  - apply locates_shr_1 in H. exact H.
Qed.

Lemma locates_shr (A B : Z) (rec : shr_record) (e n : Z) :
  locates A B rec -> 0 <= n ->
  locates A (2 ^ n * B) (fst (shr rec e n)) /\ snd (shr rec e n) = e + n.
Proof.
  intros H Hn. destruct n as [|p|p]; [| |lia]; cbn [shr fst snd].
  - split; [|lia]. now rewrite Z.pow_0_r, Z.mul_1_l.
  - split; [|reflexivity]. now apply locates_iter_pos.
Qed.

Lemma locates_exact (m : Z) :
  0 <= m -> locates m 1 (shr_record_of_loc m loc_Exact).
Proof.
  intros Hm. unfold locates. cbn [shr_record_of_loc shr_m shr_r shr_s].
  rewrite Z.div_1_r, Z.mod_1_r. repeat split; try lia.
Qed.

Lemma locates_new_location (A B : Z) :
  0 < B -> 0 <= A ->
  locates A B (shr_record_of_loc (A / B) (new_location B (A mod B))).
Proof.
  intros HB HA.
  pose proof (Z.mod_pos_bound A B HB) as Hf.
  set (f := A mod B) in *.
  unfold new_location, new_location_even, new_location_odd.
  assert (Hgoal : forall l,
             l = (if f =? 0 then loc_Exact
                  else loc_Inexact (2 * f ?= B)) ->
             locates A B (shr_record_of_loc (A / B) l)).
  { intros l ->. unfold locates. fold f.
    destruct (Z.eqb_spec f 0) as [E|E].
    - cbn [shr_record_of_loc shr_m shr_r shr_s]. rewrite E.
      repeat split; lia.
    - destruct (Z.compare_spec (2 * f) B) as [C|C|C];
        cbn [shr_record_of_loc shr_m shr_r shr_s]; repeat split; try lia;
        destruct (Z.leb_spec B (2 * f)); destruct (Z.ltb_spec 0 f);
        destruct (Z.eqb_spec (2 * f) B); simpl; try reflexivity; lia. }
  apply Hgoal.
  destruct (Z.even B) eqn:Ev; [reflexivity|].
  destruct (Z.eqb_spec f 0); [reflexivity|]. f_equal.
  assert (Hodd : Z.odd B = true) by (rewrite <- Z.negb_even, Ev; reflexivity).
  apply Z.odd_spec in Hodd. destruct Hodd as [k Hk].
  destruct (Z.compare_spec (2 * f + 1) B);
    destruct (Z.compare_spec (2 * f) B); try reflexivity; lia.
Qed.

End Location.

(** *** Rounding a located value to [prec] digits *)

Section Rounding.

Variables prec emax : Z.
Hypothesis prec_pos : 0 < prec.

Lemma fexp_normal (e : Z) :
  emin prec emax <= e - prec -> fexp prec emax e = e - prec.
Proof. unfold fexp. lia. Qed.

Lemma shr_m_of_loc (m : Z) (l : location) :
  shr_m (shr_record_of_loc m l) = m.
Proof. destruct l as [|[ | | ]]; reflexivity. Qed.

Lemma round_nearest_even_choice (A B : Z) (rec : shr_record) :
  locates A B rec ->
  let M := round_nearest_even (shr_m rec) (loc_of_shr_record rec) in
  (M = A / B /\ 2 * (A mod B) <= B)
  \/ (M = A / B + 1 /\ B <= 2 * (A mod B)).
Proof.
  intros (HB & HA & Hm & Hr & Hs). destruct rec as [m r s].
  cbn [shr_m shr_r shr_s] in *.
  destruct r, s; cbn [loc_of_shr_record round_nearest_even].
  - right. split; lia.
  - destruct (Z.even m); [left|right]; split; lia.
  - left. split; lia.
  - left. split; lia.
Qed.

Lemma binary_round_aux_normal (sx : bool) (mx ex : Z) (lx : location)
    (A B : Z) :
  0 < mx ->
  locates A B (shr_record_of_loc mx lx) ->
  prec <= Zdigits2 mx ->
  emin prec emax <= Zdigits2 mx + ex - prec ->
  Zdigits2 mx + ex < emax ->
  exists m e,
    binary_round_aux prec emax sx mx ex lx = S754_finite sx m e
    /\ Zdigits2 (Zpos m) = prec
    /\ Zdigits2 mx + ex - prec <= e
    /\ 2 ^ (prec - 1) <= A / (2 ^ (Zdigits2 mx - prec) * B) < 2 ^ prec
    /\ let e1 := Zdigits2 mx + ex - prec in
       let B1 := 2 ^ (Zdigits2 mx - prec) * B in
       let M := Zpos m * 2 ^ (e - e1) in
       ((M = A / B1 /\ 2 * (A mod B1) <= B1)
        \/ (M = A / B1 + 1 /\ B1 <= 2 * (A mod B1)))
       /\ (M < 2 ^ prec -> e = e1).
Proof.
  intros Hmx Hloc Hd Hmin Hmax.
  set (d := Zdigits2 mx) in *.
  set (n := d - prec).
  set (B1 := 2 ^ n * B).
  assert (Hn : 0 <= n) by (unfold n; lia).
  assert (HmxAB : mx = A / B).
  { destruct Hloc as (_ & _ & Hm & _). now rewrite shr_m_of_loc in Hm. }
  assert (HB : 0 < B) by apply Hloc.
  assert (HA : 0 <= A) by apply Hloc.
  pose proof (Zdigits2_bounds mx Hmx) as Hbnd. fold d in Hbnd.
  assert (Hm1 : A / B1 = mx / 2 ^ n).
  { unfold B1. rewrite (Z.mul_comm (2 ^ n) B), <- Z.div_div by lia.
    now rewrite HmxAB. }
  assert (Hm1b : 2 ^ (prec - 1) <= A / B1 < 2 ^ prec).
  { rewrite Hm1. assert (Hp : 0 < 2 ^ n) by (apply Z.pow_pos_nonneg; lia).
    split.
    - apply Z.div_le_lower_bound; [exact Hp|].
      rewrite <- Z.pow_add_r by lia.
      replace (n + (prec - 1)) with (d - 1) by (unfold n; lia). lia.
    - apply Z.div_lt_upper_bound; [exact Hp|].
      rewrite <- Z.pow_add_r by lia.
      replace (n + prec) with d by (unfold n; lia). lia. }
  unfold binary_round_aux, shr_fexp. fold d.
  rewrite (fexp_normal (d + ex)) by exact Hmin.
  replace (d + ex - prec - ex) with n by (unfold n; lia).
  destruct (locates_shr A B _ ex n Hloc Hn) as [Hloc1 He1].
  destruct (shr (shr_record_of_loc mx lx) ex n) as [rec1 e1].
  cbn [fst snd] in Hloc1, He1. fold B1 in Hloc1.
  pose proof (round_nearest_even_choice A B1 rec1 Hloc1) as Hchoice.
  set (M := round_nearest_even (shr_m rec1) (loc_of_shr_record rec1)) in *.
  cbv zeta in Hchoice.
  assert (HM : 2 ^ (prec - 1) <= M <= 2 ^ prec) by lia.
  assert (Hpp : 0 < 2 ^ (prec - 1)) by (apply Z.pow_pos_nonneg; lia).
  assert (H2p : 2 ^ prec = 2 * 2 ^ (prec - 1)).
  { rewrite <- Z.pow_succ_r by lia. f_equal. lia. }
  assert (He1' : e1 = d + ex - prec) by (unfold n in He1; lia).
  destruct (Z.eq_dec M (2 ^ prec)) as [Hcarry|Hnocarry].
  - (* the rounding carried into the next binade *)
    assert (HdM : Zdigits2 M = prec + 1).
    { apply Zdigits2_unique; [|lia].
      replace (prec + 1 - 1) with prec by lia.
      rewrite Hcarry. split; [lia|].
      rewrite Z.pow_add_r by lia. simpl (2 ^ 1). lia. }
    rewrite HdM.
    rewrite (fexp_normal (prec + 1 + e1)) by lia.
    replace (prec + 1 + e1 - prec - e1) with 1 by lia.
    cbn [shr iter_pos shr_record_of_loc].
    rewrite shr_1_nonneg by lia. cbn [shr_m].
    assert (Hhalf : M / 2 = 2 ^ (prec - 1)).
    { rewrite Hcarry, H2p. rewrite Z.mul_comm. apply Z.div_mul. lia. }
    rewrite Hhalf.
    destruct (2 ^ (prec - 1)) as [|m|m] eqn:Hm; try lia.
    replace (e1 + 1 <=? emax - prec) with true by lia.
    exists m, (e1 + 1). split; [reflexivity|].
    split; [apply Zdigits2_unique; lia|].
    split; [lia|]. split; [exact Hm1b|].
    cbv zeta. fold d. fold n. fold B1.
    replace (e1 + 1 - (d + ex - prec)) with 1 by lia.
    replace (Zpos m * 2 ^ 1) with M by (simpl (2 ^ 1); lia).
    split; [exact Hchoice|lia].
  - assert (HdM : Zdigits2 M = prec) by (apply Zdigits2_unique; lia).
    rewrite HdM.
    rewrite (fexp_normal (prec + e1)) by lia.
    replace (prec + e1 - prec - e1) with 0 by lia.
    cbn [shr]. rewrite shr_m_of_loc.
    destruct M as [|m|m] eqn:HMm; try lia.
    replace (e1 <=? emax - prec) with true by lia.
    exists m, e1. split; [reflexivity|].
    split; [exact HdM|].
    split; [lia|]. split; [exact Hm1b|].
    cbv zeta. fold d. fold n. fold B1.
    replace (e1 - (d + ex - prec)) with 0 by lia.
    rewrite Z.pow_0_r, Z.mul_1_r. split; [exact Hchoice|lia].
Qed.

End Rounding.

(** *** Conversion and division in binary64 *)

Section Binary64.

Import float64.

Lemma iter_xO (m k : positive) :
  Zpos (Pos.iter xO m k) = Zpos m * 2 ^ Zpos k.
Proof.
  induction k as [|k IH] using Pos.peano_ind.
  - simpl. lia.
  - rewrite Pos.iter_succ, Pos2Z.inj_succ, Z.pow_succ_r by lia.
    rewrite (Pos2Z.inj_xO (Pos.iter xO m k)), IH. ring.
Qed.

(** A positive integer below [2 ^ 53] converts exactly, to the
    mantissa of 53 digits. *)
Lemma of_int_small (n : Z) :
  0 < n < 2 ^ prec ->
  exists m,
    of_int n = S754_finite false m (Zdigits2 n - prec)
    /\ Zpos m = n * 2 ^ (prec - Zdigits2 n)
    /\ Zdigits2 (Zpos m) = prec.
Proof.
  intros Hn. destruct n as [|p|p]; try lia.
  pose proof (Zdigits2_bounds (Zpos p) ltac:(lia)) as Hb.
  pose proof (Zdigits2_pos (Zpos p) ltac:(lia)) as Hd0.
  set (d := Zdigits2 (Zpos p)) in *.
  assert (Hd : d <= prec).
  { destruct (Z.le_gt_cases d prec) as [H|H]; [exact H|].
    assert (2 ^ prec <= 2 ^ (d - 1)) by (apply Z.pow_le_mono_r; lia). lia. }
  assert (Hmz : exists mz,
             shl_align p 0 (fexp prec emax (Zpos (digits2_pos p) + 0))
             = (mz, d - prec)
             /\ Zpos mz = Zpos p * 2 ^ (prec - d)).
  { change (Zpos (digits2_pos p)) with d.
    rewrite fexp_normal by (unfold emin, prec, emax; lia).
    unfold shl_align. replace (d + 0 - prec - 0) with (d - prec) by lia.
    replace (d + 0 - prec) with (d - prec) by lia.
    destruct (d - prec) as [|k|k] eqn:Hk; try lia.
    - exists p. split; [reflexivity|].
      replace (prec - d) with 0 by lia. simpl. lia.
    - exists (Pos.iter xO p k). split; [reflexivity|].
      rewrite iter_xO. f_equal. f_equal. lia. }
  destruct Hmz as (mz & Hal & Hmz).
  assert (Hdz : Zdigits2 (Zpos mz) = prec).
  { apply Zdigits2_unique; [|lia]. rewrite Hmz.
    assert (Hp : 0 < 2 ^ (prec - d)) by (apply Z.pow_pos_nonneg; lia).
    replace (2 ^ (prec - 1)) with (2 ^ (d - 1) * 2 ^ (prec - d))
      by (rewrite <- Z.pow_add_r by lia; f_equal; lia).
    replace (2 ^ prec) with (2 ^ d * 2 ^ (prec - d))
      by (rewrite <- Z.pow_add_r by lia; f_equal; lia).
    nia. }
  unfold of_int, binary_normalize, binary_round. rewrite Hal.
  destruct (binary_round_aux_normal prec emax ltac:(unfold prec; lia)
              false (Zpos mz) (d - prec) loc_Exact (Zpos mz) 1)
    as (m & e & Heq & Hdm & He & _ & Hch & Hsame).
  - lia.
  - apply locates_exact. lia.
  - rewrite Hdz. lia.
  - rewrite Hdz. unfold emin, prec, emax. unfold prec in Hd. lia.
  - rewrite Hdz. unfold emax. unfold prec in *. lia.
  - rewrite Hdz in *.
    replace (prec - prec) with 0 in * by lia.
    rewrite Z.pow_0_r, Z.mul_1_l, Z.div_1_r, Z.mod_1_r in *.
    replace (prec + (d - prec) - prec) with (d - prec) in * by lia.
    assert (HM : Zpos m * 2 ^ (e - (d - prec)) = Zpos mz) by lia.
    assert (Hlt : Zpos mz < 2 ^ prec).
    { pose proof (Zdigits2_bounds (Zpos mz) ltac:(lia)) as H. rewrite Hdz in H. lia. }
    assert (Hee : e = d - prec) by (apply Hsame; lia).
    rewrite Hee in HM. replace (d - prec - (d - prec)) with 0 in HM by lia.
    rewrite Z.pow_0_r, Z.mul_1_r in HM.
    exists mz. rewrite Heq. split; [|split; [exact Hmz|exact Hdz]].
    f_equal; [congruence|exact Hee].
Qed.

(** From [2 ^ 53] on the conversion rounds; the result is at least
    [2 ^ 53], and exact when the bits that are dropped are zero. *)
Lemma of_int_large (n : Z) :
  2 ^ prec <= n < 2 ^ 63 ->
  exists m e,
    of_int n = S754_finite false m e
    /\ Zdigits2 (Zpos m) = prec
    /\ 1 <= e <= 11
    /\ 2 ^ prec <= Zpos m * 2 ^ e
    /\ (n mod 2 ^ (Zdigits2 n - prec) = 0 -> Zpos m * 2 ^ e = n).
Proof.
  intros Hn.
  assert (H0 : 0 < 2 ^ prec) by (apply Z.pow_pos_nonneg; unfold prec; lia).
  destruct n as [|p|p]; try lia.
  pose proof (Zdigits2_bounds (Zpos p) ltac:(lia)) as Hb.
  set (d := Zdigits2 (Zpos p)) in *.
  assert (Hd : prec < d).
  { destruct (Z.lt_ge_cases prec d) as [H|H]; [exact H|].
    assert (2 ^ d <= 2 ^ prec) by (apply Z.pow_le_mono_r; unfold prec in *; lia).
    lia. }
  assert (Hd63 : d <= 63).
  { destruct (Z.le_gt_cases d 63) as [H|H]; [exact H|].
    assert (2 ^ 63 <= 2 ^ (d - 1)) by (apply Z.pow_le_mono_r; lia). lia. }
  unfold of_int, binary_normalize, binary_round.
  change (Zpos (digits2_pos p)) with d.
  rewrite fexp_normal by (unfold emin, prec, emax in *; lia).
  unfold shl_align. replace (d + 0 - prec - 0) with (d - prec) by lia.
  destruct (d - prec) as [|k|k] eqn:Hk; try lia.
  destruct (binary_round_aux_normal prec emax ltac:(unfold prec; lia)
              false (Zpos p) 0 loc_Exact (Zpos p) 1)
    as (m & e & Heq & Hdm & He & Hm1 & Hch & Hsame).
  - lia.
  - apply locates_exact. lia.
  - fold d. lia.
  - fold d. unfold emin, prec, emax in *. lia.
  - fold d. unfold emax. lia.
  - fold d in He, Hm1, Hch, Hsame. cbv zeta in Hch, Hsame.
    rewrite Z.mul_1_r in *. rewrite Z.add_0_r in *.
    rewrite Hk in *.
    set (B1 := 2 ^ Zpos k) in *.
    set (e1 := Zpos k) in *.
    assert (HB1 : 0 < B1) by (apply Z.pow_pos_nonneg; lia).
    pose proof (Zdigits2_bounds (Zpos m) ltac:(lia)) as Hmb. rewrite Hdm in Hmb.
    assert (Hp2 : 2 ^ prec = 2 * 2 ^ (prec - 1)).
    { reflexivity. }
    assert (Hpp : 0 < 2 ^ (prec - 1)) by (apply Z.pow_pos_nonneg; unfold prec; lia).
    assert (Hee : e - e1 = 0 \/ e - e1 = 1).
    { destruct (Z.le_gt_cases (e - e1) 1) as [H|H]; [lia|].
      assert (2 ^ 2 <= 2 ^ (e - e1)) by (apply Z.pow_le_mono_r; lia).
      change (2 ^ 2) with 4 in *. nia. }
    assert (Hval : Zpos m * 2 ^ e = Zpos m * 2 ^ (e - e1) * B1).
    { unfold B1. rewrite <- Z.mul_assoc, <- Z.pow_add_r by lia.
      f_equal. f_equal. lia. }
    exists m, e. rewrite Heq. split; [reflexivity|]. split; [exact Hdm|].
    split; [unfold prec in *; lia|]. split.
    + rewrite Hval.
      assert (2 ^ prec = 2 ^ (prec - 1) * B1 * 2 ^ 0 \/ 2 ^ prec <= 2 ^ (prec - 1) * B1).
      { right. unfold B1. rewrite <- Z.pow_add_r by (unfold prec; lia).
        apply Z.pow_le_mono_r; lia. }
      nia.
    + intros Hmod. rewrite Hval.
      pose proof (Z.div_mod (Zpos p) B1 ltac:(lia)) as Hdm'.
      lia.
Qed.

Lemma div_eucl_div_mod (a b : Z) : Z.div_eucl a b = (a / b, a mod b).
Proof. unfold Z.div, Z.modulo. now destruct (Z.div_eucl a b). Qed.

(** The quotient of two positive values with 53-digit mantissas. *)
Lemma div_normal (ma mb : positive) (ea eb : Z) :
  Zdigits2 (Zpos ma) = prec -> Zdigits2 (Zpos mb) = prec ->
  -52 <= ea <= 11 -> -52 <= eb <= 11 ->
  exists m e k,
    div (S754_finite false ma ea) (S754_finite false mb eb)
    = S754_finite false m e
    /\ 0 <= k <= 1
    /\ let e1 := ea - eb - prec + k in
       let A := Zpos ma * 2 ^ prec in
       let B1 := 2 ^ k * Zpos mb in
       let M := Zpos m * 2 ^ (e - e1) in
       e1 <= e
       /\ 2 ^ (prec - 1) <= A / B1 < 2 ^ prec
       /\ ((M = A / B1 /\ 2 * (A mod B1) <= B1)
           \/ (M = A / B1 + 1 /\ B1 <= 2 * (A mod B1))).
Proof.
  intros Hda Hdb Hea Heb.
  unfold div, SFdiv, SFdiv_core_binary. rewrite Hda, Hdb.
  rewrite (fexp_normal prec emax) by (unfold emin, prec, emax; lia).
  replace (Z.min (prec + ea - (prec + eb) - prec) (ea - eb))
    with (ea - eb - prec) by (unfold prec; lia).
  replace (ea - eb - (ea - eb - prec)) with prec by lia.
  change (match prec with
          | 0 => Zpos ma
          | Zpos _ => Z.shiftl (Zpos ma) prec
          | Zneg _ => 0
          end) with (Z.shiftl (Zpos ma) prec).
  rewrite Z.shiftl_mul_pow2 by (unfold prec; lia).
  set (A := Zpos ma * 2 ^ prec).
  rewrite div_eucl_div_mod. cbn [xorb].
  pose proof (Zdigits2_bounds (Zpos ma) ltac:(lia)) as Hba. rewrite Hda in Hba.
  pose proof (Zdigits2_bounds (Zpos mb) ltac:(lia)) as Hbb. rewrite Hdb in Hbb.
  assert (Hp2 : 2 ^ prec = 2 * 2 ^ (prec - 1)).
  { reflexivity. }
  assert (Hpp : 0 < 2 ^ (prec - 1)) by (apply Z.pow_pos_nonneg; unfold prec; lia).
  assert (Hq : 2 ^ (prec - 1) <= A / Zpos mb < 2 * 2 ^ prec).
  { split.
    - apply Z.div_le_lower_bound; [lia|]. unfold A. nia.
    - apply Z.div_lt_upper_bound; [lia|]. unfold A. nia. }
  set (q := A / Zpos mb) in *.
  assert (Hdq : Zdigits2 q = prec \/ Zdigits2 q = prec + 1).
  { destruct (Z.lt_ge_cases q (2 ^ prec)) as [H|H].
    - left. apply Zdigits2_unique; lia.
    - right. apply Zdigits2_unique; [|lia].
      replace (prec + 1 - 1) with prec by lia.
      rewrite Z.pow_add_r by (unfold prec; lia). simpl (2 ^ 1). lia. }
  destruct (binary_round_aux_normal prec emax ltac:(unfold prec; lia)
              false q (ea - eb - prec) (new_location (Zpos mb) (A mod Zpos mb))
              A (Zpos mb))
    as (m & e & Heq & Hdm & He & Hm1 & Hch & _).
  - lia.
  - apply locates_new_location; unfold A; lia.
  - lia.
  - unfold emin, prec, emax in *. lia.
  - unfold emax, prec in *. lia.
  - exists m, e, (Zdigits2 q - prec). rewrite Heq.
    split; [reflexivity|]. split; [lia|]. cbv zeta.
    replace (ea - eb - prec + (Zdigits2 q - prec))
      with (Zdigits2 q + (ea - eb - prec) - prec) by lia.
    split; [exact He|]. split; [exact Hm1|exact Hch].
Qed.

End Binary64.

(** *** Powers of two in the rationals *)

Section Pow2.

Definition pow2 (e : Z) : Q := (2 ^ e)%Q.

Lemma pow2_pos e : (0 < pow2 e)%Q.
Proof. apply Qpower_0_lt. reflexivity. Qed.

Lemma pow2_add a b : (pow2 (a + b) == pow2 a * pow2 b)%Q.
Proof. apply Qpower_plus. discriminate. Qed.

Lemma pow2_inject k : 0 <= k -> (inject_Z (2 ^ k) == pow2 k)%Q.
Proof. intros Hk. now apply Zpower_Qpower. Qed.

Lemma pow2_cancel e : (pow2 e * pow2 (- e) == 1)%Q.
Proof. rewrite <- pow2_add. now replace (e + - e) with 0 by lia. Qed.

Lemma pow2_ge_2 e : 0 < e -> (2 <= pow2 e)%Q.
Proof.
  intros He. rewrite <- pow2_inject by lia.
  change 2%Q with (inject_Z 2). rewrite <- Zle_Qle.
  change 2 with (2 ^ 1) at 1. apply Z.pow_le_mono_r; lia.
Qed.

End Pow2.

(** *** A rounded quotient stays between the integers around it *)

Section RoundedQuotient.

Lemma inject_div_mod (A B : Z) :
  0 < B ->
  (inject_Z A == inject_Z B * inject_Z (A / B) + inject_Z (A mod B))%Q.
Proof.
  intros HB. rewrite <- inject_Z_mult, <- inject_Z_plus.
  now rewrite <- Z.div_mod by lia.
Qed.

Lemma rounded_quotient_between (A B1 M e1 n : Z) (x : Q) :
  0 < B1 -> 0 <= A ->
  2 ^ 52 <= A / B1 ->
  (M = A / B1 /\ 2 * (A mod B1) <= B1)
  \/ (M = A / B1 + 1 /\ B1 <= 2 * (A mod B1)) ->
  (x * inject_Z B1 == inject_Z A * pow2 e1)%Q ->
  1 <= n ->
  (inject_Z (n - 1) < x)%Q -> (x <= inject_Z n)%Q ->
  (x <= (x - inject_Z (n - 1)) * inject_Z (2 ^ 53))%Q ->
  (x <= inject_Z (2 ^ 53))%Q ->
  (inject_Z (n - 1) < inject_Z M * pow2 e1 <= inject_Z n)%Q.
Proof.
  intros HB HA Hm1 Hch Hx Hn Hlo Hhi Hgap Hmax.
  set (m1 := A / B1) in *. set (f := A mod B1) in *.
  pose proof (Z.mod_pos_bound A B1 HB) as Hf. fold f in Hf.
  pose proof (inject_div_mod A B1 HB) as HAq. fold m1 f in HAq.
  pose proof (pow2_pos e1) as Hu.
  set (u := pow2 e1) in *.
  set (qB := inject_Z B1) in *. set (qm := inject_Z m1) in *.
  set (qf := inject_Z f) in *.
  assert (HqB : (0 < qB)%Q) by (unfold qB; change 0%Q with (inject_Z 0); now rewrite <- Zlt_Qlt).
  assert (Hqf0 : (0 <= qf)%Q) by (unfold qf; change 0%Q with (inject_Z 0); rewrite <- Zle_Qle; lia).
  assert (HqfB : (qf < qB)%Q) by (unfold qf, qB; rewrite <- Zlt_Qlt; lia).
  assert (Hqm : (inject_Z (2 ^ 52) <= qm)%Q) by (unfold qm; now rewrite <- Zle_Qle).
  (* x = (qm + qf / qB) * u *)
  assert (Hxe : (x == qm * u + qf / qB * u)%Q).
  { rewrite HAq in Hx.
    assert ((x * qB) / qB == ((qB * qm + qf) * u) / qB)%Q as H by now rewrite Hx.
    field_simplify in H; [|lra|lra].
    rewrite H. field. lra. }
  set (phi := (qf / qB)%Q) in *.
  assert (Hphi0 : (0 <= phi)%Q).
  { unfold phi. apply Qle_shift_div_l; [exact HqB|]. lra. }
  assert (Hphi1 : (phi < 1)%Q).
  { unfold phi. apply Qlt_shift_div_r; [exact HqB|]. lra. }
  assert (Hhalf : (M = m1 /\ (phi <= 1 # 2)%Q) \/ (M = m1 + 1 /\ ((1 # 2) <= phi)%Q)).
  { destruct Hch as [[HM Hc]|[HM Hc]]; [left|right]; (split; [exact HM|]).
    - unfold phi. apply Qle_shift_div_r; [exact HqB|].
      assert (inject_Z (2 * f) <= qB)%Q as H by (unfold qB; now rewrite <- Zle_Qle).
      rewrite inject_Z_mult in H. fold qf in H. change (inject_Z 2) with 2%Q in H. lra.
    - unfold phi. apply Qle_shift_div_l; [exact HqB|].
      assert (qB <= inject_Z (2 * f))%Q as H by (unfold qB; now rewrite <- Zle_Qle).
      rewrite inject_Z_mult in H. fold qf in H. change (inject_Z 2) with 2%Q in H. lra. }
  assert (Hpu0 : (0 <= phi * u)%Q) by (apply Qmult_le_0_compat; lra).
  assert (Hpu1 : (phi * u < u)%Q).
  { setoid_replace u with (1 * u)%Q at 2 by ring.
    apply Qmult_lt_compat_r; assumption. }
  assert (Hmu : (inject_Z (2 ^ 52) * u <= qm * u)%Q).
  { apply Qmult_le_compat_r; [exact Hqm|lra]. }
  change (inject_Z (2 ^ 52)) with (4503599627370496 # 1)%Q in *.
  change (inject_Z (2 ^ 53)) with (9007199254740992 # 1)%Q in *.
  destruct (Z.le_gt_cases e1 0) as [He|He].
  - (* the grid of the result holds the integers *)
    set (k := - e1).
    assert (Hk : 0 <= k) by (unfold k; lia).
    assert (Hgrid : forall z, (inject_Z z == inject_Z (z * 2 ^ k) * u)%Q).
    { intros z. rewrite inject_Z_mult, pow2_inject by exact Hk.
      unfold u, k. rewrite <- Qmult_assoc, (Qmult_comm (pow2 (- e1))), pow2_cancel. ring. }
    rewrite (Hgrid n), (Hgrid (n - 1)) in *.
    set (N := n * 2 ^ k) in *. set (N' := (n - 1) * 2 ^ k) in *.
    assert (Hcmp : forall a b : Z, (inject_Z a * u < inject_Z b * u)%Q -> a < b).
    { intros a b H. rewrite Zlt_Qlt.
      apply Qmult_lt_r in H; assumption. }
    assert (Hcmp' : forall a b : Z, a <= b -> (inject_Z a * u <= inject_Z b * u)%Q).
    { intros a b H. apply Qmult_le_compat_r; [now rewrite <- Zle_Qle|lra]. }
    assert (Hcmp'' : forall a b : Z, a < b -> (inject_Z a * u < inject_Z b * u)%Q).
    { intros a b H. apply Qmult_lt_compat_r; [exact Hu|now rewrite <- Zlt_Qlt]. }
    assert (Hm1u : (inject_Z (m1 + 1) * u == qm * u + u)%Q).
    { rewrite inject_Z_plus. fold qm. change (inject_Z 1) with 1%Q. ring. }
    destruct Hhalf as [[HM Hp]|[HM Hp]]; subst M.
    + (* rounded down *)
      assert (Hpu : (phi * u <= (1 # 2) * u)%Q)
        by (apply Qmult_le_compat_r; lra).
      split.
      * fold qm. 
        destruct (Z.lt_ge_cases N' m1) as [H|H]; [now apply Hcmp''|].
        apply Hcmp' in H. fold qm in H. lra.
      * fold qm. lra.
    + (* rounded up *)
      assert (Hpu : ((1 # 2) * u <= phi * u)%Q)
        by (apply Qmult_le_compat_r; lra).
      split.
      * apply Hcmp''.
        assert (N' < m1 + 1); [|lia].
        apply Hcmp. rewrite Hm1u. lra.
      * apply Hcmp'.
        assert (m1 < N); [|lia].
        apply Hcmp. fold qm. lra.
  - (* a coarser grid: the quotient is 2 ^ 53 itself *)
    pose proof (pow2_ge_2 e1 He) as Hu2. fold u in Hu2.
    assert (Hmu2 : (qm * 2 <= qm * u)%Q).
    { apply Qmult_le_l; lra. }
    destruct Hhalf as [[HM Hp]|[HM Hp]]; subst M; fold qm.
    + assert (Hpu : (phi * u <= (1 # 2) * u)%Q)
        by (apply Qmult_le_compat_r; lra).
      split; lra.
    + assert (Hpu : ((1 # 2) * u <= phi * u)%Q)
        by (apply Qmult_le_compat_r; lra).
      lra.
Qed.

End RoundedQuotient.

(** *** The values of conversions, and [math.Ceil] *)

Section Values.

Import float64.

Lemma F2Q_pos m e : (0 < F2Q m e)%Q.
Proof.
  unfold F2Q. apply Qmult_lt_0_compat; [|apply pow2_pos].
  change 0%Q with (inject_Z 0). now rewrite <- Zlt_Qlt.
Qed.

Lemma F2Q_nonneg_exponent m e :
  0 <= e -> (F2Q m e == inject_Z (Zpos m * 2 ^ e))%Q.
Proof.
  intros He. unfold F2Q. now rewrite inject_Z_mult, pow2_inject.
Qed.

Lemma F2Q_neg_exponent m e :
  e <= 0 -> (F2Q m e * inject_Z (2 ^ (- e)) == inject_Z (Zpos m))%Q.
Proof.
  intros He. unfold F2Q. rewrite pow2_inject by lia.
  rewrite <- Qmult_assoc, pow2_cancel. ring.
Qed.

Lemma of_int_value (n : Z) :
  0 < n < 2 ^ 63 ->
  exists m e,
    of_int n = S754_finite false m e
    /\ Zdigits2 (Zpos m) = prec
    /\ -52 <= e <= 11
    /\ (n <= 2 ^ prec -> (F2Q m e == inject_Z n)%Q)
    /\ (2 ^ prec <= n -> (inject_Z (2 ^ prec) <= F2Q m e)%Q).
Proof.
  intros Hn. destruct (Z.lt_ge_cases n (2 ^ prec)) as [Hs|Hl].
  - destruct (of_int_small n ltac:(lia)) as (m & Heq & Hm & Hd).
    pose proof (Zdigits2_bounds n ltac:(lia)) as Hb.
    pose proof (Zdigits2_pos n ltac:(lia)) as Hd0.
    assert (Hdn : Zdigits2 n <= prec).
    { destruct (Z.le_gt_cases (Zdigits2 n) prec) as [H|H]; [exact H|].
      assert (2 ^ prec <= 2 ^ (Zdigits2 n - 1))
        by (apply Z.pow_le_mono_r; unfold prec in *; lia).
      lia. }
    exists m, (Zdigits2 n - prec). split; [exact Heq|]. split; [exact Hd|].
    split; [unfold prec in *; lia|]. split; [|lia].
    intros _. unfold F2Q. rewrite Hm, inject_Z_mult.
    rewrite pow2_inject by lia. rewrite <- Qmult_assoc.
    replace (Zdigits2 n - prec) with (- (prec - Zdigits2 n)) by lia.
    rewrite pow2_cancel. ring.
  - destruct (of_int_large n ltac:(lia)) as (m & e & Heq & Hd & He & Hge & Hex).
    exists m, e. split; [exact Heq|]. split; [exact Hd|].
    split; [lia|]. split.
    + intros Hle. assert (n = 2 ^ prec) by lia. subst n.
      rewrite F2Q_nonneg_exponent by lia. rewrite Hex; reflexivity.
    + intros _. rewrite F2Q_nonneg_exponent by lia. now rewrite <- Zle_Qle.
Qed.

Lemma of_int_int_part (c : Z) :
  0 < c <= 2 ^ prec -> int_part (of_int c) = Some c.
Proof.
  intros Hc. destruct (Z.eq_dec c (2 ^ prec)) as [->|Hne]; [reflexivity|].
  destruct (of_int_small c ltac:(lia)) as (m & Heq & Hm & _).
  rewrite Heq. unfold int_part.
  pose proof (Zdigits2_bounds c ltac:(lia)) as Hb.
  pose proof (Zdigits2_pos c ltac:(lia)) as Hd0.
  assert (Hdn : Zdigits2 c <= prec).
  { destruct (Z.le_gt_cases (Zdigits2 c) prec) as [H|H]; [exact H|].
    assert (2 ^ prec <= 2 ^ (Zdigits2 c - 1))
      by (apply Z.pow_le_mono_r; unfold prec in *; lia).
    lia. }
  f_equal. rewrite Hm.
  destruct (Z.leb_spec 0 (Zdigits2 c - prec)).
  - replace (prec - Zdigits2 c) with 0 by lia.
    replace (Zdigits2 c - prec) with 0 by lia. simpl. lia.
  - replace (- (Zdigits2 c - prec)) with (prec - Zdigits2 c) by lia.
    apply Z.div_mul.
    assert (0 < 2 ^ (prec - Zdigits2 c)) by (apply Z.pow_pos_nonneg; lia). lia.
Qed.

(** [int64(math.Ceil(x))] for a positive [x] between two integers. *)
Lemma Ceil_between (unrepresentable : t -> Z) (m : positive) (e c : Z) :
  1 <= c <= 2 ^ prec ->
  (inject_Z (c - 1) < F2Q m e)%Q -> (F2Q m e <= inject_Z c)%Q ->
  to_int64 unrepresentable (Ceil (S754_finite false m e)) = c.
Proof.
  intros Hc Hlo Hhi.
  assert (Hrange : (min_int64 <=? c) && (c <=? max_int64) = true).
  { assert (2 ^ prec < max_int64) by reflexivity.
    assert (min_int64 < 0) by reflexivity. lia. }
  unfold to_int64, Ceil.
  destruct (Z.leb_spec 0 e) as [He|He].
  - rewrite F2Q_nonneg_exponent in Hlo, Hhi by exact He.
    rewrite <- Zlt_Qlt in Hlo. rewrite <- Zle_Qle in Hhi.
    assert (Hv : Zpos m * 2 ^ e = c) by lia.
    unfold int_part. replace (0 <=? e) with true by lia.
    rewrite Hv, Hrange. reflexivity.
  - set (P := 2 ^ (- e)).
    assert (HP : 0 < P) by (apply Z.pow_pos_nonneg; lia).
    pose proof (F2Q_neg_exponent m e ltac:(lia)) as HF. fold P in HF.
    assert (HqP : (0 < inject_Z P)%Q)
      by (change 0%Q with (inject_Z 0); now rewrite <- Zlt_Qlt).
    assert (H1 : (c - 1) * P < Zpos m).
    { rewrite Zlt_Qlt, inject_Z_mult, <- HF.
      apply Qmult_lt_compat_r; assumption. }
    assert (H2 : Zpos m <= c * P).
    { rewrite Zle_Qle, inject_Z_mult, <- HF.
      apply Qmult_le_compat_r; [assumption|lra]. }
    assert (Hceil : - (- Zpos m / P) = c).
    { assert (- Zpos m / P = - c); [|lia].
      symmetry. apply (Z.div_unique_pos _ _ _ (c * P - Zpos m)); lia. }
    rewrite Hceil. fold (of_int c).
    rewrite of_int_int_part by lia. rewrite Hrange. reflexivity.
Qed.

End Values.

(** *** The page count of the list handler *)

Section TotalPageFacts.

Import float64.

Variable unrepresentable : t -> Z.

Let TotalPage := http.TotalPage unrepresentable.

Lemma ceil_div_bounds (a b : Z) :
  0 < b -> (ceil_div a b - 1) * b < a <= ceil_div a b * b.
Proof.
  intros Hb. unfold ceil_div.
  pose proof (Z.div_mod (a + b - 1) b ltac:(lia)) as Hd.
  pose proof (Z.mod_pos_bound (a + b - 1) b Hb) as Hm.
  nia.
Qed.

Lemma F2Q_rounded (m : positive) (e e1 : Z) :
  e1 <= e ->
  (F2Q m e == inject_Z (Zpos m * 2 ^ (e - e1)) * pow2 e1)%Q.
Proof.
  intros He. unfold F2Q. rewrite inject_Z_mult, pow2_inject by lia.
  rewrite <- Qmult_assoc, <- pow2_add. now replace (e - e1 + e1) with e by lia.
Qed.

(** Up to [2 ^ 53] items the floating-point computation of the
    page count is the integer ceiling. *)
Lemma TotalPage_exact (total size : Z) :
  0 <= total <= 2 ^ 53 -> 0 < size < 2 ^ 63 ->
  TotalPage total size = ceil_div total size.
Proof.
  intros Ht Hs. unfold TotalPage, http.TotalPage.
  destruct (of_int_value size Hs) as (mb & eb & Hfb & Hdb & Heb & Hbs & Hbl).
  destruct (Z.eq_dec total 0) as [->|Hne].
  - (* nothing to page *)
    rewrite Hfb. unfold ceil_div. rewrite Z.div_small by lia. reflexivity.
  - destruct (of_int_value total ltac:(lia)) as (ma & ea & Hfa & Hda & Hea & Has & _).
    specialize (Has ltac:(unfold prec; lia)).
    rewrite Hfa, Hfb.
    destruct (div_normal ma mb ea eb Hda Hdb Hea Heb)
      as (m & e & k & Hdiv & Hk & He1 & Hm1 & Hch).
    rewrite Hdiv. cbv zeta in He1, Hm1, Hch.
    set (e1 := ea - eb - prec + k) in *.
    set (A := Zpos ma * 2 ^ prec) in *.
    set (B1 := 2 ^ k * Zpos mb) in *.
    set (M := Zpos m * 2 ^ (e - e1)) in *.
    set (n := ceil_div total size).
    pose proof (ceil_div_bounds total size ltac:(lia)) as Hn. fold n in Hn.
    assert (Hn1 : 1 <= n) by nia.
    assert (Hn53 : n <= 2 ^ prec) by (unfold prec; nia).
    assert (HB1 : 0 < B1).
    { unfold B1. assert (0 < 2 ^ k) by (apply Z.pow_pos_nonneg; lia). lia. }
    assert (HA : 0 <= A).
    { unfold A. assert (0 < 2 ^ prec) by reflexivity. lia. }
    pose proof (F2Q_pos mb eb) as HQb.
    set (Qa := F2Q ma ea) in *. set (Qb := F2Q mb eb) in *.
    set (x := (Qa / Qb)%Q).
    assert (Hxb : (x * Qb == Qa)%Q) by (unfold x; field; lra).
    assert (Hx : (x * inject_Z B1 == inject_Z A * pow2 e1)%Q).
    { unfold B1, A. rewrite !inject_Z_mult.
      rewrite !pow2_inject by (unfold prec; lia).
      assert (Hp : (pow2 e1 * pow2 eb == pow2 ea * pow2 k * pow2 (- prec))%Q).
      { rewrite <- !pow2_add. unfold e1.
        now replace (ea - eb - prec + k + eb) with (ea + k + - prec) by lia. }
      pose proof (pow2_cancel prec) as Hc.
      pose proof (pow2_pos eb) as Hpeb.
      assert (Hxq : (x * (inject_Z (Zpos mb) * pow2 eb)
                     == inject_Z (Zpos ma) * pow2 ea)%Q) by exact Hxb.
      apply (Qmult_inj_r _ _ (pow2 eb)); [lra|].
      transitivity (x * (inject_Z (Zpos mb) * pow2 eb) * pow2 k)%Q; [ring|].
      rewrite Hxq.
      transitivity (inject_Z (Zpos ma) * pow2 prec * (pow2 e1 * pow2 eb))%Q; [|ring].
      rewrite Hp.
      transitivity (inject_Z (Zpos ma) * pow2 ea * pow2 k
                    * (pow2 prec * pow2 (- prec)))%Q; [|ring].
      rewrite Hc. ring. }
    assert (Hbetween :
              (inject_Z (n - 1) < inject_Z M * pow2 e1 <= inject_Z n)%Q).
    { apply (rounded_quotient_between A B1 M e1 n x HB1 HA);
        [unfold prec in Hm1; simpl in Hm1; lia|exact Hch|exact Hx|exact Hn1| | | | ].
      - (* n - 1 < x *)
        apply (Qmult_lt_r _ _ Qb HQb). rewrite Hxb.
        destruct (Z.le_gt_cases size (2 ^ prec)) as [Hsz|Hsz].
        + rewrite Has, (Hbs Hsz), <- inject_Z_mult, <- Zlt_Qlt. lia.
        + assert (n = 1) by (unfold prec in *; nia).
          replace (n - 1) with 0 by lia.
          setoid_replace (inject_Z 0 * Qb)%Q with 0%Q by ring.
          apply F2Q_pos.
      - (* x <= n *)
        apply (Qmult_le_r _ _ Qb HQb). rewrite Hxb.
        destruct (Z.le_gt_cases size (2 ^ prec)) as [Hsz|Hsz].
        + rewrite Has, (Hbs Hsz), <- inject_Z_mult, <- Zle_Qle. lia.
        + assert (n = 1) by (unfold prec in *; nia). subst n.
          replace (ceil_div total size) with 1 by lia.
          specialize (Hbl ltac:(lia)). fold Qb in Hbl.
          rewrite Has.
          assert (inject_Z total <= inject_Z (2 ^ prec))%Q
            by (rewrite <- Zle_Qle; unfold prec; lia).
          change (inject_Z 1) with 1%Q. lra.
      - (* the gap below x against the spacing of the grid *)
        apply (Qmult_le_r _ _ Qb HQb).
        setoid_replace ((x - inject_Z (n - 1)) * inject_Z (2 ^ 53) * Qb)%Q
          with ((x * Qb - inject_Z (n - 1) * Qb) * inject_Z (2 ^ 53))%Q by ring.
        rewrite Hxb.
        destruct (Z.le_gt_cases size (2 ^ prec)) as [Hsz|Hsz].
        + rewrite Has, (Hbs Hsz).
          rewrite <- inject_Z_mult. unfold Qminus.
          rewrite <- inject_Z_opp, <- inject_Z_plus, <- inject_Z_mult, <- Zle_Qle.
          unfold prec in *. nia.
        + assert (n = 1) by (unfold prec in *; nia).
          replace (n - 1) with 0 by lia.
          pose proof (F2Q_pos ma ea) as HQa. fold Qa in HQa.
          change (inject_Z 0) with 0%Q.
          change (inject_Z (2 ^ 53)) with (9007199254740992 # 1)%Q. lra.
      - (* x <= 2 ^ 53 *)
        apply (Qmult_le_r _ _ Qb HQb). rewrite Hxb.
        assert (H1 : (1 <= Qb)%Q).
        { destruct (Z.le_gt_cases size (2 ^ prec)) as [Hsz|Hsz].
          - rewrite (Hbs Hsz). change 1%Q with (inject_Z 1).
            rewrite <- Zle_Qle. lia.
          - specialize (Hbl ltac:(lia)). fold Qb in Hbl.
            change (inject_Z (2 ^ prec)) with (9007199254740992 # 1)%Q in Hbl. lra. }
        assert (Ha53 : (Qa <= inject_Z (2 ^ 53))%Q).
        { rewrite Has, <- Zle_Qle. lia. }
        change (inject_Z (2 ^ 53)) with (9007199254740992 # 1)%Q in *.
        assert (Hmul : ((9007199254740992 # 1) * 1 <= (9007199254740992 # 1) * Qb)%Q).
        { apply Qmult_le_l; lra. }
        lra. }
    apply Ceil_between; [lia| |].
    + rewrite (F2Q_rounded m e e1 He1). fold M. apply Hbetween.
    + rewrite (F2Q_rounded m e e1 He1). fold M. apply Hbetween.
Qed.

(** C2, as the code has it: in every answer of the contact list the
    page count is the exact ceiling of the item count over the size
    as long as the item count is at most [2 ^ 53]; the size is any
    positive [int]. *)
Theorem list_total_page_is_ceiling (DB B : Type)
    (contactUseCase : usecase.ContactUseCase.t DB)
    (ctx : fiber.Ctx.t B) (w w' : effect.World DB)
    (items : list model.ContactResponse.t) (paging : model.PageMetadata.t) :
  http.ContactController_List DB contactUseCase unrepresentable ctx w
  = (http.JSON (model.WebResponse.mk items (Some paging) EmptyString), w') ->
  0 <= model.PageMetadata.TotalItem paging <= 2 ^ 53 ->
  0 < model.PageMetadata.Size paging < 2 ^ 63 ->
  model.PageMetadata.TotalPage paging
  = ceil_div (model.PageMetadata.TotalItem paging)
             (model.PageMetadata.Size paging).
Proof.
  unfold http.ContactController_List, http.GetUser, effect.bind, effect.call,
    effect.ret, effect.Log_Error, effect.emit.
  destruct (fiber.Ctx.Locals_auth ctx) as [auth|]; [|discriminate].
  destruct (usecase.ContactUseCase.Search contactUseCase _ (effect.db w))
    as [[request [[responses total]|err]] d]; [|discriminate].
  intros Heq. injection Heq as _ <- _.
  cbn [model.PageMetadata.TotalItem model.PageMetadata.Size
       model.PageMetadata.TotalPage].
  apply TotalPage_exact.
Qed.

End TotalPageFacts.

(** ** The auth gate and the use cases over the store *)

Section ServiceFacts.

Import effect http service.

Variable new_id : list string -> string.
Variable uuid_New : list string -> uuid.UUID.
Variable valid_contact : model.CreateContactRequest.t -> bool.
Variable valid_address : model.CreateAddressRequest.t -> bool.
Variable valid_user : model.RegisterUserRequest.t -> bool.
Variable hash : string -> string.
Variable matches_filters :
  model.SearchContactRequest.t -> entity.Contact.t -> bool.
Variable unrepresentable : float64.t -> Z.

Let Contacts := ContactUseCase uuid_New valid_contact matches_filters.
Let Addresses := AddressUseCase uuid_New valid_address.
Let Users := UserUseCase new_id valid_user hash.

Lemma find_none_iff {A} (p : A -> bool) (l : list A) :
  find p l = None <-> (forall x, In x l -> p x = false).
Proof.
  split; [apply find_none|].
  induction l as [|a l IH]; simpl; intros H; [reflexivity|].
  rewrite (H a) by now left. apply IH. intros x Hx. apply H. now right.
Qed.

(** *** The token authenticator and the auth gate *)

Lemma Verify_unknown_token (st : Store) (token : string) :
  token = EmptyString
  \/ (forall u, In u (users st) -> entity.User.Token u <> token) ->
  User_Verify (model.VerifyUserRequest.mk token) st
  = (Err fiber.ErrUnauthorized, st).
Proof.
  intros H. unfold User_Verify. cbn [model.VerifyUserRequest.Token].
  destruct token as [|c token]; [reflexivity|].
  destruct H as [H|H]; [discriminate|].
  replace (find _ (users st)) with (@None entity.User.t); [reflexivity|].
  symmetry. apply find_none_iff. intros u Hu.
  apply String.eqb_neq. now apply H.
Qed.

Lemma Logout_unmatches (st : Store) (uid token : string) :
  (forall u, In u (users st) ->
             entity.User.Token u = token -> entity.User.ID u = uid) ->
  token = EmptyString
  \/ (forall u,
         In u (users (snd (User_Logout (model.LogoutUserRequest.mk uid) st))) ->
         entity.User.Token u <> token).
Proof.
  intros Honly.
  destruct token as [|c token]; [now left|right].
  unfold User_Logout. cbn [model.LogoutUserRequest.ID].
  destruct (find_user st uid) eqn:Hf; cbn [snd].
  - unfold replace_user. cbn [users]. intros u Hu.
    apply in_map_iff in Hu. destruct Hu as [v [<- Hv]].
    destruct (String.eqb (entity.User.ID v) uid) eqn:Hid.
    + cbn. discriminate.
    + intros Ht. apply String.eqb_neq in Hid. apply Hid.
      now apply Honly.
  - intros u Hu Ht.
    assert (Hid : entity.User.ID u = uid) by now apply Honly.
    unfold find_user in Hf.
    apply (proj1 (find_none_iff _ _)) with (x := u) in Hf; [|exact Hu].
    apply String.eqb_neq in Hf. contradiction.
Qed.

Lemma auth_gate_closed {B T} (next : fiber.Ctx.t B -> M Store (Response T))
    (ctx : fiber.Ctx.t B) (st : Store) (tr : list Event) :
  (let token := fiber.Ctx.Headers ctx "Authorization"%string in
   token = EmptyString
   \/ (forall u, In u (users st) -> entity.User.Token u <> token)) ->
  turned_away Users next ctx st tr.
Proof.
  intros H. unfold turned_away, middleware.NewAuth, bind, call, ret.
  cbn [db trace usecase.UserUseCase.Verify Users UserUseCase].
  rewrite (Verify_unknown_token st _ H). split; reflexivity.
Qed.

(** C3: a request to a protected route whose token is missing, or is
    the session token of no stored user, is answered with 401 and the
    controller is not run; so is a request that presents the token of
    a session after its user logged out (the token being held by no
    one else). *)
Theorem auth_gate_rejects_unknown_token {B T}
    (next : fiber.Ctx.t B -> M Store (Response T))
    (ctx : fiber.Ctx.t B) (st : Store) (tr : list Event) (uid : string) :
  let token := fiber.Ctx.Headers ctx "Authorization"%string in
  (token = EmptyString
   \/ (forall u, In u (users st) -> entity.User.Token u <> token) ->
   turned_away Users next ctx st tr)
  /\ ((forall u, In u (users st) ->
                 entity.User.Token u = token -> entity.User.ID u = uid) ->
      turned_away Users next ctx
        (snd (User_Logout (model.LogoutUserRequest.mk uid) st)) tr).
Proof.
  intros token. split; intros H.
  - now apply auth_gate_closed.
  - apply auth_gate_closed. now apply Logout_unmatches.
Qed.

(** *** Delete *)

Ltac run_delete :=
  cbv beta iota delta
    [ContactController_Delete AddressController_Delete
     GetUser fiber.Params bind ret call emit Log_Error data];
  cbn [fiber.Ctx.Locals_auth fiber.Ctx.RouteParams db trace fst snd
       usecase.ContactUseCase.Delete usecase.AddressUseCase.Delete].

Lemma find_contact_absent st userId id :
  no_contact_for st userId id -> find_contact st userId id = None.
Proof.
  intros H. apply find_none_iff. intros c Hc. unfold owned_contact.
  destruct (String.eqb_spec (entity.Contact.ID c) id) as [Hid|]; [|reflexivity].
  destruct (H c Hc Hid) as [Hu|Hd].
  - apply String.eqb_neq in Hu. now rewrite Hu.
  - destruct (entity.Contact.DeletedAt c); [|contradiction].
    now rewrite andb_false_r.
Qed.

Lemma find_address_absent st contactId id :
  no_address_for st contactId id -> find_address st contactId id = None.
Proof.
  intros H. apply find_none_iff. intros a Ha. unfold contact_address.
  destruct (String.eqb_spec (entity.Address.ID a) id) as [Hid|]; [|reflexivity].
  destruct (H a Ha Hid) as [Hu|Hd].
  - apply String.eqb_neq in Hu. now rewrite Hu.
  - destruct (entity.Address.DeletedAt a); [|contradiction].
    now rewrite andb_false_r.
Qed.

Lemma deleted_contact_absent st userId id :
  no_contact_for
    (snd (Contact_Delete (model.DeleteContactRequest.mk userId id) st))
    userId id.
Proof.
  unfold Contact_Delete. cbn [model.DeleteContactRequest.UserId
                              model.DeleteContactRequest.ID].
  destruct (find_contact st userId id) eqn:Hf; cbn [snd].
  - intros c Hc Hid. cbn [contacts] in Hc.
    apply in_map_iff in Hc. destruct Hc as [c0 [<- _]].
    unfold delete_contact in *.
    destruct (owned_contact userId id c0) eqn:Ho.
    + right. cbn. discriminate.
    + unfold owned_contact in Ho. rewrite Hid, String.eqb_refl in Ho.
      cbn [andb] in Ho. apply andb_false_iff in Ho. destruct Ho as [Ho|Ho].
      * left. now apply String.eqb_neq.
      * right. destruct (entity.Contact.DeletedAt c0); [discriminate|].
        discriminate.
  - intros c Hc Hid.
    apply (proj1 (find_none_iff _ _)) with (x := c) in Hf; [|exact Hc].
    unfold owned_contact in Hf. rewrite Hid, String.eqb_refl in Hf.
    cbn [andb] in Hf. apply andb_false_iff in Hf. destruct Hf as [Hf|Hf].
    + left. now apply String.eqb_neq.
    + right. destruct (entity.Contact.DeletedAt c); discriminate.
Qed.

Lemma deleted_address_absent us cs ads t n contactId id :
  find_address
    (mkStore us cs
       (map (delete_address_if (contact_address contactId id) t) ads) n)
    contactId id
  = None.
Proof.
  apply find_none_iff. cbn [addresses]. intros a Ha.
  apply in_map_iff in Ha. destruct Ha as [a0 [<- _]].
  unfold delete_address_if.
  destruct (contact_address contactId id a0 && live (entity.Address.DeletedAt a0))
    eqn:Hp.
  - unfold contact_address. cbn. apply andb_false_r.
  - destruct (contact_address contactId id a0) eqn:Hc; [|reflexivity].
    unfold contact_address in Hc. apply andb_prop in Hc. destruct Hc as [_ Hl].
    rewrite Hl in Hp. discriminate.
Qed.

Lemma Contact_Delete_twice request st :
  fst (Contact_Delete request (snd (Contact_Delete request st)))
  = Some fiber.ErrNotFound.
Proof.
  destruct request as [userId id].
  pose proof (find_contact_absent _ _ _ (deleted_contact_absent st userId id))
    as H.
  unfold Contact_Delete at 1.
  cbn [model.DeleteContactRequest.UserId model.DeleteContactRequest.ID].
  now rewrite H.
Qed.

Lemma Address_Delete_twice request st :
  fst (Address_Delete request (snd (Address_Delete request st)))
  = Some fiber.ErrNotFound.
Proof.
  destruct request as [userId contactId id].
  unfold Address_Delete.
  cbn [model.DeleteAddressRequest.UserId model.DeleteAddressRequest.ContactId
       model.DeleteAddressRequest.ID].
  destruct (find_contact st userId contactId) eqn:Hc; cbn [snd].
  - destruct (find_address st contactId id) eqn:Ha; cbn [snd].
    + unfold find_contact in *. cbn [contacts]. rewrite Hc.
      now rewrite deleted_address_absent.
    + now rewrite Hc, Ha.
  - now rewrite Hc.
Qed.

(** C4: deleting a contact or an address that is not there for the
    requesting user (unknown identifier, deleted entity, someone
    else's entity) ends in NotFound and changes nothing; deleting the
    same thing a second time ends in NotFound; and whatever the use
    case is, the handler answers [data = true] exactly when [Delete]
    returned no error. *)
Theorem delete_absent_is_not_found
    (st : Store) (tr : list Event) (auth : model.Auth.t)
    (rp qa hd : string -> string) (B : Type) (body : option B) :
  let ctx := fiber.Ctx.mk (Some auth) body rp qa hd in
  let userId := model.Auth.ID auth in
  let contactId := rp "contactId"%string in
  let addressId := rp "addressId"%string in
  (no_contact_for st userId contactId ->
   ContactController_Delete Store Contacts ctx (mkWorld st tr)
   = (Fail fiber.ErrNotFound,
      mkWorld st
        (tr ++ [Called (ContactDelete
                          (model.DeleteContactRequest.mk userId contactId))]
            ++ [Logged ErrorLevel "error deleting contact"])))
  /\ (no_contact_for st userId contactId
      \/ no_address_for st contactId addressId ->
      AddressController_Delete Store Addresses ctx (mkWorld st tr)
      = (Fail fiber.ErrNotFound,
         mkWorld st
           (tr ++ [Called (AddressDelete
                             (model.DeleteAddressRequest.mk
                                userId contactId addressId))]
               ++ [Logged ErrorLevel "failed to delete address"])))
  /\ (forall request,
         fst (Contact_Delete request (snd (Contact_Delete request st)))
         = Some fiber.ErrNotFound)
  /\ (forall request,
         fst (Address_Delete request (snd (Address_Delete request st)))
         = Some fiber.ErrNotFound)
  /\ (forall DB (uc : usecase.ContactUseCase.t DB) (w : World DB),
         fst (ContactController_Delete DB uc ctx w) = JSON (data true)
         <-> fst (usecase.ContactUseCase.Delete uc
                    (model.DeleteContactRequest.mk userId contactId) (db w))
             = None)
  /\ (forall DB (uc : usecase.AddressUseCase.t DB) (w : World DB),
         fst (AddressController_Delete DB uc ctx w) = JSON (data true)
         <-> fst (usecase.AddressUseCase.Delete uc
                    (model.DeleteAddressRequest.mk userId contactId addressId)
                    (db w))
             = None).
Proof.
  intros ctx userId contactId addressId. subst ctx.
  split; [|split; [|split; [|split; [|split]]]].
  - intros H. run_delete. unfold Contacts, ContactUseCase, Contact_Delete.
    cbn [usecase.ContactUseCase.Delete model.DeleteContactRequest.UserId
         model.DeleteContactRequest.ID].
    fold userId contactId. rewrite (find_contact_absent _ _ _ H).
    cbn [db trace]. now rewrite <- app_assoc.
  - intros H. run_delete. unfold Addresses, AddressUseCase, Address_Delete.
    cbn [usecase.AddressUseCase.Delete model.DeleteAddressRequest.UserId
         model.DeleteAddressRequest.ContactId model.DeleteAddressRequest.ID].
    fold userId contactId addressId.
    destruct H as [H|H].
    + rewrite (find_contact_absent _ _ _ H).
      cbn [db trace]. now rewrite <- app_assoc.
    + rewrite (find_address_absent _ _ _ H).
      destruct (find_contact st userId contactId);
        cbn [db trace]; now rewrite <- app_assoc.
  - intros request. apply Contact_Delete_twice.
  - intros request. apply Address_Delete_twice.
  - intros DB uc w. run_delete. fold userId contactId.
    destruct (usecase.ContactUseCase.Delete uc _ (db w)) as [[err|] d];
      cbn [fst]; split; intros H; try reflexivity; discriminate.
  - intros DB uc w. run_delete. fold userId contactId addressId.
    destruct (usecase.AddressUseCase.Delete uc _ (db w)) as [[err|] d];
      cbn [fst]; split; intros H; try reflexivity; discriminate.
Qed.

(** *** Listing *)

Lemma List_over_store {B} (st : Store) (tr : list Event)
    (auth : model.Auth.t) (body : option B) (rp qa hd : string -> string) :
  let ctx := fiber.Ctx.mk (Some auth) body rp qa hd in
  let request := search_request auth ctx in
  let found := matching matches_filters request st in
  let total := Z.of_nat (List.length found) in
  ContactController_List Store Contacts unrepresentable ctx (mkWorld st tr)
  = (JSON
       (model.WebResponse.mk
          (map converter.ContactToResponse
             (page_of (model.SearchContactRequest.Page request)
                (effective_size (model.SearchContactRequest.Size request))
                found))
          (Some
             {| model.PageMetadata.Page := model.SearchContactRequest.Page request;
                model.PageMetadata.Size :=
                  effective_size (model.SearchContactRequest.Size request);
                model.PageMetadata.TotalItem := total;
                model.PageMetadata.TotalPage :=
                  TotalPage unrepresentable total
                    (effective_size
                       (model.SearchContactRequest.Size request)) |})
          EmptyString),
     mkWorld st (tr ++ [Called (ContactSearch request)])).
Proof. reflexivity. Qed.

Lemma page_of_length {A} (page size : Z) (l : list A) :
  List.length (page_of page size l)
  = Nat.min (Z.to_nat size) (List.length l - Z.to_nat ((page - 1) * size)).
Proof. unfold page_of. now rewrite length_firstn, length_skipn. Qed.

Lemma page_of_beyond {A} (page size : Z) (l : list A) :
  0 < size ->
  ceil_div (Z.of_nat (List.length l)) size < page ->
  page_of page size l = [].
Proof.
  intros Hs Hp. apply length_zero_iff_nil. rewrite page_of_length.
  unfold ceil_div in Hp.
  set (t := Z.of_nat (List.length l)) in *.
  assert (Ht : t <= (page - 1) * size).
  { pose proof (Z.div_mod (t + size - 1) size ltac:(lia)) as Hd.
    pose proof (Z.mod_pos_bound (t + size - 1) size Hs) as Hm.
    nia. }
  subst t. lia.
Qed.

Lemma effective_size_pos size : 0 < effective_size size.
Proof.
  unfold effective_size, default_size.
  destruct (size <=? 0) eqn:H; lia.
Qed.

Lemma TotalPage_25_10 : TotalPage unrepresentable 25 10 = 3.
Proof. vm_compute. reflexivity. Qed.

(** C6: a page beyond the last one comes back empty and without an
    error; with 25 matching contacts and size 10, page 1 holds 10
    items and the page count is 3, page 3 holds 5 items and page 4
    none. *)
Theorem page_beyond_last_is_empty {B} (st : Store) (tr : list Event)
    (auth : model.Auth.t) (body : option B) (rp qa hd : string -> string) :
  let ctx := fiber.Ctx.mk (Some auth) body rp qa hd in
  let request := search_request auth ctx in
  let page := model.SearchContactRequest.Page request in
  let size := model.SearchContactRequest.Size request in
  let total := Z.of_nat (List.length (matching matches_filters request st)) in
  exists items paging,
    fst (ContactController_List Store Contacts unrepresentable ctx
           (mkWorld st tr))
    = JSON (model.WebResponse.mk items (Some paging) EmptyString)
    /\ (ceil_div total (effective_size size) < page -> items = [])
    /\ (total = 25 -> size = 10 ->
        (page = 1 ->
         List.length items = 10%nat
         /\ model.PageMetadata.TotalPage paging = 3)
        /\ (page = 3 -> List.length items = 5%nat)
        /\ (page = 4 -> items = [])).
Proof.
  intros ctx request page size total.
  eexists. eexists. split; [unfold ctx; rewrite List_over_store; reflexivity|].
  fold ctx request. fold page size. cbn [model.PageMetadata.TotalPage].
  fold total. split.
  - intros Hp. unfold total in Hp.
    rewrite page_of_beyond; [reflexivity|apply effective_size_pos|exact Hp].
  - intros Ht Hs. rewrite Hs, Ht.
    assert (Hl : List.length (matching matches_filters request st) = 25%nat)
      by (unfold total in Ht; lia).
    split; [|split].
    + intros ->. split; [|apply TotalPage_25_10].
      rewrite length_map, page_of_length, Hl. reflexivity.
    + intros ->. rewrite length_map, page_of_length, Hl. reflexivity.
    + intros ->. apply length_zero_iff_nil.
      rewrite length_map, page_of_length, Hl. reflexivity.
Qed.

(** C1: with a size parameter of zero or less the search goes on as
    if the default size had been supplied: the page is the one a size
    of 10 gives and holds at most 10 items, and the paging metadata
    carry the size 10 and the page count computed with 10, which is
    the ceiling of the count over 10 up to [2 ^ 53] items. *)
Theorem nonpositive_size_pages_by_default {B} (st : Store) (tr : list Event)
    (auth : model.Auth.t) (body : option B) (rp qa hd : string -> string) :
  let ctx := fiber.Ctx.mk (Some auth) body rp qa hd in
  let request := search_request auth ctx in
  let page := model.SearchContactRequest.Page request in
  let size := model.SearchContactRequest.Size request in
  size <= 0 ->
  exists items paging,
    fst (ContactController_List Store Contacts unrepresentable ctx
           (mkWorld st tr))
    = JSON (model.WebResponse.mk items (Some paging) EmptyString)
    /\ items = map converter.ContactToResponse
                 (page_of page 10 (matching matches_filters request st))
    /\ (List.length items <= 10)%nat
    /\ model.PageMetadata.Size paging = 10
    /\ model.PageMetadata.TotalPage paging
       = TotalPage unrepresentable (model.PageMetadata.TotalItem paging) 10
    /\ (model.PageMetadata.TotalItem paging <= 2 ^ 53 ->
        model.PageMetadata.TotalPage paging
        = ceil_div (model.PageMetadata.TotalItem paging) 10).
Proof.
  intros ctx request page size Hs.
  eexists. eexists. split; [unfold ctx; rewrite List_over_store; reflexivity|].
  fold ctx request. fold page size.
  cbn [model.PageMetadata.Size model.PageMetadata.TotalPage
       model.PageMetadata.TotalItem].
  assert (He : effective_size size = 10).
  { unfold effective_size, default_size.
    destruct (size <=? 0) eqn:H; [reflexivity|lia]. }
  rewrite He. repeat split.
  - rewrite length_map, page_of_length. change (Z.to_nat 10) with 10%nat. lia.
  - intros Ht. apply (TotalPage_exact unrepresentable); lia.
Qed.

(** *** Create, then Get *)

Lemma hex_length (n : nat) (v : Z) : List.length (uuid.hex n v) = n.
Proof.
  revert v. induction n as [|n IH]; intros v; [reflexivity|].
  cbn [uuid.hex]. rewrite length_app, IH. cbn [List.length]. lia.
Qed.

Lemma string_of_list_ascii_length (l : list ascii) :
  String.length (string_of_list_ascii l) = List.length l.
Proof. induction l as [|a l IH]; [reflexivity|]. simpl. now rewrite IH. Qed.

(** The text of a UUID has 36 characters. *)
Lemma uuid_String_length (u : uuid.UUID) :
  String.length (uuid.String u) = 36%nat.
Proof.
  unfold uuid.String. rewrite string_of_list_ascii_length.
  repeat (rewrite ?length_app, ?hex_length; cbn [List.length]).
  reflexivity.
Qed.

Lemma uuid_String_nonempty (u : uuid.UUID) : uuid.String u <> EmptyString.
Proof.
  intros H. pose proof (uuid_String_length u) as Hl. rewrite H in Hl.
  discriminate Hl.
Qed.

Lemma find_app_last {A} (p : A -> bool) (l : list A) (x : A) :
  (forall y, In y l -> p y = false) -> p x = true ->
  find p (l ++ [x]) = Some x.
Proof.
  intros Hl Hx. induction l as [|a l IH]; simpl.
  - now rewrite Hx.
  - rewrite (Hl a) by now left. apply IH. intros y Hy. apply Hl. now right.
Qed.

Lemma find_contact_ID st userId id c :
  find_contact st userId id = Some c -> entity.Contact.ID c = id.
Proof.
  intros H. apply find_some in H. destruct H as [_ H].
  unfold owned_contact in H.
  apply andb_prop in H. destruct H as [H _].
  apply andb_prop in H. destruct H as [H _].
  now apply String.eqb_eq.
Qed.

(** An identifier the store does not refuse is the identifier of no
    row. *)
Lemma not_taken {A} (f : A -> string) (l : list A) (id : string) :
  taken id (map f l) = false ->
  forall y, In y l -> String.eqb (f y) id = false.
Proof.
  intros H y Hy. destruct (String.eqb (f y) id) eqn:E; [|reflexivity].
  apply String.eqb_eq in E.
  assert (Ht : taken id (map f l) = true).
  { apply existsb_exists. exists (f y). split; [now apply in_map|].
    rewrite E. apply String.eqb_refl. }
  congruence.
Qed.

Lemma taken_iff (id : string) (ids : list string) :
  taken id ids = false <-> ~ In id ids.
Proof.
  unfold taken. split.
  - intros H Hin.
    assert (Ht : existsb (String.eqb id) ids = true)
      by (apply existsb_exists; exists id; split;
          [exact Hin|apply String.eqb_refl]).
    congruence.
  - intros H. destruct (existsb (String.eqb id) ids) eqn:E; [|reflexivity].
    apply existsb_exists in E. destruct E as (x & Hx & Heq).
    apply String.eqb_eq in Heq. subst x. contradiction.
Qed.

Ltac run_crud :=
  cbv beta iota delta
    [ContactController_Create ContactController_Get
     AddressController_Create AddressController_Get
     GetUser fiber.BodyParser fiber.Params bind ret call emit Log_Error data];
  cbn [fiber.Ctx.Locals_auth fiber.Ctx.Body fiber.Ctx.RouteParams db trace
       fst snd Contacts Addresses ContactUseCase AddressUseCase
       usecase.ContactUseCase.Create usecase.ContactUseCase.Get
       usecase.AddressUseCase.Create usecase.AddressUseCase.Get].

(** The contact a successful Create leaves in the store, and the Get
    that reads it back. *)
Lemma Contact_Create_read_back (request : model.CreateContactRequest.t)
    (st st1 : Store) (response : model.ContactResponse.t) :
  Contact_Create uuid_New valid_contact request st = (Ok response, st1) ->
  exists contact,
    response = converter.ContactToResponse contact
    /\ entity.Contact.ID contact
       = uuid.String (uuid_New (map entity.Contact.ID (contacts st)))
    /\ stores_contact (model.CreateContactRequest.UserId request) request
         contact
    /\ st1 = mkStore (users st) (contacts st ++ [contact]) (addresses st)
               (now st)
    /\ find_contact st1 (model.CreateContactRequest.UserId request)
         (model.ContactResponse.ID response) = Some contact.
Proof.
  unfold Contact_Create. destruct (valid_contact request); [|discriminate].
  cbv zeta. cbn [entity.Contact.ID].
  destruct (taken _ _) eqn:Htaken; [discriminate|].
  intros H. injection H as <- <-.
  eexists. split; [reflexivity|]. split; [reflexivity|].
  split; [repeat split|]. split; [reflexivity|].
  unfold find_contact. cbn [contacts converter.ContactToResponse
                            model.ContactResponse.ID entity.Contact.ID].
  apply find_app_last.
  - intros y Hy. unfold owned_contact.
    now rewrite (not_taken entity.Contact.ID (contacts st) _ Htaken y Hy).
  - unfold owned_contact.
    cbn [entity.Contact.ID entity.Contact.UserId entity.Contact.DeletedAt
         live].
    now rewrite !String.eqb_refl.
Qed.

Lemma Address_Create_read_back (request : model.CreateAddressRequest.t)
    (st st1 : Store) (response : model.AddressResponse.t) :
  Address_Create uuid_New valid_address request st = (Ok response, st1) ->
  exists contact address,
    find_contact st (model.CreateAddressRequest.UserId request)
      (model.CreateAddressRequest.ContactId request) = Some contact
    /\ response = converter.AddressToResponse address
    /\ entity.Address.ID address
       = uuid.String (uuid_New (map entity.Address.ID (addresses st)))
    /\ stores_address (model.CreateAddressRequest.ContactId request) request
         address
    /\ st1 = mkStore (users st) (contacts st) (addresses st ++ [address])
               (now st)
    /\ find_address st1 (entity.Contact.ID contact)
         (model.AddressResponse.ID response) = Some address.
Proof.
  unfold Address_Create.
  destruct (find_contact st _ _) as [contact|] eqn:Hc; [|discriminate].
  destruct (valid_address request); [|discriminate].
  cbv zeta. cbn [entity.Address.ID].
  destruct (taken _ _) eqn:Htaken; [discriminate|].
  intros H. injection H as <- <-.
  pose proof (find_contact_ID _ _ _ _ Hc) as Hid.
  exists contact. eexists. split; [reflexivity|]. split; [reflexivity|].
  split; [reflexivity|].
  split; [repeat split; cbn [entity.Address.ContactId]; exact Hid|].
  split; [reflexivity|].
  unfold find_address. cbn [addresses converter.AddressToResponse
                            model.AddressResponse.ID entity.Address.ID].
  apply find_app_last.
  - intros y Hy. unfold contact_address.
    now rewrite (not_taken entity.Address.ID (addresses st) _ Htaken y Hy).
  - unfold contact_address.
    cbn [entity.Address.ID entity.Address.ContactId entity.Address.DeletedAt
         live].
    now rewrite !String.eqb_refl.
Qed.

(** C7: whenever Create answers with a resource, the identifier of
    the resource is not empty (it is the text of a UUID, 36 characters
    long), and a Get with that identifier, by the same user (and under
    the same contact for an address), answers with the same resource.
    The resource shows an entity of the store field by field, as the
    converters do for every entity, and that entity has the fields of
    the body.  A valid request is answered with a resource unless the
    store holds the identifier that was drawn. *)
Theorem created_resource_is_read_back
    (st : Store) (tr : list Event) (auth : model.Auth.t)
    (rp qa hd : string -> string) :
  let userId := model.Auth.ID auth in
  (forall (body : model.CreateContactRequest.t) response w1,
      ContactController_Create Store Contacts
        (fiber.Ctx.mk (Some auth) (Some body) rp qa hd) (mkWorld st tr)
      = (JSON (data response), w1) ->
      model.ContactResponse.ID response <> EmptyString
      /\ String.length (model.ContactResponse.ID response) = 36%nat
      /\ (forall B (body' : option B) (rp' qa' hd' : string -> string),
             rp' "contactId"%string = model.ContactResponse.ID response ->
             exists tr2,
               ContactController_Get Store Contacts
                 (fiber.Ctx.mk (Some auth) body' rp' qa' hd') w1
               = (JSON (data response), mkWorld (db w1) tr2))
      /\ exists contact,
            In contact (contacts (db w1))
            /\ shows_contact response contact
            /\ stores_contact userId body contact)
  /\ (forall (body : model.CreateAddressRequest.t) response w1,
         AddressController_Create Store Addresses
           (fiber.Ctx.mk (Some auth) (Some body) rp qa hd) (mkWorld st tr)
         = (JSON (data response), w1) ->
         model.AddressResponse.ID response <> EmptyString
         /\ String.length (model.AddressResponse.ID response) = 36%nat
         /\ (forall B (body' : option B) (rp' qa' hd' : string -> string),
                rp' "contactId"%string = rp "contactId"%string ->
                rp' "addressId"%string = model.AddressResponse.ID response ->
                exists tr2,
                  AddressController_Get Store Addresses
                    (fiber.Ctx.mk (Some auth) body' rp' qa' hd') w1
                  = (JSON (data response), mkWorld (db w1) tr2))
         /\ exists address,
               In address (addresses (db w1))
               /\ shows_address response address
               /\ stores_address (rp "contactId"%string) body address)
  /\ (forall (body : model.CreateContactRequest.t),
         valid_contact
           (model.CreateContactRequest.mk userId
              (model.CreateContactRequest.FirstName body)
              (model.CreateContactRequest.LastName body)
              (model.CreateContactRequest.Email body)
              (model.CreateContactRequest.Phone body)) = true ->
         ~ In (uuid.String (uuid_New (map entity.Contact.ID (contacts st))))
              (map entity.Contact.ID (contacts st)) ->
         exists response w1,
           ContactController_Create Store Contacts
             (fiber.Ctx.mk (Some auth) (Some body) rp qa hd) (mkWorld st tr)
           = (JSON (data response), w1))
  /\ (forall (body : model.CreateAddressRequest.t) (contact : entity.Contact.t),
         find_contact st userId (rp "contactId"%string) = Some contact ->
         valid_address
           (model.CreateAddressRequest.mk userId (rp "contactId"%string)
              (model.CreateAddressRequest.Street body)
              (model.CreateAddressRequest.City body)
              (model.CreateAddressRequest.Province body)
              (model.CreateAddressRequest.PostalCode body)
              (model.CreateAddressRequest.Country body)) = true ->
         ~ In (uuid.String (uuid_New (map entity.Address.ID (addresses st))))
              (map entity.Address.ID (addresses st)) ->
         exists response w1,
           AddressController_Create Store Addresses
             (fiber.Ctx.mk (Some auth) (Some body) rp qa hd) (mkWorld st tr)
           = (JSON (data response), w1))
  /\ (forall c, shows_contact (converter.ContactToResponse c) c)
  /\ (forall a, shows_address (converter.AddressToResponse a) a).
Proof.
  intros userId.
  split; [|split; [|split; [|split; [|split; intros; repeat split]]]].
  - intros body response w1. run_crud.
    destruct (Contact_Create uuid_New valid_contact _ st)
      as [[created|err] st1] eqn:Hcreate; cbn [db trace fst snd];
      [|discriminate].
    intros H. injection H as -> <-.
    destruct (Contact_Create_read_back _ _ _ _ Hcreate)
      as (contact & -> & Hid & Hstored & -> & Hfind).
    cbn [model.CreateContactRequest.UserId] in Hstored, Hfind. fold userId in Hfind.
    cbn [converter.ContactToResponse model.ContactResponse.ID] in *.
    split; [rewrite Hid; apply uuid_String_nonempty|].
    split; [rewrite Hid; apply uuid_String_length|]. split.
    + intros B body' rp' qa' hd' Hrp. run_crud. rewrite Hrp.
      unfold Contact_Get.
      cbn [model.GetContactRequest.UserId model.GetContactRequest.ID].
      fold userId. rewrite Hfind. cbn [db trace]. eexists. reflexivity.
    + exists contact. cbn [db contacts]. split; [|split].
      * apply in_or_app. right. now left.
      * repeat split.
      * exact Hstored.
  - intros body response w1. run_crud.
    destruct (Address_Create uuid_New valid_address _ st)
      as [[created|err] st1] eqn:Hcreate; cbn [db trace fst snd];
      [|discriminate].
    intros H. injection H as -> <-.
    destruct (Address_Create_read_back _ _ _ _ Hcreate)
      as (contact & address & Hc & -> & Hid & Hstored & -> & Hfind).
    cbn [model.CreateAddressRequest.UserId
         model.CreateAddressRequest.ContactId] in Hc, Hstored.
    fold userId in Hc.
    cbn [converter.AddressToResponse model.AddressResponse.ID] in *.
    split; [rewrite Hid; apply uuid_String_nonempty|].
    split; [rewrite Hid; apply uuid_String_length|]. split.
    + intros B body' rp' qa' hd' Hcid Hrp. run_crud. rewrite Hrp, Hcid.
      unfold Address_Get.
      cbn [model.GetAddressRequest.UserId model.GetAddressRequest.ID
           model.GetAddressRequest.ContactId].
      fold userId.
      change (find_contact (mkStore (users st) (contacts st)
                              (addresses st ++ [address]) (now st))
                userId (rp "contactId"%string))
        with (find_contact st userId (rp "contactId"%string)).
      rewrite Hc, Hfind. cbn [db trace]. eexists. reflexivity.
    + exists address. cbn [db addresses]. split; [|split].
      * apply in_or_app. right. now left.
      * repeat split.
      * exact Hstored.
  - intros body Hvalid Hfree. run_crud. unfold Contact_Create. fold userId.
    rewrite Hvalid. cbv zeta. cbn [entity.Contact.ID].
    apply taken_iff in Hfree. rewrite Hfree. cbn [db trace].
    eexists. eexists. reflexivity.
  - intros body contact Hc Hvalid Hfree. run_crud. unfold Address_Create.
    cbn [model.CreateAddressRequest.UserId model.CreateAddressRequest.ContactId].
    fold userId. rewrite Hc, Hvalid. cbv zeta. cbn [entity.Address.ID].
    apply taken_iff in Hfree. rewrite Hfree. cbn [db trace].
    eexists. eexists. reflexivity.
Qed.

End ServiceFacts.


(** ** The properties on the concrete store *)

(** A stale token is turned away, and so is Alice's own token once she
    has logged out. *)
Lemma auth_gate_rejects_unknown_token_witness :
  let next := fun _ : fiber.Ctx.t unit =>
                @effect.ret service.Store _ (http.JSON (http.data true)) in
  turned_away demo.Users next
    (fiber.Ctx.mk None None demo.no_params demo.no_params (demo.header "stale"))
    demo.store []
  /\ turned_away demo.Users next
       (fiber.Ctx.mk None None demo.no_params demo.no_params
          (demo.header "token-alice"))
       (snd (service.User_Logout (model.LogoutUserRequest.mk "alice") demo.store))
       [].
Proof.
  intros next. split.
  - apply (proj1 (auth_gate_rejects_unknown_token demo.longer_id demo.accept_all
                    demo.plain next
                    (fiber.Ctx.mk None None demo.no_params demo.no_params
                       (demo.header "stale"))
                    demo.store [] "alice"%string)).
    right. intros u [<-|[]]. simpl. discriminate.
  - apply (proj2 (auth_gate_rejects_unknown_token demo.longer_id demo.accept_all
                    demo.plain next
                    (fiber.Ctx.mk None None demo.no_params demo.no_params
                       (demo.header "token-alice"))
                    demo.store [] "alice"%string)).
    intros u [<-|[]] _. reflexivity.
Defined.

(** Deleting in a store without contacts. *)
Lemma delete_absent_is_not_found_witness :
  let st := service.mkStore [demo.alice] [] [] 2 in
  let ctx := fiber.Ctx.mk (B:=unit) (Some demo.as_alice) None
               (demo.param "A") demo.no_params demo.no_params in
  fst (http.ContactController_Delete service.Store demo.Contacts ctx
         (effect.mkWorld st []))
  = http.Fail fiber.ErrNotFound
  /\ fst (http.AddressController_Delete service.Store
            (service.AddressUseCase demo.counting demo.accept_all) ctx
            (effect.mkWorld st []))
     = http.Fail fiber.ErrNotFound.
Proof.
  intros st ctx.
  pose proof (delete_absent_is_not_found demo.counting demo.accept_all
                demo.accept_all demo.no_filter st [] demo.as_alice
                (demo.param "A") demo.no_params demo.no_params unit None)
    as [Hc [Ha _]].
  split.
  - unfold ctx, demo.Contacts. rewrite Hc; [reflexivity|].
    intros c [].
  - unfold ctx. rewrite Ha; [reflexivity|].
    left. intros c [].
Defined.

(** Page 4 of Alice's 25 contacts, ten to a page. *)
Lemma page_beyond_last_is_empty_witness :
  exists paging,
    fst (http.ContactController_List service.Store demo.Contacts demo.amd64
           (fiber.Ctx.mk (B:=unit) (Some demo.as_alice) None demo.no_params
              (demo.query "4" "10") demo.no_params)
           (effect.mkWorld demo.store []))
    = http.JSON (model.WebResponse.mk [] (Some paging) EmptyString).
Proof.
  destruct (page_beyond_last_is_empty demo.counting demo.accept_all
              demo.no_filter demo.amd64 demo.store [] demo.as_alice
              (@None unit) demo.no_params (demo.query "4" "10") demo.no_params)
    as (items & paging & Heq & Hbeyond & _).
  exists paging. rewrite <- Hbeyond; [exact Heq|].
  vm_compute. reflexivity.
Defined.

(** The same list asked with [size=0]: ten items, size 10, 3 pages. *)
Lemma nonpositive_size_pages_by_default_witness :
  exists items paging,
    fst (http.ContactController_List service.Store demo.Contacts demo.amd64
           (fiber.Ctx.mk (B:=unit) (Some demo.as_alice) None demo.no_params
              (demo.query "1" "0") demo.no_params)
           (effect.mkWorld demo.store []))
    = http.JSON (model.WebResponse.mk items (Some paging) EmptyString)
    /\ List.length items = 10%nat
    /\ model.PageMetadata.Size paging = 10
    /\ model.PageMetadata.TotalPage paging = 3.
Proof.
  destruct (nonpositive_size_pages_by_default demo.counting demo.accept_all
              demo.no_filter demo.amd64 demo.store [] demo.as_alice
              (@None unit) demo.no_params (demo.query "1" "0") demo.no_params)
    as (items & paging & Heq & Hitems & _ & Hsize & Hcomputed & Hceil).
  - vm_compute. discriminate.
  - exists items, paging.
    split; [exact Heq|]. split; [rewrite Hitems; reflexivity|].
    split; [exact Hsize|].
    rewrite Hceil; [|rewrite Hcomputed in Hceil].
    + injection Heq as _ Hp. rewrite <- Hp. reflexivity.
    + injection Heq as _ Hp. rewrite <- Hp. vm_compute. discriminate.
Defined.

(** Alice creates a contact and reads it back, then an address under
    her contact [A]. *)
Lemma created_resource_is_read_back_witness :
  (exists response w1 tr2,
      http.ContactController_Create service.Store demo.Contacts
        (fiber.Ctx.mk (Some demo.as_alice)
           (Some (model.CreateContactRequest.mk "mallory" "Ann" "Lee"
                    "ann@example.com" "555-0100"))
           demo.no_params demo.no_params demo.no_params)
        (effect.mkWorld demo.store [])
      = (http.JSON (http.data response), w1)
      /\ model.ContactResponse.ID response
         = "00000000-0000-0000-0000-000000000019"%string
      /\ http.ContactController_Get service.Store demo.Contacts
           (fiber.Ctx.mk (B:=unit) (Some demo.as_alice) None
              (demo.param (model.ContactResponse.ID response))
              demo.no_params demo.no_params) w1
         = (http.JSON (http.data response), effect.mkWorld (effect.db w1) tr2))
  /\ (exists response w1 tr2,
         http.AddressController_Create service.Store demo.Addresses
           (fiber.Ctx.mk (Some demo.as_alice)
              (Some (model.CreateAddressRequest.mk "mallory" "Z" "1 Main St"
                       "Springfield" "IL" "62701" "US"))
              (demo.param "A") demo.no_params demo.no_params)
           (effect.mkWorld demo.store [])
         = (http.JSON (http.data response), w1)
         /\ String.length (model.AddressResponse.ID response) = 36%nat
         /\ http.AddressController_Get service.Store demo.Addresses
              (fiber.Ctx.mk (B:=unit) (Some demo.as_alice) None
                 (demo.route "A" (model.AddressResponse.ID response))
                 demo.no_params demo.no_params) w1
            = (http.JSON (http.data response),
               effect.mkWorld (effect.db w1) tr2)).
Proof.
  pose proof (created_resource_is_read_back demo.counting demo.accept_all
                demo.accept_all demo.no_filter
                demo.store [] demo.as_alice) as H.
  split.
  - destruct (H demo.no_params demo.no_params demo.no_params)
      as (Hread & _ & Hmade & _).
    destruct (Hmade (model.CreateContactRequest.mk "mallory" "Ann" "Lee"
                       "ann@example.com" "555-0100") eq_refl)
      as (response & w1 & Heq).
    { vm_compute. intros Hin.
      repeat (destruct Hin as [Hin|Hin]; [discriminate Hin|]). exact Hin. }
    destruct (Hread _ response w1 Heq) as (_ & _ & Hget & _).
    destruct (Hget unit None (demo.param (model.ContactResponse.ID response))
                demo.no_params demo.no_params) as (tr2 & Hg).
    { unfold demo.param. reflexivity. }
    exists response, w1, tr2. split; [exact Heq|]. split; [|exact Hg].
    injection Heq as Hr _. rewrite <- Hr. vm_compute. reflexivity.
  - destruct (H (demo.param "A") demo.no_params demo.no_params)
      as (_ & Hread & _ & Hmade & _).
    destruct (Hmade (model.CreateAddressRequest.mk "mallory" "Z" "1 Main St"
                       "Springfield" "IL" "62701" "US")
                    (demo.contact_of "alice" 0) eq_refl eq_refl)
      as (response & w1 & Heq).
    { vm_compute. intros Hin. exact Hin. }
    destruct (Hread _ response w1 Heq) as (_ & Hlen & Hget & _).
    destruct (Hget unit None
                (demo.route "A" (model.AddressResponse.ID response))
                demo.no_params demo.no_params) as (tr2 & Hg).
    { reflexivity. }
    { unfold demo.route.
      destruct (model.AddressResponse.ID response); reflexivity. }
    exists response, w1, tr2. split; [exact Heq|]. split; [exact Hlen|exact Hg].
Defined.

(** Alice's first page, ten to a page: 25 items make 3 pages. *)
Lemma list_total_page_is_ceiling_witness :
  exists items paging w',
    http.ContactController_List service.Store demo.Contacts demo.amd64
      (fiber.Ctx.mk (B:=unit) (Some demo.as_alice) None demo.no_params
         (demo.query "1" "10") demo.no_params)
      (effect.mkWorld demo.store [])
    = (http.JSON (model.WebResponse.mk items (Some paging) EmptyString), w')
    /\ model.PageMetadata.TotalPage paging
       = ceil_div (model.PageMetadata.TotalItem paging)
                  (model.PageMetadata.Size paging).
Proof.
  eexists. eexists. eexists. split.
  - vm_compute. reflexivity.
  - eapply (list_total_page_is_ceiling demo.amd64 service.Store unit
              demo.Contacts
              (fiber.Ctx.mk (Some demo.as_alice) None demo.no_params
                 (demo.query "1" "10") demo.no_params)
              (effect.mkWorld demo.store [])).
    + vm_compute. reflexivity.
    + vm_compute. split; discriminate.
    + vm_compute. split; reflexivity.
Defined.

(** C2 as the specification has it fails: with [2 ^ 53 + 1] items and
    size 1 the handler reports [2 ^ 53] pages, one short of the
    ceiling, since [float64] holds no odd integer of that size. *)
Lemma list_total_page_counterexample :
  exists paging w',
    http.ContactController_List unit demo.huge_count demo.amd64
      (fiber.Ctx.mk (B:=unit) (Some demo.as_alice) None demo.no_params
         (demo.query "1" "1") demo.no_params)
      (effect.mkWorld tt [])
    = (http.JSON (model.WebResponse.mk [] (Some paging) EmptyString), w')
    /\ model.PageMetadata.TotalItem paging = 2 ^ 53 + 1
    /\ model.PageMetadata.Size paging = 1
    /\ model.PageMetadata.TotalPage paging = 2 ^ 53
    /\ model.PageMetadata.TotalPage paging
       <> ceil_div (model.PageMetadata.TotalItem paging)
                   (model.PageMetadata.Size paging).
Proof.
  eexists. eexists. split; [vm_compute; reflexivity|].
  cbn [model.PageMetadata.TotalItem model.PageMetadata.Size
       model.PageMetadata.TotalPage].
  repeat split. vm_compute. discriminate.
Qed.

(** * Further properties of the code *)

(** ** The messages of validation errors *)

Section MessageFacts.

Import config messages.

Variable table : rune -> rune.

Lemma snake_loop_later i s :
  snake_loop (S i) s []
  = flat_map (fun r => if isUpperASCII r then [underscore; r] else [r]) s.
Proof.
  revert i. induction s as [|v rest IH]; intros i; [reflexivity|].
  cbn [snake_loop flat_map]. rewrite snake_loop_acc, IH.
  change (0 <? S i)%nat with true. cbn [andb].
  destruct (isUpperASCII v); reflexivity.
Qed.

Lemma map_flat_map {A B C} (g : B -> C) (f : A -> list B) (l : list A) :
  map g (flat_map f l) = flat_map (fun a => map g (f a)) l.
Proof.
  induction l as [|a l IH]; [reflexivity|].
  cbn [flat_map]. now rewrite map_app, IH.
Qed.

Lemma length_flat_map_snake (f : rune -> rune) (s : list rune) :
  List.length
    (flat_map (fun r => if isUpperASCII r then [underscore; f r] else [f r]) s)
  = (List.length s + List.length (filter isUpperASCII s))%nat.
Proof.
  induction s as [|r s IH]; [reflexivity|].
  cbn [flat_map filter]. rewrite length_app, IH.
  destruct (isUpperASCII r); cbn [List.length]; lia.
Qed.

(** X9: the loop of [toSnakeCase] in closed form: the first rune is
    lower-cased, every later rune is lower-cased and, when it is one of
    [A]..[Z], preceded by an underscore; so the result is longer than
    the input by the number of such letters after the first rune, and
    the empty string stays empty. *)
Theorem toSnakeCase_closed_form :
  toSnakeCase table [] = []
  /\ (forall v rest,
         toSnakeCase table (v :: rest)
         = unicode_ToLower table v
           :: flat_map (fun r => if isUpperASCII r
                                 then [underscore; unicode_ToLower table r]
                                 else [unicode_ToLower table r]) rest)
  /\ (forall s,
         List.length (toSnakeCase table s)
         = (List.length s + List.length (filter isUpperASCII (tl s)))%nat).
Proof.
  assert (Hcons : forall v rest,
             toSnakeCase table (v :: rest)
             = unicode_ToLower table v
               :: flat_map (fun r => if isUpperASCII r
                                     then [underscore; unicode_ToLower table r]
                                     else [unicode_ToLower table r]) rest).
  { intros v rest. unfold toSnakeCase, strings_ToLower.
    cbn [snake_loop]. change (0 <? 0)%nat with false. cbn [andb app].
    rewrite snake_loop_acc, snake_loop_later, map_app, map_flat_map.
    cbn [map app]. f_equal. apply flat_map_ext. intros r.
    destruct (isUpperASCII r); reflexivity. }
  split; [reflexivity|]. split; [exact Hcons|].
  intros [|v rest]; [reflexivity|].
  rewrite Hcons. cbn [List.length tl]. now rewrite length_flat_map_snake.
Qed.

Lemma formatValidationError_text (e : FieldError.t) :
  exists text,
    formatValidationError table e
    = toSnakeCase table (FieldError.Field e) ++ lit " " ++ text
    /\ text <> [].
Proof.
  unfold formatValidationError.
  repeat match goal with
         | |- context [if eqs ?a ?b then _ else _] => destruct (eqs a b)
         end;
    eexists; (split; [cbn [lit list_ascii_of_string map app]; reflexivity
                     |discriminate]).
Qed.

Lemma formatValidationError_nonempty (e : FieldError.t) :
  formatValidationError table e <> [].
Proof.
  destruct (formatValidationError_text e) as (text & -> & _).
  intros H. apply app_eq_nil in H. destruct H as [_ H]. discriminate H.
Qed.

(** X10: the message of a field error is the snake-cased field name, a
    space and a text that is never empty; for a tag other than [min],
    [max] and [oneof] the parameter has no part in it. *)
Theorem formatValidationError_shape (field tag param : gostring) :
  (exists text,
      formatValidationError table (FieldError.mk field tag param)
      = toSnakeCase table field ++ lit " " ++ text
      /\ text <> [])
  /\ formatValidationError table (FieldError.mk field tag param) <> []
  /\ (tag <> lit "min" -> tag <> lit "max" -> tag <> lit "oneof" ->
      forall param',
        formatValidationError table (FieldError.mk field tag param')
        = formatValidationError table (FieldError.mk field tag param)).
Proof.
  split; [apply (formatValidationError_text (FieldError.mk field tag param))|].
  split; [apply formatValidationError_nonempty|].
  intros Hmin Hmax Hone param'. unfold formatValidationError, eqs.
  cbn [FieldError.Field FieldError.Tag FieldError.Param].
  repeat match goal with
         | |- context [list_eq_dec ?d ?a ?b] => destruct (list_eq_dec d a b)
         end; try reflexivity; contradiction.
Qed.

Lemma Join_cons (a : gostring) (rest : list gostring) (sep : gostring) :
  rest <> [] -> Join (a :: rest) sep = a ++ sep ++ Join rest sep.
Proof. destruct rest; [contradiction|reflexivity]. Qed.

Lemma Join_app (l1 l2 : list gostring) (sep : gostring) :
  l1 <> [] -> l2 <> [] ->
  Join (l1 ++ l2) sep = Join l1 sep ++ sep ++ Join l2 sep.
Proof.
  intros H1 H2. induction l1 as [|a l1 IH]; [contradiction|].
  destruct l1 as [|b l1].
  - cbn [app]. now rewrite Join_cons.
  - change ((a :: b :: l1) ++ l2) with (a :: (b :: l1) ++ l2).
    rewrite Join_cons by discriminate.
    rewrite IH by discriminate.
    rewrite (Join_cons a (b :: l1)) by discriminate.
    now rewrite <- !app_assoc.
Qed.

Lemma Join_nonempty (a : gostring) (rest : list gostring) (sep : gostring) :
  a <> [] -> Join (a :: rest) sep <> [].
Proof.
  intros Ha. destruct rest; cbn [Join]; [exact Ha|].
  intros H. apply app_eq_nil in H. now destruct H.
Qed.

(** X11: no error formats to the empty string, and so does a
    validation failure without field errors, and no other validation
    failure; the messages of the field errors are joined by [; ] in
    their order, so formatting two non-empty runs of field errors and
    joining the results is formatting them together; any other error
    formats to its own text. *)
Theorem FormatValidationErrors_joins :
  FormatValidationErrors table None = []
  /\ (forall es,
         FormatValidationErrors table (Some (ValidationErrors es)) = []
         <-> es = [])
  /\ (forall es1 es2,
         es1 <> [] -> es2 <> [] ->
         FormatValidationErrors table (Some (ValidationErrors (es1 ++ es2)))
         = FormatValidationErrors table (Some (ValidationErrors es1))
           ++ lit "; "
           ++ FormatValidationErrors table (Some (ValidationErrors es2)))
  /\ (forall e,
         FormatValidationErrors table (Some (ValidationErrors [e]))
         = formatValidationError table e)
  /\ (forall text,
         FormatValidationErrors table (Some (OtherError text)) = text).
Proof.
  split; [reflexivity|]. split; [|split; [|split; reflexivity]].
  - intros es. split.
    + destruct es as [|e es]; [reflexivity|].
      cbn [FormatValidationErrors map]. intros H.
      now apply Join_nonempty in H; [|apply formatValidationError_nonempty].
    + intros ->. reflexivity.
  - intros es1 es2 H1 H2. cbn [FormatValidationErrors].
    rewrite map_app. apply Join_app.
    + destruct es1; [contradiction|discriminate].
    + destruct es2; [contradiction|discriminate].
Qed.

End MessageFacts.

(** ** The handlers and their use cases *)

Section HandlerFacts.

Import effect http.

Variable DB : Type.
Variable contactUseCase : usecase.ContactUseCase.t DB.
Variable addressUseCase : usecase.AddressUseCase.t DB.
Variable userUseCase : usecase.UserUseCase.t DB.
Variable unrepresentable : float64.t -> Z.

Ltac step_handler :=
  cbv beta iota delta
    [ContactController_Create ContactController_List ContactController_Get
     ContactController_Update ContactController_Delete
     AddressController_Create AddressController_List AddressController_Get
     AddressController_Update AddressController_Delete
     UserController_Register UserController_Login UserController_Current
     UserController_Logout UserController_Update UserController_RefreshToken
     GetUser fiber.BodyParser fiber.Params bind ret call emit
     Log_Error Log_Warnf];
  cbn [fiber.Ctx.Locals_auth fiber.Ctx.Body fiber.Ctx.RouteParams
       fiber.Ctx.QueryArgs fiber.Ctx.Headers db trace fst snd].

Ltac relay :=
  step_handler; unfold relays, relayed, relayed_delete, listed;
  cbn [model.UpdateUserRequest.ID model.UpdateUserRequest.Password
       model.UpdateUserRequest.Name];
  repeat match goal with
         | |- context [?f ?r (db ?w)] =>
             lazymatch type of (f r (db w)) with
             | (_ * DB)%type => destruct (f r (db w)) as [? ?]
             end
         end;
  repeat match goal with
         | x : (_ * _)%type |- _ => destruct x
         | x : result _ |- _ => destruct x
         | x : option fiber.Error.t |- _ => destruct x
         end;
  cbn [fst snd db trace];
  rewrite ?calls_logged, ?calls_called; repeat split.

(** X1: behind the auth gate and with a body that parses, each handler
    of the contact controller but [List] runs its use-case method once,
    on the request it built, and answers with what came back: the
    response in the envelope, or the error unchanged; the store is left
    as the use case left it. *)
Theorem contact_handlers_relay (w : World DB) (auth : model.Auth.t)
    (rp qa hd : string -> string) :
  (forall body,
      let request :=
        model.CreateContactRequest.mk (model.Auth.ID auth)
          (model.CreateContactRequest.FirstName body)
          (model.CreateContactRequest.LastName body)
          (model.CreateContactRequest.Email body)
          (model.CreateContactRequest.Phone body) in
      relays (usecase.ContactUseCase.Create contactUseCase request) relayed
        (ContactCreate request) w
        (ContactController_Create DB contactUseCase
           (fiber.Ctx.mk (Some auth) (Some body) rp qa hd) w))
  /\ (forall body,
         let request :=
           model.UpdateContactRequest.mk (model.Auth.ID auth)
             (rp "contactId"%string)
             (model.UpdateContactRequest.FirstName body)
             (model.UpdateContactRequest.LastName body)
             (model.UpdateContactRequest.Email body)
             (model.UpdateContactRequest.Phone body) in
         relays (usecase.ContactUseCase.Update contactUseCase request) relayed
           (ContactUpdate request) w
           (ContactController_Update DB contactUseCase
              (fiber.Ctx.mk (Some auth) (Some body) rp qa hd) w))
  /\ (forall B (body : option B),
         let ctx := fiber.Ctx.mk (Some auth) body rp qa hd in
         let get :=
           model.GetContactRequest.mk (model.Auth.ID auth)
             (rp "contactId"%string) in
         let delete :=
           model.DeleteContactRequest.mk (model.Auth.ID auth)
             (rp "contactId"%string) in
         relays (usecase.ContactUseCase.Get contactUseCase get) relayed
           (ContactGet get) w (ContactController_Get DB contactUseCase ctx w)
         /\ relays (usecase.ContactUseCase.Delete contactUseCase delete)
              relayed_delete (ContactDelete delete) w
              (ContactController_Delete DB contactUseCase ctx w)).
Proof.
  repeat (intros; match goal with |- _ /\ _ => split end); intros;
    repeat match goal with x := _ |- _ => subst x end; relay.
Qed.

(** X2: the same for the five handlers of the address controller. *)
Theorem address_handlers_relay (w : World DB) (auth : model.Auth.t)
    (rp qa hd : string -> string) :
  (forall body,
      let request :=
        model.CreateAddressRequest.mk (model.Auth.ID auth)
          (rp "contactId"%string)
          (model.CreateAddressRequest.Street body)
          (model.CreateAddressRequest.City body)
          (model.CreateAddressRequest.Province body)
          (model.CreateAddressRequest.PostalCode body)
          (model.CreateAddressRequest.Country body) in
      relays (usecase.AddressUseCase.Create addressUseCase request) relayed
        (AddressCreate request) w
        (AddressController_Create DB addressUseCase
           (fiber.Ctx.mk (Some auth) (Some body) rp qa hd) w))
  /\ (forall body,
         let request :=
           model.UpdateAddressRequest.mk (model.Auth.ID auth)
             (rp "contactId"%string) (rp "addressId"%string)
             (model.UpdateAddressRequest.Street body)
             (model.UpdateAddressRequest.City body)
             (model.UpdateAddressRequest.Province body)
             (model.UpdateAddressRequest.PostalCode body)
             (model.UpdateAddressRequest.Country body) in
         relays (usecase.AddressUseCase.Update addressUseCase request) relayed
           (AddressUpdate request) w
           (AddressController_Update DB addressUseCase
              (fiber.Ctx.mk (Some auth) (Some body) rp qa hd) w))
  /\ (forall B (body : option B),
         let ctx := fiber.Ctx.mk (Some auth) body rp qa hd in
         let list :=
           model.ListAddressRequest.mk (model.Auth.ID auth)
             (rp "contactId"%string) in
         let get :=
           model.GetAddressRequest.mk (model.Auth.ID auth)
             (rp "contactId"%string) (rp "addressId"%string) in
         let delete :=
           model.DeleteAddressRequest.mk (model.Auth.ID auth)
             (rp "contactId"%string) (rp "addressId"%string) in
         relays (usecase.AddressUseCase.List addressUseCase list) relayed
           (AddressList list) w (AddressController_List DB addressUseCase ctx w)
         /\ relays (usecase.AddressUseCase.Get addressUseCase get) relayed
              (AddressGet get) w (AddressController_Get DB addressUseCase ctx w)
         /\ relays (usecase.AddressUseCase.Delete addressUseCase delete)
              relayed_delete (AddressDelete delete) w
              (AddressController_Delete DB addressUseCase ctx w)).
Proof.
  repeat (intros; match goal with |- _ /\ _ => split end); intros;
    repeat match goal with x := _ |- _ => subst x end; relay.
Qed.

(** X3: the six handlers of the user controller run their use-case
    method once and answer with what came back.  [Register], [Login]
    and [RefreshToken] hand over the parsed body as it is and do not
    look at the context; [Current] and [Logout] send the identifier of
    the authenticated user; [Update] replaces the [ID] of the body by
    it, so two bodies that differ in [ID] alone run alike. *)
Theorem user_handlers_relay (w : World DB) (rp qa hd : string -> string) :
  (forall (auth : option model.Auth.t) body,
      relays (usecase.UserUseCase.Create userUseCase body) relayed
        (UserCreate body) w
        (UserController_Register DB userUseCase
           (fiber.Ctx.mk auth (Some body) rp qa hd) w))
  /\ (forall (auth : option model.Auth.t) body,
         relays (usecase.UserUseCase.Login userUseCase body) relayed
           (UserLogin body) w
           (UserController_Login DB userUseCase
              (fiber.Ctx.mk auth (Some body) rp qa hd) w))
  /\ (forall (auth : option model.Auth.t) body,
         relays (usecase.UserUseCase.RefreshToken userUseCase body) relayed
           (UserRefreshToken body) w
           (UserController_RefreshToken DB userUseCase
              (fiber.Ctx.mk auth (Some body) rp qa hd) w))
  /\ (forall (auth : model.Auth.t) B (body : option B),
         let ctx := fiber.Ctx.mk (Some auth) body rp qa hd in
         let current := model.GetUserRequest.mk (model.Auth.ID auth) in
         let logout := model.LogoutUserRequest.mk (model.Auth.ID auth) in
         relays (usecase.UserUseCase.Current userUseCase current) relayed
           (UserCurrent current) w (UserController_Current DB userUseCase ctx w)
         /\ relays (usecase.UserUseCase.Logout userUseCase logout) relayed
              (UserLogout logout) w
              (UserController_Logout DB userUseCase ctx w))
  /\ (forall (auth : model.Auth.t) id password name,
         let request :=
           model.UpdateUserRequest.mk (model.Auth.ID auth) password name in
         relays (usecase.UserUseCase.Update userUseCase request) relayed
           (UserUpdate request) w
           (UserController_Update DB userUseCase
              (fiber.Ctx.mk (Some auth)
                 (Some (model.UpdateUserRequest.mk id password name))
                 rp qa hd) w))
  /\ (forall (auth : model.Auth.t) id id' password name,
         UserController_Update DB userUseCase
           (fiber.Ctx.mk (Some auth)
              (Some (model.UpdateUserRequest.mk id password name)) rp qa hd) w
         = UserController_Update DB userUseCase
             (fiber.Ctx.mk (Some auth)
                (Some (model.UpdateUserRequest.mk id' password name))
                rp qa hd) w).
Proof.
  repeat (intros; match goal with |- _ /\ _ => split end); intros;
    repeat match goal with x := _ |- _ => subst x end;
    first [reflexivity | relay].
Qed.

(** X4: [List] runs [Search] once on the request built from the query
    and answers with the items and the count as they came back, the
    page and the size of the request as it stands after the call, and
    the page count computed from that count and size; an error of
    [Search] is answered unchanged. *)
Theorem List_relays (w : World DB) (auth : model.Auth.t) (B : Type)
    (body : option B) (rp qa hd : string -> string) :
  let ctx := fiber.Ctx.mk (Some auth) body rp qa hd in
  let request := search_request auth ctx in
  relays (usecase.ContactUseCase.Search contactUseCase request)
    (listed unrepresentable) (ContactSearch request) w
    (ContactController_List DB contactUseCase unrepresentable ctx w).
Proof.
  intros ctx request. subst ctx request. unfold search_request. relay.
Qed.

(** X5: whatever the context holds, a handler calls no use case and
    leaves the store alone, or calls exactly one use-case method. *)
Theorem handlers_call_at_most_once (w : World DB) :
  (forall ctx, calls_at_most_once w
                 (ContactController_Create DB contactUseCase ctx w))
  /\ (forall B (ctx : fiber.Ctx.t B),
         calls_at_most_once w
           (ContactController_List DB contactUseCase unrepresentable ctx w)
         /\ calls_at_most_once w (ContactController_Get DB contactUseCase ctx w)
         /\ calls_at_most_once w
              (ContactController_Delete DB contactUseCase ctx w)
         /\ calls_at_most_once w (AddressController_List DB addressUseCase ctx w)
         /\ calls_at_most_once w (AddressController_Get DB addressUseCase ctx w)
         /\ calls_at_most_once w
              (AddressController_Delete DB addressUseCase ctx w)
         /\ calls_at_most_once w (UserController_Current DB userUseCase ctx w)
         /\ calls_at_most_once w (UserController_Logout DB userUseCase ctx w))
  /\ (forall ctx, calls_at_most_once w
                    (ContactController_Update DB contactUseCase ctx w))
  /\ (forall ctx, calls_at_most_once w
                    (AddressController_Create DB addressUseCase ctx w))
  /\ (forall ctx, calls_at_most_once w
                    (AddressController_Update DB addressUseCase ctx w))
  /\ (forall ctx, calls_at_most_once w
                    (UserController_Register DB userUseCase ctx w))
  /\ (forall ctx, calls_at_most_once w
                    (UserController_Login DB userUseCase ctx w))
  /\ (forall ctx, calls_at_most_once w
                    (UserController_Update DB userUseCase ctx w))
  /\ (forall ctx, calls_at_most_once w
                    (UserController_RefreshToken DB userUseCase ctx w)).
Proof.
  repeat (intros; match goal with |- _ /\ _ => split end); intros;
    destruct ctx as [[auth|] [body|] rp qa hd];
    step_handler; unfold calls_at_most_once;
    repeat match goal with
           | |- context [?f ?r (db ?w)] =>
               lazymatch type of (f r (db w)) with
               | (_ * DB)%type => destruct (f r (db w)) as [? ?]
               end
           end;
    repeat match goal with
           | x : (_ * _)%type |- _ => destruct x
           | x : result _ |- _ => destruct x
           | x : option fiber.Error.t |- _ => destruct x
           end;
    cbn [fst snd db trace];
    rewrite ?calls_logged, ?calls_called;
    first [left; split; reflexivity | right; eexists; reflexivity].
Qed.

(** X6: when the query holds no integer for [page] and [size] (the
    parameter is absent or not a number) [List] asks for page 1 of
    size 10, and an absent filter is the empty string. *)
Theorem List_query_defaults (w : World DB) (auth : model.Auth.t) (B : Type)
    (body : option B) (rp qa hd : string -> string) :
  fiber.Atoi (qa "page"%string) = None ->
  fiber.Atoi (qa "size"%string) = None ->
  qa "name"%string = EmptyString ->
  qa "email"%string = EmptyString ->
  qa "phone"%string = EmptyString ->
  reaches w
    (ContactController_List DB contactUseCase unrepresentable
       (fiber.Ctx.mk (Some auth) body rp qa hd) w)
    (ContactSearch
       (model.SearchContactRequest.mk (model.Auth.ID auth)
          EmptyString EmptyString EmptyString 1 10))
  /\ fiber.Atoi EmptyString = None.
Proof.
  intros Hp Hs Hn He Hph. split; [|reflexivity].
  step_handler. unfold reaches, fiber.Query, fiber.QueryInt.
  cbn [fiber.Ctx.QueryArgs]. rewrite Hp, Hs, Hn, He, Hph.
  destruct (usecase.ContactUseCase.Search contactUseCase _ (db w))
    as [[request [[responses total]|err]] d];
    cbn [fst snd db trace]; rewrite ?calls_logged, ?calls_called; reflexivity.
Qed.

End HandlerFacts.

(** ** The page count at the edges of the size *)

Section RoundedQuotientFloor.

Lemma rounded_quotient_floor (A B1 M e1 n : Z) (x : Q) :
  0 < B1 -> 0 <= A ->
  2 ^ 52 <= A / B1 ->
  (M = A / B1 /\ 2 * (A mod B1) <= B1)
  \/ (M = A / B1 + 1 /\ B1 <= 2 * (A mod B1)) ->
  (x * inject_Z B1 == inject_Z A * pow2 e1)%Q ->
  0 <= n ->
  (inject_Z n <= x)%Q -> (x < inject_Z (n + 1))%Q ->
  (x <= (inject_Z (n + 1) - x) * inject_Z (2 ^ 53))%Q ->
  (x <= inject_Z (2 ^ 53))%Q ->
  (inject_Z n <= inject_Z M * pow2 e1 < inject_Z (n + 1))%Q.
Proof.
  intros HB HA Hm1 Hch Hx Hn Hlo Hhi Hgap Hmax.
  set (m1 := A / B1) in *. set (f := A mod B1) in *.
  pose proof (Z.mod_pos_bound A B1 HB) as Hf. fold f in Hf.
  pose proof (inject_div_mod A B1 HB) as HAq. fold m1 f in HAq.
  pose proof (pow2_pos e1) as Hu.
  set (u := pow2 e1) in *.
  set (qB := inject_Z B1) in *. set (qm := inject_Z m1) in *.
  set (qf := inject_Z f) in *.
  assert (HqB : (0 < qB)%Q) by (unfold qB; change 0%Q with (inject_Z 0); now rewrite <- Zlt_Qlt).
  assert (Hqf0 : (0 <= qf)%Q) by (unfold qf; change 0%Q with (inject_Z 0); rewrite <- Zle_Qle; lia).
  assert (HqfB : (qf < qB)%Q) by (unfold qf, qB; rewrite <- Zlt_Qlt; lia).
  assert (Hqm : (inject_Z (2 ^ 52) <= qm)%Q) by (unfold qm; now rewrite <- Zle_Qle).
  (* x = (qm + qf / qB) * u *)
  assert (Hxe : (x == qm * u + qf / qB * u)%Q).
  { rewrite HAq in Hx.
    assert ((x * qB) / qB == ((qB * qm + qf) * u) / qB)%Q as H by now rewrite Hx.
    field_simplify in H; [|lra|lra].
    rewrite H. field. lra. }
  set (phi := (qf / qB)%Q) in *.
  assert (Hphi0 : (0 <= phi)%Q).
  { unfold phi. apply Qle_shift_div_l; [exact HqB|]. lra. }
  assert (Hphi1 : (phi < 1)%Q).
  { unfold phi. apply Qlt_shift_div_r; [exact HqB|]. lra. }
  assert (Hhalf : (M = m1 /\ (phi <= 1 # 2)%Q) \/ (M = m1 + 1 /\ ((1 # 2) <= phi)%Q)).
  { destruct Hch as [[HM Hc]|[HM Hc]]; [left|right]; (split; [exact HM|]).
    - unfold phi. apply Qle_shift_div_r; [exact HqB|].
      assert (inject_Z (2 * f) <= qB)%Q as H by (unfold qB; now rewrite <- Zle_Qle).
      rewrite inject_Z_mult in H. fold qf in H. change (inject_Z 2) with 2%Q in H. lra.
    - unfold phi. apply Qle_shift_div_l; [exact HqB|].
      assert (qB <= inject_Z (2 * f))%Q as H by (unfold qB; now rewrite <- Zle_Qle).
      rewrite inject_Z_mult in H. fold qf in H. change (inject_Z 2) with 2%Q in H. lra. }
  assert (Hpu0 : (0 <= phi * u)%Q) by (apply Qmult_le_0_compat; lra).
  assert (Hpu1 : (phi * u < u)%Q).
  { setoid_replace u with (1 * u)%Q at 2 by ring.
    apply Qmult_lt_compat_r; assumption. }
  assert (Hmu : (inject_Z (2 ^ 52) * u <= qm * u)%Q).
  { apply Qmult_le_compat_r; [exact Hqm|lra]. }
  change (inject_Z (2 ^ 52)) with (4503599627370496 # 1)%Q in *.
  change (inject_Z (2 ^ 53)) with (9007199254740992 # 1)%Q in *.
  destruct (Z.le_gt_cases e1 0) as [He|He].
  - (* the grid of the result holds the integers *)
    set (k := - e1).
    assert (Hk : 0 <= k) by (unfold k; lia).
    assert (Hgrid : forall z, (inject_Z z == inject_Z (z * 2 ^ k) * u)%Q).
    { intros z. rewrite inject_Z_mult, pow2_inject by exact Hk.
      unfold u, k. rewrite <- Qmult_assoc, (Qmult_comm (pow2 (- e1))), pow2_cancel. ring. }
    rewrite (Hgrid n), (Hgrid (n + 1)) in *.
    set (N := n * 2 ^ k) in *. set (N' := (n + 1) * 2 ^ k) in *.
    assert (Hcmp : forall a b : Z, (inject_Z a * u < inject_Z b * u)%Q -> a < b).
    { intros a b H. rewrite Zlt_Qlt.
      apply Qmult_lt_r in H; assumption. }
    assert (Hcmp' : forall a b : Z, a <= b -> (inject_Z a * u <= inject_Z b * u)%Q).
    { intros a b H. apply Qmult_le_compat_r; [now rewrite <- Zle_Qle|lra]. }
    assert (Hcmp'' : forall a b : Z, a < b -> (inject_Z a * u < inject_Z b * u)%Q).
    { intros a b H. apply Qmult_lt_compat_r; [exact Hu|now rewrite <- Zlt_Qlt]. }
    assert (Hm1u : (inject_Z (m1 + 1) * u == qm * u + u)%Q).
    { rewrite inject_Z_plus. fold qm. change (inject_Z 1) with 1%Q. ring. }
    destruct Hhalf as [[HM Hp]|[HM Hp]]; subst M.
    + (* rounded down *)
      assert (Hpu : (phi * u <= (1 # 2) * u)%Q)
        by (apply Qmult_le_compat_r; lra).
      split.
      * apply Hcmp'.
        assert (N < m1 + 1); [|lia].
        apply Hcmp. rewrite Hm1u. lra.
      * fold qm. lra.
    + (* rounded up *)
      assert (Hpu : ((1 # 2) * u <= phi * u)%Q)
        by (apply Qmult_le_compat_r; lra).
      split.
      * apply Hcmp'.
        assert (N < m1 + 1); [|lia].
        apply Hcmp. rewrite Hm1u. lra.
      * destruct (Z.lt_ge_cases (m1 + 1) N') as [H|H]; [now apply Hcmp''|].
        apply Hcmp' in H. rewrite Hm1u in H. lra.
  - (* a coarser grid: the quotient is on it *)
    pose proof (pow2_ge_2 e1 He) as Hu2. fold u in Hu2.
    assert (Hmu2 : (qm * 2 <= qm * u)%Q).
    { apply Qmult_le_l; lra. }
    destruct Hhalf as [[HM Hp]|[HM Hp]]; subst M; fold qm.
    + assert (Hpu : (phi * u <= (1 # 2) * u)%Q)
        by (apply Qmult_le_compat_r; lra).
      split; lra.
    + assert (Hpu : ((1 # 2) * u <= phi * u)%Q)
        by (apply Qmult_le_compat_r; lra).
      lra.
Qed.

End RoundedQuotientFloor.

(** *** The sign of a conversion and of a quotient *)

Section SignFacts.

Import float64.

Lemma binary_round_aux_opp (s : bool) (mx ex : Z) (lx : location) :
  binary_round_aux prec emax (negb s) mx ex lx
  = SFopp (binary_round_aux prec emax s mx ex lx).
Proof.
  unfold binary_round_aux.
  destruct (shr_fexp prec emax mx ex lx) as [mrs' e'].
  destruct (shr_fexp prec emax _ e' loc_Exact) as [mrs'' e''].
  destruct (shr_m mrs''); [reflexivity| |reflexivity].
  now destruct (e'' <=? emax - prec).
Qed.

Lemma of_int_opp (n : Z) : n <> 0 -> of_int (- n) = SFopp (of_int n).
Proof.
  intros Hn. unfold of_int, binary_normalize, binary_round.
  destruct n as [|p|p]; [contradiction| |]; cbn [Z.opp];
    destruct (shl_align p 0 _) as [mz ez].
  - apply (binary_round_aux_opp false).
  - rewrite (binary_round_aux_opp true). now destruct (binary_round_aux _ _ _ _ _ _).
Qed.

Lemma div_opp_r (x y : t) : div x (SFopp y) = SFopp (div x y).
Proof.
  unfold div, SFdiv.
  destruct x as [sx|sx| |sx mx ex], y as [sy|sy| |sy my ey]; cbn [SFopp];
    try reflexivity;
    try (now destruct sx, sy).
  destruct (SFdiv_core_binary prec emax (Zpos mx) ex (Zpos my) ey) as [[mz ez] lz].
  replace (xorb sx (negb sy)) with (negb (xorb sx sy)) by now destruct sx, sy.
  apply binary_round_aux_opp.
Qed.

Lemma int_part_opp (x : t) :
  int_part (SFopp x) = option_map Z.opp (int_part x).
Proof.
  destruct x as [s|s| |s m e]; cbn [SFopp int_part option_map]; try reflexivity.
  f_equal. destruct s; cbn [negb]; lia.
Qed.

(** A nonzero [int64] converts to a finite value of its sign. *)
Lemma of_int_finite (n : Z) :
  - 2 ^ 63 <= n < 2 ^ 63 -> n <> 0 ->
  exists m e, of_int n = S754_finite (n <? 0) m e.
Proof.
  intros Hn H0.
  destruct (Z.eq_dec n (- 2 ^ 63)) as [->|Hmin].
  { eexists _, _. vm_compute. reflexivity. }
  destruct (Z.ltb_spec n 0) as [Hneg|Hpos].
  - destruct (of_int_value (- n) ltac:(lia)) as (m & e & Heq & _).
    exists m, e. replace n with (- - n) by lia.
    rewrite of_int_opp by lia. now rewrite Heq.
  - destruct (of_int_value n ltac:(lia)) as (m & e & Heq & _).
    now exists m, e.
Qed.

(** [int64(math.Ceil(x))] for a negative [x]: the magnitude is cut
    to its integral part. *)
Lemma Ceil_negative (unrepresentable : t -> Z) (m : positive) (e k : Z) :
  0 <= k <= 2 ^ prec ->
  (inject_Z k <= F2Q m e)%Q -> (F2Q m e < inject_Z (k + 1))%Q ->
  to_int64 unrepresentable (Ceil (S754_finite true m e)) = - k.
Proof.
  intros Hk Hlo Hhi.
  assert (Hrange : (min_int64 <=? - k) && (- k <=? max_int64) = true).
  { assert (2 ^ prec < max_int64) by reflexivity.
    assert (min_int64 < - 2 ^ prec) by reflexivity. lia. }
  unfold to_int64, Ceil.
  destruct (Z.leb_spec 0 e) as [He|He].
  - rewrite F2Q_nonneg_exponent in Hlo, Hhi by exact He.
    rewrite <- Zle_Qle in Hlo. rewrite <- Zlt_Qlt in Hhi.
    assert (Hv : Zpos m * 2 ^ e = k) by lia.
    unfold int_part. replace (0 <=? e) with true by lia.
    rewrite Hv, Hrange. reflexivity.
  - set (P := 2 ^ (- e)).
    assert (HP : 0 < P) by (apply Z.pow_pos_nonneg; lia).
    pose proof (F2Q_neg_exponent m e ltac:(lia)) as HF. fold P in HF.
    assert (HqP : (0 < inject_Z P)%Q)
      by (change 0%Q with (inject_Z 0); now rewrite <- Zlt_Qlt).
    assert (H1 : k * P <= Zpos m).
    { rewrite Zle_Qle, inject_Z_mult, <- HF.
      apply Qmult_le_compat_r; [assumption|lra]. }
    assert (H2 : Zpos m < (k + 1) * P).
    { rewrite Zlt_Qlt, inject_Z_mult, <- HF.
      apply Qmult_lt_compat_r; assumption. }
    assert (Hfloor : Zpos m / P = k).
    { symmetry. apply (Z.div_unique_pos _ _ _ (Zpos m - k * P)); lia. }
    rewrite Hfloor.
    destruct (Z.eq_dec k 0) as [->|Hk0]; [reflexivity|].
    replace (binary_normalize prec emax (- k) 0 true) with (of_int (- k))
      by (unfold of_int, binary_normalize; destruct k; [lia|reflexivity..]).
    rewrite of_int_opp by exact Hk0.
    rewrite int_part_opp, of_int_int_part by lia.
    cbn [option_map]. rewrite Hrange. reflexivity.
Qed.

End SignFacts.

(** *** The page count for a size of zero or below *)

Section TotalPageEdges.

Import float64.

Variable unrepresentable : t -> Z.

(** X7: with a size of 0 the quotient in [List] is no finite number,
    whatever the [int64] count is: NaN for no items, an infinity of
    the sign of the count otherwise; [math.Ceil] keeps it and the page
    count is what the machine makes of converting it to [int64]. *)
Theorem TotalPage_zero_size (total : Z) :
  - 2 ^ 63 <= total < 2 ^ 63 ->
  http.TotalPage unrepresentable total 0
  = unrepresentable
      (if total =? 0 then S754_nan else S754_infinity (total <? 0)).
Proof.
  intros Ht. unfold http.TotalPage.
  destruct (Z.eqb_spec total 0) as [->|Hne]; [reflexivity|].
  destruct (of_int_finite total Ht Hne) as (m & e & ->).
  now destruct (total <? 0).
Qed.

(** X8: with a negative size the page count in [List] is not
    positive: up to [2 ^ 53] items, and a size of [- 2 ^ 53] or
    above, it is the negated integer quotient of the count by the
    magnitude of the size, rounded down, on every machine. *)
Theorem TotalPage_negative_size (total size : Z) :
  0 <= total <= 2 ^ 53 -> - 2 ^ 53 <= size < 0 ->
  http.TotalPage unrepresentable total size = - (total / (- size)).
Proof.
  intros Ht Hs. unfold http.TotalPage.
  set (s := - size). assert (Hs' : 0 < s <= 2 ^ 53) by (unfold s; lia).
  replace size with (- s) by (unfold s; lia). clearbody s. clear Hs.
  rewrite of_int_opp, div_opp_r by lia.
  destruct (of_int_value s ltac:(lia)) as (mb & eb & Hfb & Hdb & Heb & Hbs & _).
  specialize (Hbs ltac:(unfold prec; lia)).
  destruct (Z.eq_dec total 0) as [->|Hne].
  - (* nothing to page: a negative zero *)
    rewrite Hfb. rewrite Z.div_0_l by lia. reflexivity.
  - destruct (of_int_value total ltac:(lia)) as (ma & ea & Hfa & Hda & Hea & Has & _).
    specialize (Has ltac:(unfold prec; lia)).
    rewrite Hfa, Hfb.
    destruct (div_normal ma mb ea eb Hda Hdb Hea Heb)
      as (m & e & k & Hdiv & Hk & He1 & Hm1 & Hch).
    rewrite Hdiv. cbv zeta in He1, Hm1, Hch. cbn [SFopp negb].
    set (e1 := ea - eb - prec + k) in *.
    set (A := Zpos ma * 2 ^ prec) in *.
    set (B1 := 2 ^ k * Zpos mb) in *.
    set (M := Zpos m * 2 ^ (e - e1)) in *.
    set (n := total / s).
    pose proof (Z.div_mod total s ltac:(lia)) as Hn.
    pose proof (Z.mod_pos_bound total s ltac:(lia)) as Hmod.
    fold n in Hn.
    assert (Hn0 : 0 <= n) by (apply Z.div_pos; lia).
    assert (Hlo : n * s <= total) by lia.
    assert (Hhi : total < (n + 1) * s) by lia.
    assert (Hn53 : n <= 2 ^ prec) by (unfold prec; nia).
    clear Hn Hmod.
    assert (HB1 : 0 < B1).
    { unfold B1. assert (0 < 2 ^ k) by (apply Z.pow_pos_nonneg; lia). lia. }
    assert (HA : 0 <= A).
    { unfold A. assert (0 < 2 ^ prec) by reflexivity. lia. }
    pose proof (F2Q_pos mb eb) as HQb.
    set (Qa := F2Q ma ea) in *. set (Qb := F2Q mb eb) in *.
    set (x := (Qa / Qb)%Q).
    assert (Hxb : (x * Qb == Qa)%Q) by (unfold x; field; lra).
    assert (Hx : (x * inject_Z B1 == inject_Z A * pow2 e1)%Q).
    { unfold B1, A. rewrite !inject_Z_mult.
      rewrite !pow2_inject by (unfold prec; lia).
      assert (Hp : (pow2 e1 * pow2 eb == pow2 ea * pow2 k * pow2 (- prec))%Q).
      { rewrite <- !pow2_add. unfold e1.
        now replace (ea - eb - prec + k + eb) with (ea + k + - prec) by lia. }
      pose proof (pow2_cancel prec) as Hc.
      pose proof (pow2_pos eb) as Hpeb.
      assert (Hxq : (x * (inject_Z (Zpos mb) * pow2 eb)
                     == inject_Z (Zpos ma) * pow2 ea)%Q) by exact Hxb.
      apply (Qmult_inj_r _ _ (pow2 eb)); [lra|].
      transitivity (x * (inject_Z (Zpos mb) * pow2 eb) * pow2 k)%Q; [ring|].
      rewrite Hxq.
      transitivity (inject_Z (Zpos ma) * pow2 prec * (pow2 e1 * pow2 eb))%Q; [|ring].
      rewrite Hp.
      transitivity (inject_Z (Zpos ma) * pow2 ea * pow2 k
                    * (pow2 prec * pow2 (- prec)))%Q; [|ring].
      rewrite Hc. ring. }
    assert (Hbetween :
              (inject_Z n <= inject_Z M * pow2 e1 < inject_Z (n + 1))%Q).
    { apply (rounded_quotient_floor A B1 M e1 n x HB1 HA);
        [unfold prec in Hm1; simpl in Hm1; lia|exact Hch|exact Hx|exact Hn0| | | | ].
      - (* n <= x *)
        apply (Qmult_le_r _ _ Qb HQb). rewrite Hxb.
        rewrite Has, Hbs, <- inject_Z_mult, <- Zle_Qle. lia.
      - (* x < n + 1 *)
        apply (Qmult_lt_r _ _ Qb HQb). rewrite Hxb.
        rewrite Has, Hbs, <- inject_Z_mult, <- Zlt_Qlt. lia.
      - (* the gap above x against the spacing of the grid *)
        apply (Qmult_le_r _ _ Qb HQb).
        setoid_replace ((inject_Z (n + 1) - x) * inject_Z (2 ^ 53) * Qb)%Q
          with ((inject_Z (n + 1) * Qb - x * Qb) * inject_Z (2 ^ 53))%Q by ring.
        rewrite Hxb. rewrite Has, Hbs.
        rewrite <- inject_Z_mult. unfold Qminus.
        rewrite <- inject_Z_opp, <- inject_Z_plus, <- inject_Z_mult, <- Zle_Qle.
        apply Z.le_trans with (1 * 2 ^ 53); [lia|].
        apply Z.mul_le_mono_nonneg_r; lia.
      - (* x <= 2 ^ 53 *)
        apply (Qmult_le_r _ _ Qb HQb). rewrite Hxb.
        rewrite Has, Hbs, <- inject_Z_mult, <- Zle_Qle. nia. }
    apply Ceil_negative; [lia| |].
    + rewrite (F2Q_rounded m e e1 He1). fold M. apply Hbetween.
    + rewrite (F2Q_rounded m e e1 He1). fold M. apply Hbetween.
Qed.

End TotalPageEdges.

(** ** The further properties on concrete inputs *)

(** A query whose [page] is no number and whose [size] is absent. *)
Lemma List_query_defaults_witness :
  reaches (effect.mkWorld demo.store [])
    (http.ContactController_List service.Store demo.Contacts demo.amd64
       (fiber.Ctx.mk (B:=unit) (Some demo.as_alice) None demo.no_params
          (demo.query "first" EmptyString) demo.no_params)
       (effect.mkWorld demo.store []))
    (effect.ContactSearch
       (model.SearchContactRequest.mk "alice"
          EmptyString EmptyString EmptyString 1 10))
  /\ fiber.Atoi EmptyString = None.
Proof.
  apply (List_query_defaults service.Store demo.Contacts demo.amd64
           (effect.mkWorld demo.store []) demo.as_alice unit None
           demo.no_params (demo.query "first" EmptyString) demo.no_params);
    reflexivity.
Defined.

(** 25 items and a size of 0 on an amd64 machine. *)
Lemma TotalPage_zero_size_witness :
  http.TotalPage demo.amd64 25 0 = float64.min_int64.
Proof.
  apply (TotalPage_zero_size demo.amd64 25).
  vm_compute. split; [discriminate|reflexivity].
Defined.

(** 25 items and a size of -10. *)
Lemma TotalPage_negative_size_witness :
  http.TotalPage demo.amd64 25 (-10) = -2.
Proof.
  apply (TotalPage_negative_size demo.amd64 25 (-10)).
  - vm_compute. split; discriminate.
  - vm_compute. split; [discriminate|reflexivity].
Defined.

(** The tag [required] and the field [FirstName], with a parameter
    and without one. *)
Lemma formatValidationError_shape_witness :
  messages.formatValidationError (fun r => r)
    (messages.FieldError.mk (messages.lit "FirstName")
       (messages.lit "required") (messages.lit "5"))
  = messages.formatValidationError (fun r => r)
      (messages.FieldError.mk (messages.lit "FirstName")
         (messages.lit "required") []).
Proof.
  destruct (formatValidationError_shape (fun r => r)
              (messages.lit "FirstName") (messages.lit "required") [])
    as (_ & _ & H).
  apply H; intros E; vm_compute in E; discriminate E.
Defined.

(** Two field errors, one after the other. *)
Lemma FormatValidationErrors_joins_witness :
  let e1 := messages.FieldError.mk (messages.lit "FirstName")
              (messages.lit "required") [] in
  let e2 := messages.FieldError.mk (messages.lit "Email")
              (messages.lit "email") [] in
  messages.FormatValidationErrors (fun r => r)
    (Some (messages.ValidationErrors ([e1] ++ [e2])))
  = messages.FormatValidationErrors (fun r => r)
      (Some (messages.ValidationErrors [e1]))
    ++ messages.lit "; "
    ++ messages.FormatValidationErrors (fun r => r)
         (Some (messages.ValidationErrors [e2])).
Proof.
  intros e1 e2.
  destruct (FormatValidationErrors_joins (fun r => r)) as (_ & _ & H & _).
  apply H; discriminate.
Defined.
